(** * Session engine of the Ludo server: a shallow embedding of
    [server/game-manager.ts] (class [GameManager]) and of the shared types of
    [shared/schema.ts], with the properties of the room registry, the
    weighted die, the movement engine and the turn state machine.

    Conventions of the embedding.
    - A JavaScript [number] that holds a position, a roll or an index is an
      integer ([Z], or [nat] for array indices and lengths).  The numbers of
      the die (weights, draw, running remainder) are IEEE 754 binary64
      values with the primitive operations of [PrimFloat], as the program
      computes them; the same computation over exact rationals ([Q]) is
      given beside it, for the statements about the weights that the
      specification makes in exact arithmetic.
    - [Math.random()], [Date.now()] and [randomBytes] are inputs of the
      operations that use them.
    - Every operation returns the manager after the call together with what
      the method returns: a value, [null], or a thrown error.  Objects of a
      room are mutated in place by the source; here the room is written back
      into the [rooms] map. *)

From Stdlib Require Import ZArith QArith Lia Lqa String Floats.
From stdpp Require Import base option list sorting gmap strings.

Local Open Scope Z_scope.

(** ** Shared types ([shared/schema.ts]) *)

Inductive PlayerColor := red | green | yellow | blue.
Inductive GameMode := two_player | four_player.

#[global] Instance PlayerColor_eq_dec : EqDecision PlayerColor.
Proof. solve_decision. Defined.
#[global] Instance GameMode_eq_dec : EqDecision GameMode.
Proof. solve_decision. Defined.

Record GamePiece := mkPiece {
  pc_id : string;
  pc_color : PlayerColor;
  position : Z;
  isSafe : bool
}.

Record Player := mkPlayer {
  pl_id : string;
  pl_name : string;
  pl_color : option PlayerColor;
  ready : bool
}.

Record GameState := mkState {
  pieces : list GamePiece;
  currentTurnIndex : nat;
  diceValue : option Z;
  lastDiceValue : option Z;
  isFirstRollOfTurn : bool;
  waitingForMove : bool;
  winner : option PlayerColor;
  started : bool
}.

Record GameRoom := mkRoom {
  code : string;
  players : list Player;
  gameMode : GameMode;
  gameState : GameState;
  createdAt : Z
}.

Record GameManager := mkManager {
  rooms : gmap string GameRoom;
  playerToRoom : gmap string string
}.

Definition emptyManager : GameManager := mkManager ∅ ∅.

(** The errors the manager throws, named as in the error taxonomy;
    [TypeError] is the runtime error of reading a field of [undefined]. *)
Inductive GameError :=
| RoomFull | GameAlreadyStarted | ColorUnavailable | ColorTaken | NotAllReady
| NotYourTurn | AlreadyRolled | MustRollFirst | InvalidPiece | InvalidMove
| TypeError.

Definition error_message (e : GameError) : string :=
  match e with
  | RoomFull => "Room is full"
  | GameAlreadyStarted => "Game already started"
  | ColorUnavailable => "Color not available for this game mode"
  | ColorTaken => "Color already taken"
  | NotAllReady => "Not all players are ready"
  | NotYourTurn => "Not your turn"
  | AlreadyRolled => "Already rolled, make your move"
  | MustRollFirst => "Roll the dice first"
  | InvalidPiece => "Invalid piece"
  | InvalidMove => "Invalid move"
  | TypeError => "Cannot read properties of undefined (reading 'id')"
  end%string.

Inductive Outcome (A : Type) :=
| Ok (a : A)
| Null
| Throw (e : GameError).
Arguments Ok {A} a.
Arguments Null {A}.
Arguments Throw {A} e.

(** Functional record updates for the fields the source assigns. *)
Definition set_players (r : GameRoom) (ps : list Player) : GameRoom :=
  mkRoom (code r) ps (gameMode r) (gameState r) (createdAt r).
Definition set_gameState (r : GameRoom) (g : GameState) : GameRoom :=
  mkRoom (code r) (players r) (gameMode r) g (createdAt r).
Definition set_pl_color (p : Player) (c : option PlayerColor) : Player :=
  mkPlayer (pl_id p) (pl_name p) c (ready p).
Definition set_ready (p : Player) (b : bool) : Player :=
  mkPlayer (pl_id p) (pl_name p) (pl_color p) b.
Definition set_position (p : GamePiece) (z : Z) : GamePiece :=
  mkPiece (pc_id p) (pc_color p) z (isSafe p).
Definition set_isSafe (p : GamePiece) (b : bool) : GamePiece :=
  mkPiece (pc_id p) (pc_color p) (position p) b.
Definition store_room (m : GameManager) (roomCode : string) (r : GameRoom)
    : GameManager :=
  mkManager (<[roomCode := r]> (rooms m)) (playerToRoom m).

Definition PLAYER_COLORS_4P : list PlayerColor := [red; green; yellow; blue].
Definition PLAYER_COLORS_2P : list PlayerColor := [red; yellow].

Definition maxPlayers (mode : GameMode) : nat :=
  match mode with two_player => 2%nat | four_player => 4%nat end.

(** ** Room registry *)

(** [generateRoomCode]: draw codes until one is not in use.  The draws of
    [randomBytes] are the list [draws]; the loop stops at the first free one. *)
Fixpoint generateRoomCode (m : GameManager) (draws : list string) : option string :=
  match draws with
  | [] => None
  | c :: rest =>
      match rooms m !! c with
      | Some _ => generateRoomCode m rest
      | None => Some c
      end
  end.

Definition initialGameState : GameState :=
  mkState [] 0%nat None None true false None false.

(** The room object built by [createRoom]. *)
Definition newRoom (c playerId playerName : string) (mode : GameMode)
    (now : Z) : GameRoom :=
  mkRoom c [mkPlayer playerId playerName None false] mode initialGameState now.

Definition createRoom (m : GameManager) (draws : list string) (now : Z)
    (playerId playerName : string) (mode : GameMode)
    : option (GameManager * GameRoom) :=
  match generateRoomCode m draws with
  | None => None
  | Some c =>
      let room := newRoom c playerId playerName mode now in
      Some (mkManager (<[c := room]> (rooms m))
                      (<[playerId := c]> (playerToRoom m)), room)
  end.

Definition joinRoom (m : GameManager) (roomCode playerId playerName : string)
    : GameManager * Outcome GameRoom :=
  match rooms m !! roomCode with
  | None => (m, Null)
  | Some room =>
      if bool_decide (maxPlayers (gameMode room) ≤ length (players room))%nat
      then (m, Throw RoomFull)
      else if started (gameState room) then (m, Throw GameAlreadyStarted)
      else
        let room' := set_players room
                       (players room ++ [mkPlayer playerId playerName None false]) in
        (mkManager (<[roomCode := room']> (rooms m))
                   (<[playerId := roomCode]> (playerToRoom m)), Ok room')
  end.

(** The prologue shared by the methods: [playerToRoom.get(playerId)]
    followed by [rooms.get(roomCode)]; [None] where the method returns [null]. *)
Definition findRoom (m : GameManager) (playerId : string)
    : option (string * GameRoom) :=
  match playerToRoom m !! playerId with
  | None => None
  | Some roomCode =>
      match rooms m !! roomCode with
      | None => None
      | Some room => Some (roomCode, room)
      end
  end.

Definition getRoom (m : GameManager) (playerId : string) : option GameRoom :=
  snd <$> findRoom m playerId.

Definition getRoomByCode (m : GameManager) (c : string) : option GameRoom :=
  rooms m !! c.

Definition getAvailableColors (room : GameRoom) : list PlayerColor :=
  match gameMode room with
  | two_player => PLAYER_COLORS_2P
  | four_player => PLAYER_COLORS_4P
  end.

(** [players.find(p => p.id === playerId)] followed by an assignment to a
    field of the player found: the first player with that id is replaced. *)
Definition update_player (ps : list Player) (playerId : string)
    (f : Player → Player) : list Player :=
  match list_find (λ p, pl_id p = playerId) ps with
  | Some (i, p) => <[i := f p]> ps
  | None => ps
  end.

Definition color_taken (ps : list Player) (playerId : string)
    (c : PlayerColor) : bool :=
  existsb (λ p, bool_decide (pl_color p = Some c)
                && negb (bool_decide (pl_id p = playerId))) ps.

Definition chooseColor (m : GameManager) (playerId : string) (c : PlayerColor)
    : GameManager * Outcome GameRoom :=
  match findRoom m playerId with
  | None => (m, Null)
  | Some (roomCode, room) =>
      if negb (bool_decide (c ∈ getAvailableColors room))
      then (m, Throw ColorUnavailable)
      else if color_taken (players room) playerId c
      then (m, Throw ColorTaken)
      else
        let room' := set_players room
              (update_player (players room) playerId (λ p, set_pl_color p (Some c))) in
        (store_room m roomCode room', Ok room')
  end.

(** [if (player && player.color) player.ready = true]. *)
Definition markReady (p : Player) : Player :=
  match pl_color p with
  | Some _ => set_ready p true
  | None => p
  end.

Definition setReady (m : GameManager) (playerId : string)
    : GameManager * Outcome GameRoom :=
  match findRoom m playerId with
  | None => (m, Null)
  | Some (roomCode, room) =>
      let room' := set_players room
            (update_player (players room) playerId markReady) in
      (store_room m roomCode room', Ok room')
  end.

Definition canStartGame (room : GameRoom) : bool :=
  let requiredPlayers := match gameMode room with
                         | two_player => 2%nat | four_player => 2%nat end in
  bool_decide (requiredPlayers ≤ length (players room))%nat
  && bool_decide (length (players room) ≤ maxPlayers (gameMode room))%nat
  && forallb (λ p, bool_decide (pl_color p ≠ None) && ready p) (players room).

Definition color_name (c : PlayerColor) : string :=
  match c with
  | red => "red" | green => "green" | yellow => "yellow" | blue => "blue"
  end%string.

Definition index_name (i : nat) : string :=
  match i with
  | 0%nat => "0" | 1%nat => "1" | 2%nat => "2" | _ => "3"
  end%string.

(** The piece pushed by the body of the [for] loop of [startGame]. *)
Definition newPiece (c : PlayerColor) (i : nat) : GamePiece :=
  mkPiece (color_name c +:+ "-" +:+ index_name i) c (-1) true.

Definition initialPieces (ps : list Player) : list GamePiece :=
  flat_map (λ p, match pl_color p with
                 | Some c => map (newPiece c) (seq 0 4)
                 | None => []
                 end) ps.

(** The object assigned to [room.gameState] by [startGame]. *)
Definition startState (room : GameRoom) : GameState :=
  mkState (initialPieces (players room)) 0%nat None None true false None true.

Definition startGame (m : GameManager) (playerId : string)
    : GameManager * Outcome GameRoom :=
  match findRoom m playerId with
  | None => (m, Null)
  | Some (roomCode, room) =>
      if negb (canStartGame room) then (m, Throw NotAllReady)
      else
        let room' := set_gameState room (startState room) in
        (store_room m roomCode room', Ok room')
  end.

Definition leaveRoom (m : GameManager) (playerId : string)
    : GameManager * option string :=
  match playerToRoom m !! playerId with
  | None => (m, None)
  | Some roomCode =>
      match rooms m !! roomCode with
      | None => (m, None)
      | Some room =>
          let room' := set_players room
                (filter (λ p, pl_id p ≠ playerId) (players room)) in
          let rooms' := <[roomCode := room']> (rooms m) in
          let p2r := delete playerId (playerToRoom m) in
          if bool_decide (length (players room') = 0%nat)
          then (mkManager (delete roomCode rooms') p2r, Some roomCode)
          else (mkManager rooms' p2r, Some roomCode)
      end
  end.

(** ** The weighted die ([rollWeightedDice])

    First the computation over exact rationals, then, in [Double], the same
    computation over binary64 values, which is what [rollWeightedDice]
    runs. *)

Definition baseWeights : list Q := [15; 15; 15; 15; 15; 25]%Q.
Definition allInBaseWeights : list Q := [10; 10; 10; 10; 10; 50]%Q.

(** [weights[i]] for a number [i]: [undefined] outside the array. *)
Definition weight_at (ws : list Q) (i : Z) : option Q :=
  if bool_decide (0 ≤ i) then ws !! Z.to_nat i else None.

(** The body of [otherIndices.forEach]: index 5 (face 6) gets 1.5 times the
    share, every other index 0.875 times. *)
Definition addShare (share : Q) (ws : list Q) (i : nat) : list Q :=
  match ws !! i with
  | Some w =>
      if bool_decide (i = 5%nat)
      then <[i := (w + share * (3 # 2))%Q]> ws
      else <[i := (w + share * (7 # 8))%Q]> ws
  | None => ws
  end.

(** The weight vector before normalisation, from the three inputs the
    method reads off the room. *)
Definition biasWeights (allPiecesInBase : bool) (lastRoll : option Z)
    (isFirstRoll : bool) : list Q :=
  let weights := baseWeights in
  if allPiecesInBase then allInBaseWeights
  else
    match lastRoll with
    | Some lr =>
        if isFirstRoll then
          let lastRollIndex := lr - 1 in
          match weight_at weights lastRollIndex with
          | Some originalWeight =>
              let reducedWeight := 2%Q in
              let weightToRedistribute := (originalWeight - reducedWeight)%Q in
              if Qlt_le_dec 0 weightToRedistribute then
                let weights1 := <[Z.to_nat lastRollIndex := reducedWeight]> weights in
                let otherIndices :=
                  filter (λ i : nat, Z.of_nat i ≠ lastRollIndex) (seq 0 6) in
                let baseExtraPerNumber :=
                  (weightToRedistribute / inject_Z (Z.of_nat (length otherIndices)))%Q in
                foldl (addShare baseExtraPerNumber) weights1 otherIndices
              else weights
          | None => weights
          end
        else weights
    | None => weights
    end.

Definition totalWeight (ws : list Q) : Q := foldl Qplus 0%Q ws.

Definition normalizeWeights (ws : list Q) : list Q :=
  map (λ w, (w / totalWeight ws * 100)%Q) ws.

(** The sampling loop: [i] is the loop index, [roll] the value the variable
    [roll] holds when the loop ends without a [break]. *)
Fixpoint sampleLoop (ws : list Q) (i : Z) (random : Q) (roll : Z) : Z :=
  match ws with
  | [] => roll
  | w :: rest =>
      let random' := (random - w)%Q in
      if Qle_bool random' 0 then i + 1
      else sampleLoop rest (i + 1) random' roll
  end.

Definition sampleRoll (normalizedWeights : list Q) (random : Q) : Z :=
  sampleLoop normalizedWeights 0 random 1.

Definition currentPlayer (room : GameRoom) : option Player :=
  players room !! currentTurnIndex (gameState room).

(** [pieces.filter(p => p.color === playerColor)] where [playerColor] is the
    colour field of a player, possibly [null]. *)
Definition piecesOf (c : option PlayerColor) (ps : list GamePiece)
    : list GamePiece :=
  filter (λ p, Some (pc_color p) = c) ps.

Definition allPiecesInBase (room : GameRoom) (pl : Player) : bool :=
  forallb (λ p, bool_decide (position p = -1))
          (piecesOf (pl_color pl) (pieces (gameState room))).

(** The computation in binary64.  [weightToRedistribute > 0] and
    [random <= 0] are the comparisons of doubles (false on NaN);
    [otherIndices.length] enters the division as a double. *)
Module Double.

Definition of_nat (n : nat) : float :=
  PrimFloat.of_uint63 (Uint63.of_Z (Z.of_nat n)).

Definition baseWeights : list float := [15; 15; 15; 15; 15; 25]%float.
Definition allInBaseWeights : list float := [10; 10; 10; 10; 10; 50]%float.

Definition weight_at (ws : list float) (i : Z) : option float :=
  if bool_decide (0 ≤ i) then ws !! Z.to_nat i else None.

Definition addShare (share : float) (ws : list float) (i : nat) : list float :=
  match ws !! i with
  | Some w =>
      if bool_decide (i = 5%nat)
      then <[i := (w + share * 1.5)%float]> ws
      else <[i := (w + share * 0.875)%float]> ws
  | None => ws
  end.

Definition biasWeights (allPiecesInBase : bool) (lastRoll : option Z)
    (isFirstRoll : bool) : list float :=
  let weights := baseWeights in
  if allPiecesInBase then allInBaseWeights
  else
    match lastRoll with
    | Some lr =>
        if isFirstRoll then
          let lastRollIndex := lr - 1 in
          match weight_at weights lastRollIndex with
          | Some originalWeight =>
              let reducedWeight := 2%float in
              let weightToRedistribute :=
                (originalWeight - reducedWeight)%float in
              if PrimFloat.ltb 0 weightToRedistribute then
                let weights1 := <[Z.to_nat lastRollIndex := reducedWeight]> weights in
                let otherIndices :=
                  filter (λ i : nat, Z.of_nat i ≠ lastRollIndex) (seq 0 6) in
                let baseExtraPerNumber :=
                  (weightToRedistribute / of_nat (length otherIndices))%float in
                foldl (addShare baseExtraPerNumber) weights1 otherIndices
              else weights
          | None => weights
          end
        else weights
    | None => weights
    end.

Definition totalWeight (ws : list float) : float :=
  foldl PrimFloat.add 0%float ws.

Definition normalizeWeights (ws : list float) : list float :=
  map (λ w, (w / totalWeight ws * 100)%float) ws.

Fixpoint sampleLoop (ws : list float) (i : Z) (random : float) (roll : Z) : Z :=
  match ws with
  | [] => roll
  | w :: rest =>
      let random' := (random - w)%float in
      if PrimFloat.leb random' 0 then i + 1
      else sampleLoop rest (i + 1) random' roll
  end.

Definition sampleRoll (normalizedWeights : list float) (random : float) : Z :=
  sampleLoop normalizedWeights 0 random 1.

End Double.

(** [rollWeightedDice(room)] for the active player [pl]; [u] is the double
    [Math.random()] returns. *)
Definition rollWeightedDice (room : GameRoom) (pl : Player) (u : float) : Z :=
  let weights := Double.biasWeights (allPiecesInBase room pl)
                                    (lastDiceValue (gameState room))
                                    (isFirstRollOfTurn (gameState room)) in
  Double.sampleRoll (Double.normalizeWeights weights) (u * 100)%float.

(** ** Movement engine *)

Definition SAFE_SPOT_POSITIONS : list Z := [0; 8; 13; 21; 26; 34; 39; 47].

Definition PLAYER_START_OFFSETS (c : PlayerColor) : Z :=
  match c with red => 0 | green => 13 | yellow => 26 | blue => 39 end.

Definition canMovePiece (piece : GamePiece) (roll : Z) (room : GameRoom) : bool :=
  if bool_decide (position piece = -1) then bool_decide (roll = 6)
  else if bool_decide (position piece + roll > 57) then false
  else true.

Definition getAbsoluteTrackPosition (piece : GamePiece) : Z :=
  if bool_decide (position piece < 0) || bool_decide (position piece > 50)
  then -1
  else (position piece + PLAYER_START_OFFSETS (pc_color piece)) mod 52.

Definition isPieceOnSafeSpot (piece : GamePiece) : bool :=
  if bool_decide (position piece >= 51) then true
  else if bool_decide (position piece < 0) then true
  else if bool_decide (position piece = 99) then true
  else bool_decide (getAbsoluteTrackPosition piece ∈ SAFE_SPOT_POSITIONS).

Definition arePiecesOnSamePosition (piece1 piece2 : GamePiece) : bool :=
  if bool_decide (position piece1 < 0) || bool_decide (position piece1 > 50)
  then false
  else if bool_decide (position piece2 < 0) || bool_decide (position piece2 > 50)
  then false
  else bool_decide (getAbsoluteTrackPosition piece1 = getAbsoluteTrackPosition piece2).

(** ** Turn state machine *)

(** Assignments to the fields of [room.gameState]. *)
Definition set_pieces (g : GameState) (ps : list GamePiece) : GameState :=
  mkState ps (currentTurnIndex g) (diceValue g) (lastDiceValue g)
          (isFirstRollOfTurn g) (waitingForMove g) (winner g) (started g).
Definition set_currentTurnIndex (g : GameState) (i : nat) : GameState :=
  mkState (pieces g) i (diceValue g) (lastDiceValue g)
          (isFirstRollOfTurn g) (waitingForMove g) (winner g) (started g).
Definition set_diceValue (g : GameState) (d : option Z) : GameState :=
  mkState (pieces g) (currentTurnIndex g) d (lastDiceValue g)
          (isFirstRollOfTurn g) (waitingForMove g) (winner g) (started g).
Definition set_lastDiceValue (g : GameState) (d : option Z) : GameState :=
  mkState (pieces g) (currentTurnIndex g) (diceValue g) d
          (isFirstRollOfTurn g) (waitingForMove g) (winner g) (started g).
Definition set_isFirstRollOfTurn (g : GameState) (b : bool) : GameState :=
  mkState (pieces g) (currentTurnIndex g) (diceValue g) (lastDiceValue g)
          b (waitingForMove g) (winner g) (started g).
Definition set_waitingForMove (g : GameState) (b : bool) : GameState :=
  mkState (pieces g) (currentTurnIndex g) (diceValue g) (lastDiceValue g)
          (isFirstRollOfTurn g) b (winner g) (started g).
Definition set_winner (g : GameState) (w : option PlayerColor) : GameState :=
  mkState (pieces g) (currentTurnIndex g) (diceValue g) (lastDiceValue g)
          (isFirstRollOfTurn g) (waitingForMove g) w (started g).

(** The three assignments of a turn change, shared by [rollDice] and
    [movePiece]: [(currentTurnIndex + 1) % players.length]. *)
Definition passTurn (room : GameRoom) (g : GameState) (roll : Z) : GameState :=
  set_currentTurnIndex
    (set_isFirstRollOfTurn (set_lastDiceValue g (Some roll)) true)
    ((currentTurnIndex g + 1) `mod` length (players room))%nat.

Definition hasValidMoves (room : GameRoom) (pl : Player) (roll : Z) : bool :=
  existsb (λ p, canMovePiece p roll room)
          (piecesOf (pl_color pl) (pieces (gameState room))).

(** The state [rollDice] leaves behind once its guards have passed and the
    die has shown [roll]. *)
Definition rollState (room : GameRoom) (cp : Player) (roll : Z) : GameState :=
  let g1 := set_isFirstRollOfTurn
              (set_diceValue (gameState room) (Some roll)) false in
  if hasValidMoves room cp roll then set_waitingForMove g1 true
  else
    set_diceValue
      (if negb (bool_decide (roll = 6)) then passTurn room g1 roll else g1)
      None.

Definition rollDice (m : GameManager) (playerId : string) (u : float)
    : GameManager * Outcome (GameRoom * Z) :=
  match findRoom m playerId with
  | None => (m, Null)
  | Some (roomCode, room) =>
      if negb (started (gameState room)) then (m, Null)
      else
        match currentPlayer room with
        | None => (m, Throw TypeError)
        | Some cp =>
            if negb (bool_decide (pl_id cp = playerId)) then (m, Throw NotYourTurn)
            else if waitingForMove (gameState room) then (m, Throw AlreadyRolled)
            else
              let roll := rollWeightedDice room cp u in
              let room' := set_gameState room (rollState room cp roll) in
              (store_room m roomCode room', Ok (room', roll))
        end
  end.

(** The roll a move can use: [waitingForMove] is set and [diceValue] is
    truthy (neither [null] nor [0]). *)
Definition pendingRoll (g : GameState) : option Z :=
  if waitingForMove g then
    match diceValue g with
    | Some d => if bool_decide (d = 0) then None else Some d
    | None => None
    end
  else None.

(** "Execute move" and "Update isSafe status". *)
Definition executeMove (piece : GamePiece) (roll : Z) : GamePiece :=
  let piece1 := if bool_decide (position piece = -1) then set_position piece 0
                else set_position piece (position piece + roll) in
  set_isSafe piece1 (isPieceOnSafeSpot piece1).

(** The test of the capture loop on [otherPiece]: none of the three
    [continue]s is taken and the absolute cells agree. *)
Definition capturable (piece : GamePiece) (absolutePos : Z)
    (otherPiece : GamePiece) : Prop :=
  pc_id otherPiece ≠ pc_id piece
  ∧ pc_color otherPiece ≠ pc_color piece
  ∧ ¬ (position otherPiece < 0 ∨ position otherPiece > 50)
  ∧ absolutePos = getAbsoluteTrackPosition otherPiece.

#[global] Instance capturable_dec piece a o : Decision (capturable piece a o).
Proof. unfold capturable. apply _. Defined.

(** [otherPiece.position = -1; otherPiece.isSafe = true]. *)
Definition sentToBase (p : GamePiece) : GamePiece :=
  set_isSafe (set_position p (-1)) true.

(** "Check for capture": [ps] is the piece list with the moved piece
    already at its new position; the result is the list after the capture
    and the copy of the captured piece taken before it is sent to base. *)
Definition checkCapture (piece : GamePiece) (ps : list GamePiece)
    : list GamePiece * option GamePiece :=
  if bool_decide (position piece >= 0) && bool_decide (position piece <= 50) then
    let absolutePos := getAbsoluteTrackPosition piece in
    let isLandingSpotSafe := bool_decide (absolutePos ∈ SAFE_SPOT_POSITIONS) in
    if negb isLandingSpotSafe then
      match list_find (capturable piece absolutePos) ps with
      | Some (j, otherPiece) =>
          (<[j := sentToBase otherPiece]> ps, Some otherPiece)
      | None => (ps, None)
      end
    else (ps, None)
  else (ps, None).

(** "Check for finish". *)
Definition checkFinish (piece : GamePiece) : GamePiece :=
  if bool_decide (position piece = 57)
  then set_isSafe (set_position piece 99) true
  else piece.

(** "Check for winner". *)
Definition checkWinner (cp : Player) (g : GameState) : GameState :=
  if forallb (λ p, bool_decide (position p = 99))
             (piecesOf (pl_color cp) (pieces g))
  then set_winner g (pl_color cp)
  else g.

(** "Next turn rules". *)
Definition nextTurn (room : GameRoom) (g : GameState) (roll : Z)
    (captured : option GamePiece) : GameState :=
  let g1 := set_waitingForMove g false in
  let getAnotherTurn := bool_decide (roll = 6) || bool_decide (captured ≠ None) in
  set_diceValue
    (if negb getAnotherTurn && negb (bool_decide (winner g1 ≠ None))
     then passTurn room g1 roll
     else g1)
    None.

(** The part of [movePiece] after its four guards: piece [piece], found at
    index [i] of the piece list, moves by [roll]. *)
Definition resolveMove (room : GameRoom) (cp : Player) (i : nat)
    (piece : GamePiece) (roll : Z) : GameRoom * option GamePiece :=
  let g := gameState room in
  let moved := executeMove piece roll in
  let '(ps, captured) := checkCapture moved (<[i := moved]> (pieces g)) in
  let ps' := <[i := checkFinish moved]> ps in
  let g1 := checkWinner cp (set_pieces g ps') in
  (set_gameState room (nextTurn room g1 roll captured), captured).

Definition movePiece (m : GameManager) (playerId pieceId : string)
    : GameManager * Outcome (GameRoom * option GamePiece) :=
  match findRoom m playerId with
  | None => (m, Null)
  | Some (roomCode, room) =>
      if negb (started (gameState room)) then (m, Null)
      else
        match currentPlayer room with
        | None => (m, Throw TypeError)
        | Some cp =>
            if negb (bool_decide (pl_id cp = playerId)) then (m, Throw NotYourTurn)
            else
              match pendingRoll (gameState room) with
              | None => (m, Throw MustRollFirst)
              | Some roll =>
                  match list_find (λ p, pc_id p = pieceId)
                                  (pieces (gameState room)) with
                  | None => (m, Throw InvalidPiece)
                  | Some (i, piece) =>
                      if negb (bool_decide (Some (pc_color piece) = pl_color cp))
                      then (m, Throw InvalidPiece)
                      else if negb (canMovePiece piece roll room)
                      then (m, Throw InvalidMove)
                      else
                        let '(room', captured) :=
                          resolveMove room cp i piece roll in
                        (store_room m roomCode room', Ok (room', captured))
                  end
              end
        end
  end.

(** ** Protocol router: the effect of one inbound message on the manager

    [handleMessage] of [server/websocket.ts] dispatches on the message tag;
    a closed connection is handled as [leave].  Only the effect on the
    manager is modelled; the random inputs of a call travel with the
    message. *)
Inductive WSMessage :=
| msg_create (playerName : string) (mode : GameMode) (draws : list string) (now : Z)
| msg_join (roomCode playerName : string)
| msg_choose_color (c : PlayerColor)
| msg_ready
| msg_start_game
| msg_roll_dice (u : float)
| msg_move_piece (pieceId : string)
| msg_leave.

Definition handleMessage (m : GameManager) (clientId : string)
    (msg : WSMessage) : GameManager :=
  match msg with
  | msg_create playerName mode draws now =>
      match createRoom m draws now clientId playerName mode with
      | Some (m', _) => m'
      | None => m
      end
  | msg_join roomCode playerName => fst (joinRoom m roomCode clientId playerName)
  | msg_choose_color c => fst (chooseColor m clientId c)
  | msg_ready => fst (setReady m clientId)
  | msg_start_game => fst (startGame m clientId)
  | msg_roll_dice u => fst (rollDice m clientId u)
  | msg_move_piece pieceId => fst (movePiece m clientId pieceId)
  | msg_leave => fst (leaveRoom m clientId)
  end.

(** The manager after a sequence of messages, each tagged with the
    connection it arrived on. *)
Definition run (m : GameManager) (msgs : list (string * WSMessage)) : GameManager :=
  foldl (λ m' cm, handleMessage m' cm.1 cm.2) m msgs.

Definition reachable (m : GameManager) : Prop :=
  ∃ msgs, m = run emptyManager msgs.

(** ** The transitions of one room

    What the operations of the manager do to a single room once their
    guards have passed; [manager_step] below relates them to
    [handleMessage]. *)
Inductive room_step (r : GameRoom) : GameRoom → Prop :=
| step_join playerId playerName :
    (length (players r) < maxPlayers (gameMode r))%nat →
    started (gameState r) = false →
    room_step r (set_players r
                   (players r ++ [mkPlayer playerId playerName None false]))
| step_chooseColor playerId c :
    c ∈ getAvailableColors r →
    color_taken (players r) playerId c = false →
    room_step r (set_players r
                   (update_player (players r) playerId
                      (λ p, set_pl_color p (Some c))))
| step_setReady playerId :
    room_step r (set_players r (update_player (players r) playerId markReady))
| step_startGame :
    canStartGame r = true →
    room_step r (set_gameState r (startState r))
| step_rollDice cp u :
    started (gameState r) = true →
    currentPlayer r = Some cp →
    waitingForMove (gameState r) = false →
    room_step r (set_gameState r (rollState r cp (rollWeightedDice r cp u)))
| step_movePiece cp roll i piece :
    started (gameState r) = true →
    currentPlayer r = Some cp →
    pendingRoll (gameState r) = Some roll →
    list_find (λ p, pc_id p = pc_id piece) (pieces (gameState r))
      = Some (i, piece) →
    Some (pc_color piece) = pl_color cp →
    canMovePiece piece roll r = true →
    room_step r (resolveMove r cp i piece roll).1
| step_leaveRoom playerId :
    room_step r (set_players r
                   (filter (λ p, pl_id p ≠ playerId) (players r))).

(** ** Statements of the bias rule, written from the specification *)

(** The even share of the weight removed from the face of the previous
    roll: [(original − 2) / 5]. *)
Definition evenShare (prev : Z) : option Q :=
  (λ original, ((original - 2) / 5)%Q) <$> weight_at baseWeights (prev - 1).

(** The repeat-avoidance rule in the words of the specification: the weight
    at index [prev − 1] is 2, face 6 has received 1.5 times the even share
    and each of the remaining four faces 0.875 times the even share. *)
Definition redistributedAsStated (prev : Z) (w : list Q) : Prop :=
  ∃ share : Q,
    evenShare prev = Some share
    ∧ (∃ wp, weight_at w (prev - 1) = Some wp ∧ Qeq wp 2)
    ∧ (∃ w6, w !! 5%nat = Some w6 ∧ Qeq w6 (25 + share * (3 # 2)))
    ∧ ∀ i : nat, (i < 5)%nat → Z.of_nat i ≠ prev - 1 →
        ∃ wi, w !! i = Some wi ∧ Qeq wi (15 + share * (7 # 8)).

(** ** Invariants of the game state *)

(** The position domain: base, track and home stretch, finished. *)
Definition validPosition (z : Z) : Prop := z = -1 ∨ 0 ≤ z ≤ 56 ∨ z = 99.

Definition validRoll (d : option Z) : Prop := ∀ r, d = Some r → 1 ≤ r ≤ 6.

(** A piece carries the identity [startGame] gave it: [<color>-<index>]. *)
Definition startId (p : GamePiece) : Prop :=
  ∃ k : nat, pc_id p = pc_id (newPiece (pc_color p) k).

Record game_inv (r : GameRoom) : Prop := mkGameInv {
  inv_positions : Forall (λ p, validPosition (position p)) (pieces (gameState r));
  inv_ids : Forall startId (pieces (gameState r));
  inv_dice : validRoll (diceValue (gameState r));
  inv_lastDice : validRoll (lastDiceValue (gameState r))
}.

(** The position rule in the words of the specification: the position of
    the piece [p] after a successful move of the piece [pieceId] by [roll]
    in which [captured] was captured.  A base piece moves to 0, a track
    move adds the roll, a resulting position of exactly 57 is normalised to
    99, the captured piece returns to -1, and every other piece stays. *)
Definition positionAfterMove (pieceId : string) (roll : Z)
    (captured : option GamePiece) (p : GamePiece) : Z :=
  if bool_decide (pc_id p = pieceId) then
    if bool_decide (position p = -1) then 0
    else if bool_decide (position p + roll = 57) then 99
    else position p + roll
  else if bool_decide (pc_id <$> captured = Some (pc_id p)) then -1
  else position p.

(** An opposing piece standing on the absolute cell of [moved]: a piece of
    another colour, on the main track, with the same absolute cell. *)
Definition otherColorOnCell (moved q : GamePiece) : Prop :=
  pc_color q ≠ pc_color moved
  ∧ 0 ≤ position q ≤ 50
  ∧ getAbsoluteTrackPosition q = getAbsoluteTrackPosition moved.

#[global] Instance otherColorOnCell_dec moved q : Decision (otherColorOnCell moved q).
Proof. unfold otherColorOnCell. apply _. Defined.

(** The landing cell admits a capture: on the main track and not safe. *)
Definition captureCell (moved : GamePiece) : Prop :=
  0 ≤ position moved ≤ 50
  ∧ getAbsoluteTrackPosition moved ∉ SAFE_SPOT_POSITIONS.

#[global] Instance captureCell_dec moved : Decision (captureCell moved).
Proof. unfold captureCell. apply _. Defined.

(** [currentTurnIndex] indexes a player of the room. *)
Definition turn_index_ok (r : GameRoom) : Prop :=
  (currentTurnIndex (gameState r) < length (players r))%nat.

(** ** Message sequences used as examples *)

(** A two-player room with red and yellow claimed and both players ready. *)
Definition lobbyReady : list (string * WSMessage) :=
  [("a", msg_create "Ann" two_player ["ABC123"] 0);
   ("b", msg_join "ABC123" "Bob");
   ("a", msg_choose_color red);
   ("b", msg_choose_color yellow);
   ("a", msg_ready);
   ("b", msg_ready)]%string.

(** Scenario A: that room, started by its host. *)
Definition scenarioA : list (string * WSMessage) :=
  lobbyReady ++ [("a", msg_start_game)]%string.

(** A started game of two players, red and green, in a four-player room. *)
Definition fourPlayerGame : list (string * WSMessage) :=
  [("a", msg_create "Ann" four_player ["ABC123"] 0);
   ("b", msg_join "ABC123" "Bob");
   ("a", msg_choose_color red);
   ("b", msg_choose_color green);
   ("a", msg_ready);
   ("b", msg_ready);
   ("a", msg_start_game)]%string.

(** After scenario A, red rolls a 1 with all pieces in base (the turn
    passes to yellow), then yellow disconnects. *)
Definition activePlayerLeaves : list (string * WSMessage) :=
  scenarioA ++ [("a", msg_roll_dice 0%float); ("b", msg_leave)]%string.

(** After scenario A, red rolls a 6 and brings [red-0] out of base. *)
Definition redLeavesBase : list (string * WSMessage) :=
  scenarioA ++ [("a", msg_roll_dice 0.9375%float); ("a", msg_move_piece "red-0")]%string.

(** Then red, still active after the 6, rolls a 1. *)
Definition redRolledOne : list (string * WSMessage) :=
  redLeavesBase ++ [("a", msg_roll_dice 0%float)]%string.

(** ** The legality check of the client ([pages/MultiplayerGame.tsx])

    [canMovePiece] of the game page, for the participant [playerId] looking
    at the snapshot [room]; [None] when the page reads [id] of an undefined
    current player. *)
Definition client_canMovePiece (room : GameRoom) (playerId : string)
    (piece : GamePiece) : option bool :=
  match currentPlayer room with
  | None => None
  | Some cp =>
      let myPlayer := snd <$> list_find (λ p, pl_id p = playerId) (players room) in
      let isMyTurn := bool_decide (pl_id cp = playerId) in
      Some
        (if negb isMyTurn || negb (waitingForMove (gameState room)) then false
         else if negb (bool_decide (Some (pc_color piece)
                                    = myPlayer ≫= pl_color)) then false
         else
           let roll := default 0 (diceValue (gameState room)) in
           if bool_decide (position piece = -1) then bool_decide (roll = 6)
           else if bool_decide (position piece + roll > 57) then false
           else true)
  end.

(** ** Invariant of the player list

    For a player [p] listed before a player [q]: if both carry the same
    participant id, [q] has no colour (only the first entry of an id is ever
    found by [players.find]); and [p] and [q] do not hold the same colour. *)
Definition claim_order (p q : Player) : Prop :=
  (pl_id p = pl_id q → pl_color q = None)
  ∧ (∀ c, pl_color p = Some c → pl_color q ≠ Some c).

Definition players_inv (r : GameRoom) : Prop :=
  StronglySorted claim_order (players r).

(** The colours claimed in a room, and the pieces of one colour. *)
Definition holders (c : PlayerColor) (ps : list Player) : list Player :=
  filter (λ p, pl_color p = Some c) ps.

Definition piecesOfColor (c : PlayerColor) (ps : list GamePiece) : list GamePiece :=
  filter (λ p, pc_color p = c) ps.

(** Red and yellow each bring a piece out and yellow advances to its cell 1
    (absolute cell 27); red then rolls 6, 6, 6, 6 and 2 and moves [red-0]
    from 1 to 25.  The last roll, a 2, is pending: [red-0] can land on
    absolute cell 27. *)
Definition redReachesYellow : list (string * WSMessage) :=
  redRolledOne
  ++ [("a", msg_move_piece "red-0");
      ("b", msg_roll_dice 0.9375%float); ("b", msg_move_piece "yellow-0");
      ("b", msg_roll_dice 0%float); ("b", msg_move_piece "yellow-0");
      ("a", msg_roll_dice 0.9375%float); ("a", msg_move_piece "red-0");
      ("a", msg_roll_dice 0.9375%float); ("a", msg_move_piece "red-0");
      ("a", msg_roll_dice 0.9375%float); ("a", msg_move_piece "red-0");
      ("a", msg_roll_dice 0.9375%float); ("a", msg_move_piece "red-0");
      ("a", msg_roll_dice 0.25%float)]%string.

(** The first five messages of that continuation: yellow has rolled a 1 as
    its second roll and moved, so the turn is back with red, whose piece
    [red-0] is on the track, with 1 as the previous player's final roll. *)
Definition yellowPassesTurn : list (string * WSMessage) :=
  redRolledOne
  ++ [("a", msg_move_piece "red-0");
      ("b", msg_roll_dice 0.9375%float); ("b", msg_move_piece "yellow-0");
      ("b", msg_roll_dice 0%float); ("b", msg_move_piece "yellow-0")]%string.

(** Red leaves base with a 6, yellow leaves the room, and red, now the
    only player, rolls a 1: the move of [red-0] from 0 to 1 is owed. *)
Definition soloRun : list (string * WSMessage) :=
  scenarioA
  ++ [("a", msg_roll_dice 0.9375%float); ("a", msg_move_piece "red-0");
      ("b", msg_leave); ("a", msg_roll_dice 0%float)]%string.

(** A started two-player game given directly: red (participant [a]) is
    active, the pieces are [ps], [roll] is the pending roll if any and [w]
    the recorded winner. *)
Definition testPlayers : list Player :=
  [mkPlayer "a" "Ann" (Some red) true; mkPlayer "b" "Bob" (Some yellow) true]%string.

Definition testRoom (ps : list GamePiece) (roll : option Z)
    (w : option PlayerColor) : GameRoom :=
  mkRoom "ABC123" testPlayers two_player
    (mkState ps 0%nat roll None false
       (match roll with Some _ => true | None => false end) w true) 0.

Definition testManager (r : GameRoom) : GameManager :=
  mkManager (<["ABC123"%string := r]> ∅)
            (<["a"%string := "ABC123"%string]> (<["b"%string := "ABC123"%string]> ∅)).

Definition piecesAt (red0 red1 red2 red3 yellow0 : Z) : list GamePiece :=
  [mkPiece "red-0" red red0 true; mkPiece "red-1" red red1 true;
   mkPiece "red-2" red red2 true; mkPiece "red-3" red red3 true;
   mkPiece "yellow-0" yellow yellow0 false;
   mkPiece "yellow-1" yellow (-1) true; mkPiece "yellow-2" yellow (-1) true;
   mkPiece "yellow-3" yellow (-1) true]%string.

(** ** The effect of each message on the room it concerns

    [msg_effect clientId msg r r']: the message [msg] received from
    [clientId] passed the guards of its operation on the room [r] and left
    [r'] in the registry. *)
Definition msg_effect (clientId : string) (msg : WSMessage)
    (r r' : GameRoom) : Prop :=
  match msg with
  | msg_create _ _ _ _ => False
  | msg_join _ playerName =>
      (length (players r) < maxPlayers (gameMode r))%nat
      ∧ started (gameState r) = false
      ∧ r' = set_players r
               (players r ++ [mkPlayer clientId playerName None false])
  | msg_choose_color c =>
      c ∈ getAvailableColors r
      ∧ color_taken (players r) clientId c = false
      ∧ r' = set_players r
               (update_player (players r) clientId (λ p, set_pl_color p (Some c)))
  | msg_ready =>
      r' = set_players r (update_player (players r) clientId markReady)
  | msg_start_game =>
      canStartGame r = true ∧ r' = set_gameState r (startState r)
  | msg_roll_dice u =>
      ∃ cp, started (gameState r) = true
        ∧ currentPlayer r = Some cp
        ∧ pl_id cp = clientId
        ∧ waitingForMove (gameState r) = false
        ∧ r' = set_gameState r (rollState r cp (rollWeightedDice r cp u))
  | msg_move_piece pieceId =>
      ∃ cp roll i piece,
        started (gameState r) = true
        ∧ currentPlayer r = Some cp
        ∧ pl_id cp = clientId
        ∧ pendingRoll (gameState r) = Some roll
        ∧ list_find (λ p, pc_id p = pieceId) (pieces (gameState r))
            = Some (i, piece)
        ∧ Some (pc_color piece) = pl_color cp
        ∧ canMovePiece piece roll r = true
        ∧ r' = (resolveMove r cp i piece roll).1
  | msg_leave =>
      r' = set_players r (filter (λ p, pl_id p ≠ clientId) (players r))
      ∧ players r' ≠ []
  end.

(** ** Invariants of the registry *)

(** A room is stored under its own code, is not empty and not over
    capacity. *)
Definition room_wf (c : string) (r : GameRoom) : Prop :=
  code r = c
  ∧ players r ≠ []
  ∧ (length (players r) ≤ maxPlayers (gameMode r))%nat.

(** A participant recorded in [playerToRoom] is listed in the room the
    record names. *)
Definition membership_inv (m : GameManager) : Prop :=
  ∀ playerId c, playerToRoom m !! playerId = Some c →
    ∃ r, rooms m !! c = Some r ∧ playerId ∈ pl_id <$> players r.

(** Lobby and game: a ready player holds a colour; a room that has not
    started is in its initial game state; in a started room every player
    holds a colour; a move is owed exactly when a roll is recorded. *)
Record lobby_inv (r : GameRoom) : Prop := mkLobbyInv {
  inv_ready : Forall (λ p, ready p = true → pl_color p ≠ None) (players r);
  inv_not_started :
    started (gameState r) = false → gameState r = initialGameState;
  inv_started_colors :
    started (gameState r) = true →
    Forall (λ p, pl_color p ≠ None) (players r);
  inv_owed :
    waitingForMove (gameState r) = true ↔ diceValue (gameState r) ≠ None
}.

(** The pieces: the safe flag agrees with the safe-spot test, identities
    are distinct, and a recorded winner has pieces, all of them finished. *)
Record pieces_inv (r : GameRoom) : Prop := mkPiecesInv {
  inv_safe : Forall (λ p, isSafe p = isPieceOnSafeSpot p) (pieces (gameState r));
  inv_nodup : NoDup (pc_id <$> pieces (gameState r));
  inv_winner :
    ∀ c, winner (gameState r) = Some c →
      (∃ p, p ∈ pieces (gameState r) ∧ pc_color p = c)
      ∧ ∀ p, p ∈ pieces (gameState r) → pc_color p = c → position p = 99
}.

(** The identities and colours of the pieces, in list order. *)
Definition roster (r : GameRoom) : list (string * PlayerColor) :=
  (λ p, (pc_id p, pc_color p)) <$> pieces (gameState r).

(** A run that has red roll a 6 and stop with the move owed. *)
Definition redOwesMove : list (string * WSMessage) :=
  scenarioA ++ [("a", msg_roll_dice 0.9375%float)]%string.

(** Red brings the piece [pieceId] out of base with a 6, advances it by nine
    more sixes to 54 and finishes it with a 3. *)
Definition finishPiece (pieceId : string) : list (string * WSMessage) :=
  concat (replicate 10 [("a"%string, msg_roll_dice 0.9375%float);
                        ("a"%string, msg_move_piece pieceId)])
  ++ [("a"%string, msg_roll_dice 0.375%float); ("a"%string, msg_move_piece pieceId)].

(** A whole game: red finishes its four pieces one after the other; between
    them yellow, all in base, rolls a 1 and has to pass. *)
Definition redWins : list (string * WSMessage) :=
  scenarioA
  ++ finishPiece "red-0" ++ [("b", msg_roll_dice 0%float)]%string
  ++ finishPiece "red-1" ++ [("b", msg_roll_dice 0%float)]%string
  ++ finishPiece "red-2" ++ [("b", msg_roll_dice 0%float)]%string
  ++ finishPiece "red-3".

(** A run is free of departures when no message is [leave] (and no
    connection closes). *)
Definition leaveFree (msgs : list (string * WSMessage)) : Prop :=
  Forall (λ cm, cm.2 ≠ msg_leave) msgs.

(** In a started four-player room red rolls a 6, so that a move is owed,
    and then changes its colour to blue, a colour without pieces. *)
Definition redTurnsBlue : list (string * WSMessage) :=
  fourPlayerGame
  ++ [("a", msg_roll_dice 0.9375%float); ("a", msg_choose_color blue)]%string.

(** ** Protocol router: what goes out ([server/websocket.ts])

    The responses of [shared/schema.ts] and the functions [send],
    [sendError], [broadcastToRoom] and [handleMessage] of the router, with
    the manager and the table [clients] passed explicitly.  A socket is
    identified by the id of its connection and reduced to whether it is open
    ([readyState === WebSocket.OPEN]); what a function sends is the list of
    its deliveries, in order, each with the connection it goes to.  The
    room of a payload is the room as it is when the message is
    serialised. *)
Module Router.

Inductive WSResponse :=
| room_joined (room : GameRoom) (playerId : string)
| room_created (room : GameRoom) (playerId : string)
| room_updated (room : GameRoom)
| game_started (room : GameRoom)
| piece_captured (capturedPiece : GamePiece) (room : GameRoom)
| error (message : string).

Definition Delivery : Type := string * WSResponse.

(** [send(ws, message)], [ws] being the socket of connection [target]. *)
Definition send (target : string) (isOpen : bool) (message : WSResponse)
    : list Delivery :=
  if isOpen then [(target, message)] else [].

Definition sendError (target : string) (isOpen : bool) (message : string)
    : list Delivery :=
  send target isOpen (error message).

Definition broadcastToRoom (m : GameManager) (clients : gmap string bool)
    (roomCode : string) (message : WSResponse)
    (excludeClientId : option string) : list Delivery :=
  match getRoomByCode m roomCode with
  | None => []
  | Some room =>
      flat_map
        (λ player,
           if bool_decide (Some (pl_id player) ≠ excludeClientId) then
             match clients !! pl_id player with
             | Some client => send (pl_id player) client message
             | None => []
             end
           else [])
        (players room)
  end.

(** The [try]/[catch] around the dispatch: a thrown error is answered to
    the sender with its message; [onOk] and [onNull] are the branches of
    the test of the result. *)
Definition guarded {A} (clientId : string) (ws : bool)
    (result : GameManager * Outcome A)
    (onOk : GameManager → A → list Delivery) (onNull : list Delivery)
    : GameManager * list Delivery :=
  match result with
  | (m', Ok a) => (m', onOk m' a)
  | (m', Null) => (m', onNull)
  | (m', Throw e) => (m', sendError clientId ws (error_message e))
  end.

(** [handleMessage(clientId, message, ws)]: the manager after the message
    and the deliveries made. *)
Definition handleMessage (m : GameManager) (clients : gmap string bool)
    (clientId : string) (ws : bool) (message : WSMessage)
    : GameManager * list Delivery :=
  match message with
  | msg_create playerName mode draws now =>
      match createRoom m draws now clientId playerName mode with
      | Some (m', room) => (m', send clientId ws (room_created room clientId))
      | None => (m, [])
      end
  | msg_join roomCode playerName =>
      guarded clientId ws (joinRoom m roomCode clientId playerName)
        (λ m' room,
           send clientId ws (room_joined room clientId)
           ++ broadcastToRoom m' clients (code room) (room_updated room)
                (Some clientId))
        (sendError clientId ws "Room not found")
  | msg_choose_color c =>
      guarded clientId ws (chooseColor m clientId c)
        (λ m' room,
           broadcastToRoom m' clients (code room) (room_updated room) None)
        []
  | msg_ready =>
      guarded clientId ws (setReady m clientId)
        (λ m' room,
           broadcastToRoom m' clients (code room) (room_updated room) None)
        []
  | msg_start_game =>
      guarded clientId ws (startGame m clientId)
        (λ m' room,
           broadcastToRoom m' clients (code room) (game_started room) None)
        []
  | msg_roll_dice u =>
      guarded clientId ws (rollDice m clientId u)
        (λ m' result,
           broadcastToRoom m' clients (code result.1) (room_updated result.1)
             None)
        []
  | msg_move_piece pieceId =>
      guarded clientId ws (movePiece m clientId pieceId)
        (λ m' result,
           broadcastToRoom m' clients (code result.1) (room_updated result.1)
             None
           ++ match result.2 with
              | Some captured =>
                  broadcastToRoom m' clients (code result.1)
                    (piece_captured captured result.1) None
              | None => []
              end)
        []
  | msg_leave =>
      match leaveRoom m clientId with
      | (m', Some roomCode) =>
          (m', match getRoomByCode m' roomCode with
               | Some room =>
                   broadcastToRoom m' clients roomCode (room_updated room) None
               | None => []
               end)
      | (m', None) => (m', [])
      end
  end.

(** The handler of [close]: the participant leaves, the room that is left
    is told, and the connection is forgotten. *)
Definition onClose (m : GameManager) (clients : gmap string bool)
    (clientId : string) : GameManager * gmap string bool * list Delivery :=
  let '(m', departed) := leaveRoom m clientId in
  (m', delete clientId clients,
   match departed with
   | Some roomCode =>
       match getRoomByCode m' roomCode with
       | Some room =>
           broadcastToRoom m' clients roomCode (room_updated room) None
       | None => []
       end
   | None => []
   end).

End Router.

(** The connections [a], [b] and [c], all with an open socket. *)
Definition openClients : gmap string bool :=
  <["a"%string := true]> (<["b"%string := true]> (<["c"%string := true]> ∅)).

(** * Properties *)

(** ** The weighted die

    The lemmas of this section are about the computation over exact
    rationals, except where doubles are named. *)

Section Weights.





Lemma length_normalizeWeights (ws : list Q) :
  length (normalizeWeights ws) = length ws.
Proof. unfold normalizeWeights. by rewrite length_map. Qed.


(** Whatever the draw, the loop returns the initial [roll] or a face
    between [i + 1] and [i + length ws]. *)
Lemma sampleLoop_cases (ws : list Q) : ∀ (i : Z) (random : Q) (roll : Z),
  sampleLoop ws i random roll = roll
  ∨ i + 1 ≤ sampleLoop ws i random roll ≤ i + Z.of_nat (length ws).
Proof.
  induction ws as [|w ws IH]; intros i random roll; simpl; [by left|].
  destruct (Qle_bool (random - w) 0).
  - right. lia.
  - destruct (IH (i + 1) (random - w)%Q roll) as [->|H]; [by left|right; lia].
Qed.

Lemma length_addShare share ws i : length (addShare share ws i) = length ws.
Proof.
  unfold addShare. destruct (ws !! i); [|done].
  case_bool_decide; by rewrite length_insert.
Qed.

Lemma length_biasWeights b last first :
  length (biasWeights b last first) = 6%nat.
Proof.
  unfold biasWeights. destruct b; [done|].
  destruct last as [lr|]; [|done]. destruct first; [|done].
  destruct (weight_at baseWeights (lr - 1)); [|done].
  destruct (Qlt_le_dec _ _); [|done].
  generalize (filter (λ i : nat, Z.of_nat i ≠ lr - 1) (seq 0 6)).
  intros l.
  assert (∀ ws, length (foldl (addShare ((q - 2) /
            inject_Z (Z.of_nat (length l)))) ws l) = length ws) as H.
  { generalize ((q - 2) / inject_Z (Z.of_nat (length l)))%Q. intros s.
    induction l as [|x l IH]; intros ws; simpl; [done|].
    by rewrite IH, length_addShare. }
  by rewrite H, length_insert.
Qed.

(** Over the rationals the loop always ends with a face in 1..6. *)
Lemma sampleRoll_range (b : bool) (last : option Z) (first : bool) (random : Q) :
  1 ≤ sampleRoll (normalizeWeights (biasWeights b last first)) random ≤ 6.
Proof.
  unfold sampleRoll.
  destruct (sampleLoop_cases (normalizeWeights (biasWeights b last first))
              0 random 1) as [->|H]; [lia|].
  rewrite length_normalizeWeights, length_biasWeights in H. lia.
Qed.

(** The binary64 loop has the same two exits, whatever the doubles are. *)
Lemma double_sampleLoop_cases (ws : list float) :
  ∀ (i : Z) (random : float) (roll : Z),
  Double.sampleLoop ws i random roll = roll
  ∨ i + 1 ≤ Double.sampleLoop ws i random roll ≤ i + Z.of_nat (length ws).
Proof.
  induction ws as [|w ws IH]; intros i random roll; simpl; [by left|].
  destruct (PrimFloat.leb (random - w) 0).
  - right. lia.
  - destruct (IH (i + 1) (random - w)%float roll) as [->|H];
      [by left|right; lia].
Qed.

Lemma double_length_addShare share ws i :
  length (Double.addShare share ws i) = length ws.
Proof.
  unfold Double.addShare. destruct (ws !! i); [|done].
  case_bool_decide; by rewrite length_insert.
Qed.

Lemma double_length_biasWeights b last first :
  length (Double.biasWeights b last first) = 6%nat.
Proof.
  unfold Double.biasWeights. destruct b; [done|].
  destruct last as [lr|]; [|done]. destruct first; [|done].
  destruct (Double.weight_at Double.baseWeights (lr - 1)) as [w|]; [|done].
  destruct (PrimFloat.ltb _ _); [|done].
  generalize (filter (λ i : nat, Z.of_nat i ≠ lr - 1) (seq 0 6)).
  intros l.
  generalize ((w - 2) / Double.of_nat (length l))%float. intros s.
  assert (∀ ws, length (foldl (Double.addShare s) ws l) = length ws) as H.
  { induction l as [|x l IH]; intros ws; simpl; [done|].
    by rewrite IH, double_length_addShare. }
  by rewrite H, length_insert.
Qed.

(** The die always shows a face: for every state and every double drawn
    (NaN and the infinities included) the result is in 1..6. *)
Lemma rollWeightedDice_range room pl u : 1 ≤ rollWeightedDice room pl u ≤ 6.
Proof.
  unfold rollWeightedDice, Double.sampleRoll. cbv zeta.
  set (ws := Double.normalizeWeights _).
  assert (length ws = 6%nat) as Hlen.
  { unfold ws, Double.normalizeWeights.
    by rewrite length_map, double_length_biasWeights. }
  destruct (double_sampleLoop_cases ws 0 (u * 100)%float 1) as [Heq|H].
  - rewrite Heq. lia.
  - rewrite Hlen in H. lia.
Qed.

End Weights.

Lemma roll_cases (lr : Z) :
  1 ≤ lr ≤ 6 → lr = 1 ∨ lr = 2 ∨ lr = 3 ∨ lr = 4 ∨ lr = 5 ∨ lr = 6.
Proof. lia. Qed.

Ltac each_roll H :=
  apply roll_cases in H;
  destruct H as [->|[->|[->|[->|[->| ->]]]]].

Lemma redistributedAsStated_biasWeights (lr : Z) :
  1 ≤ lr ≤ 5 → redistributedAsStated lr (biasWeights false (Some lr) true).
Proof.
  intros H. assert (1 ≤ lr ≤ 6) as H6 by lia.
  each_roll H6; try lia;
    (eexists; split; [reflexivity|];
     split; [eexists; split; [reflexivity|]; vm_compute; reflexivity|];
     split; [eexists; split; [reflexivity|]; vm_compute; reflexivity|];
     intros i Hi Hne;
     do 5 (destruct i as [|i];
           [first [ by exfalso
                  | eexists; split; [reflexivity|]; vm_compute; reflexivity ]|]);
     lia).
Qed.

Lemma allPiecesInBase_true room pl :
  allPiecesInBase room pl = true ↔
  ∀ p, p ∈ pieces (gameState room) → Some (pc_color p) = pl_color pl →
       position p = -1.
Proof.
  unfold allPiecesInBase, piecesOf. rewrite forallb_forall. split.
  - intros H p Hp Hc.
    assert (bool_decide (position p = -1) = true) as Hb.
    { apply H. by apply list_elem_of_In, list_elem_of_filter. }
    by apply bool_decide_eq_true in Hb.
  - intros H p Hp. apply list_elem_of_In, list_elem_of_filter in Hp as [Hc Hp].
    apply bool_decide_eq_true. by apply H.
Qed.

(** The same rule in the doubles of the program: the face of the previous
    roll is 2 and the others have received 0.875 times, face 6 1.5 times,
    the even share [(15 - 2) / 5], all operations being those of binary64. *)
Lemma double_biasWeights_redistributed (lr : Z) :
  1 ≤ lr ≤ 5 →
  Double.biasWeights false (Some lr) true
  = <[Z.to_nat (lr - 1) := 2%float]>
      (let share := ((15 - 2) / 5)%float in
       [15 + share * 0.875; 15 + share * 0.875; 15 + share * 0.875;
        15 + share * 0.875; 15 + share * 0.875; 25 + share * 1.5]%float).
Proof.
  intros H. assert (1 ≤ lr ≤ 6) as H6 by lia.
  each_roll H6; try lia; vm_compute; reflexivity.
Qed.

(** The vector for a previous roll of 6, face by face. *)
Lemma biasWeights_previous_six :
  Forall2 Qeq (biasWeights false (Some 6) true)
    [(15 + 23 / 5 * (7 # 8)); (15 + 23 / 5 * (7 # 8)); (15 + 23 / 5 * (7 # 8));
     (15 + 23 / 5 * (7 # 8)); (15 + 23 / 5 * (7 # 8)); 2]%Q.
Proof. repeat constructor; vm_compute; reflexivity. Qed.

(** Before normalisation the vector of that branch sums to 97.125. *)
Lemma biasWeights_previous_six_total :
  Qeq (totalWeight (biasWeights false (Some 6) true)) (97125 # 1000).
Proof. vm_compute. reflexivity. Qed.





(** ** The operations as transitions of a room *)

Lemma findRoom_Some m playerId roomCode room :
  findRoom m playerId = Some (roomCode, room) →
  playerToRoom m !! playerId = Some roomCode ∧ rooms m !! roomCode = Some room.
Proof.
  unfold findRoom. intros H.
  destruct (playerToRoom m !! playerId) as [c|] eqn:Hp; [|done].
  destruct (rooms m !! c) as [r|] eqn:Hr; [|done].
  by simplify_eq.
Qed.

Lemma generateRoomCode_fresh m draws c :
  generateRoomCode m draws = Some c → rooms m !! c = None.
Proof.
  induction draws as [|d draws IH]; simpl; [done|].
  destruct (rooms m !! d) eqn:Hd; [done|]. by intros [= <-].
Qed.

(** Inversion of a successful [rollDice]. *)
Lemma rollDice_Ok m playerId u m' room' roll :
  rollDice m playerId u = (m', Ok (room', roll)) →
  ∃ roomCode room cp,
    findRoom m playerId = Some (roomCode, room)
    ∧ started (gameState room) = true
    ∧ currentPlayer room = Some cp
    ∧ pl_id cp = playerId
    ∧ waitingForMove (gameState room) = false
    ∧ roll = rollWeightedDice room cp u
    ∧ room' = set_gameState room (rollState room cp roll)
    ∧ m' = store_room m roomCode room'.
Proof.
  unfold rollDice. intros H.
  destruct (findRoom m playerId) as [[roomCode room]|] eqn:Hf; [|done].
  destruct (started (gameState room)) eqn:Hs; [|done].
  destruct (currentPlayer room) as [cp|] eqn:Hcp; [|done].
  simpl in H. case_bool_decide as Hid; [|done].
  destruct (waitingForMove (gameState room)) eqn:Hw; [done|].
  simpl in H. simplify_eq. by exists roomCode, room, cp.
Qed.

(** Inversion of a successful [movePiece]. *)
Lemma movePiece_Ok m playerId pieceId m' room' captured :
  movePiece m playerId pieceId = (m', Ok (room', captured)) →
  ∃ roomCode room cp roll i piece,
    findRoom m playerId = Some (roomCode, room)
    ∧ started (gameState room) = true
    ∧ currentPlayer room = Some cp
    ∧ pl_id cp = playerId
    ∧ pendingRoll (gameState room) = Some roll
    ∧ list_find (λ p, pc_id p = pieceId) (pieces (gameState room))
        = Some (i, piece)
    ∧ Some (pc_color piece) = pl_color cp
    ∧ canMovePiece piece roll room = true
    ∧ resolveMove room cp i piece roll = (room', captured)
    ∧ m' = store_room m roomCode room'.
Proof.
  unfold movePiece. intros H.
  destruct (findRoom m playerId) as [[roomCode room]|] eqn:Hf; [|done].
  destruct (started (gameState room)) eqn:Hs; [|done].
  destruct (currentPlayer room) as [cp|] eqn:Hcp; [|done].
  simpl in H. case_bool_decide as Hid; [|done]. simpl in H.
  destruct (pendingRoll (gameState room)) as [roll|] eqn:Hroll; [|done].
  destruct (list_find _ _) as [[i piece]|] eqn:Hfind; [|done].
  case_bool_decide as Hcol; [|done]. simpl in H.
  destruct (canMovePiece piece roll room) eqn:Hcan; [|done]. simpl in H.
  destruct (resolveMove room cp i piece roll) as [room1 cap] eqn:Hres.
  simplify_eq. by exists roomCode, room, cp, roll, i, piece.
Qed.

(** Every room of the manager after a message is a room it had before, the
    result of one [room_step] on the room it had under that code, or a room
    just created under a code that was free. *)
Lemma manager_step m clientId msg c r' :
  rooms (handleMessage m clientId msg) !! c = Some r' →
  rooms m !! c = Some r'
  ∨ (∃ r, rooms m !! c = Some r ∧ room_step r r')
  ∨ (rooms m !! c = None
     ∧ ∃ playerId playerName mode now, r' = newRoom c playerId playerName mode now).
Proof.
  destruct msg as [playerName mode draws now|roomCode playerName|col| | |u|pieceId|];
    simpl.
  - unfold createRoom.
    destruct (generateRoomCode m draws) as [c0|] eqn:Hg; simpl; [|by left].
    rewrite lookup_insert. case_decide as Hc; [|by left].
    intros [= <-]. subst c0. right; right.
    split; [by eapply generateRoomCode_fresh|]. by eexists _, _, _, _.
  - unfold joinRoom.
    destruct (rooms m !! roomCode) as [room|] eqn:Hr; simpl; [|by left].
    case_bool_decide as Hfull; simpl; [by left|].
    destruct (started (gameState room)) eqn:Hs; simpl; [by left|].
    rewrite lookup_insert. case_decide as Hc; [|by left].
    intros [= <-]. subst c. right; left. exists room. split; [done|].
    apply step_join; [lia|done].
  - unfold chooseColor.
    destruct (findRoom m clientId) as [[roomCode room]|] eqn:Hf; simpl; [|by left].
    apply findRoom_Some in Hf as [_ Hr].
    case_bool_decide as Hav; simpl; [|by left].
    destruct (color_taken (players room) clientId col) eqn:Ht; simpl; [by left|].
    rewrite lookup_insert. case_decide as Hc; [|by left].
    intros [= <-]. subst c. right; left. exists room. split; [done|].
    by apply step_chooseColor.
  - unfold setReady.
    destruct (findRoom m clientId) as [[roomCode room]|] eqn:Hf; simpl; [|by left].
    apply findRoom_Some in Hf as [_ Hr].
    rewrite lookup_insert. case_decide as Hc; [|by left].
    intros [= <-]. subst c. right; left. exists room. split; [done|].
    apply step_setReady.
  - unfold startGame.
    destruct (findRoom m clientId) as [[roomCode room]|] eqn:Hf; simpl; [|by left].
    apply findRoom_Some in Hf as [_ Hr].
    destruct (canStartGame room) eqn:Hcan; simpl; [|by left].
    rewrite lookup_insert. case_decide as Hc; [|by left].
    intros [= <-]. subst c. right; left. exists room. split; [done|].
    by apply step_startGame.
  - destruct (rollDice m clientId u) as [m' [[room' roll]| |e]] eqn:Hroll; simpl.
    + apply rollDice_Ok in Hroll
        as (roomCode & room & cp & Hf & Hs & Hcp & _ & Hw & -> & -> & ->).
      apply findRoom_Some in Hf as [_ Hr]. simpl.
      rewrite lookup_insert. case_decide as Hc; [|by left].
      intros [= <-]. subst c. right; left. exists room. split; [done|].
      by apply step_rollDice.
    + assert (m' = m) as ->; [|by left].
      revert Hroll. unfold rollDice. repeat case_match; by intros [= <-].
    + assert (m' = m) as ->; [|by left].
      revert Hroll. unfold rollDice. repeat case_match; by intros [= <-].
  - destruct (movePiece m clientId pieceId) as [m' [[room' cap]| |e]] eqn:Hmove;
      simpl.
    + apply movePiece_Ok in Hmove
        as (roomCode & room & cp & roll & i & piece & Hf & Hs & Hcp & _ & Hroll
            & Hfind & Hcol & Hcan & Hres & ->).
      apply findRoom_Some in Hf as [_ Hr]. simpl.
      rewrite lookup_insert. case_decide as Hc; [|by left].
      intros [= <-]. subst c. right; left. exists room. split; [done|].
      replace room' with (resolveMove room cp i piece roll).1
        by (by rewrite Hres).
      apply step_movePiece; try done.
      pose proof Hfind as Hfind'.
      apply list_find_Some in Hfind' as (_ & -> & _). done.
    + assert (m' = m) as ->; [|by left].
      revert Hmove. unfold movePiece. repeat case_match; by intros [= <-].
    + assert (m' = m) as ->; [|by left].
      revert Hmove. unfold movePiece. repeat case_match; by intros [= <-].
  - unfold leaveRoom.
    destruct (playerToRoom m !! clientId) as [roomCode|] eqn:Hp; simpl; [|by left].
    destruct (rooms m !! roomCode) as [room|] eqn:Hr; simpl; [|by left].
    case_bool_decide as Hempty; simpl.
    + rewrite lookup_delete. case_decide as Hc; [done|].
      rewrite lookup_insert_ne by done. by left.
    + rewrite lookup_insert. case_decide as Hc; [|by left].
      intros [= <-]. subst c. right; left. exists room. split; [done|].
      apply step_leaveRoom.
Qed.

Lemma run_snoc m msgs clientId msg :
  run m (msgs ++ [(clientId, msg)]) = handleMessage (run m msgs) clientId msg.
Proof. unfold run. by rewrite foldl_app. Qed.

(** A property of rooms that holds of every new room and is kept by every
    transition holds of all rooms of every reachable manager. *)
Lemma reachable_rooms_ind (P : GameRoom → Prop) :
  (∀ c playerId playerName mode now, P (newRoom c playerId playerName mode now)) →
  (∀ r r', P r → room_step r r' → P r') →
  ∀ m, reachable m → ∀ c r, rooms m !! c = Some r → P r.
Proof.
  intros Hnew Hstep m [msgs ->].
  induction msgs as [|[clientId msg] msgs IH] using rev_ind; intros c r Hr.
  - done.
  - rewrite run_snoc in Hr.
    apply manager_step in Hr as [Hr|[(r0 & Hr0 & Hs)|(_ & p & n & md & now & ->)]].
    + by eapply IH.
    + eapply Hstep; [|done]. by eapply IH.
    + apply Hnew.
Qed.

Lemma reachable_step m clientId msg :
  reachable m → reachable (handleMessage m clientId msg).
Proof.
  intros [msgs ->]. exists (msgs ++ [(clientId, msg)]). by rewrite run_snoc.
Qed.

(** ** Invariants *)

Lemma checkCapture_cases moved ps :
  checkCapture moved ps = (ps, None)
  ∨ ∃ j other,
      list_find (capturable moved (getAbsoluteTrackPosition moved)) ps
        = Some (j, other)
      ∧ 0 ≤ position moved ≤ 50
      ∧ (getAbsoluteTrackPosition moved ∉ SAFE_SPOT_POSITIONS)
      ∧ checkCapture moved ps = (<[j := sentToBase other]> ps, Some other).
Proof.
  unfold checkCapture.
  destruct (bool_decide (position moved >= 0)) eqn:H0; simpl; [|by left].
  destruct (bool_decide (position moved <= 50)) eqn:H50; simpl; [|by left].
  apply bool_decide_eq_true in H0, H50.
  case_bool_decide as Hsafe; simpl; [by left|].
  destruct (list_find _ ps) as [[j other]|] eqn:Hfind; [|by left].
  right. exists j, other. repeat split; try done; lia.
Qed.

Lemma gameState_resolveMove room cp i piece roll :
  gameState (resolveMove room cp i piece roll).1
  = let moved := executeMove piece roll in
    let cap := checkCapture moved (<[i := moved]> (pieces (gameState room))) in
    nextTurn room
      (checkWinner cp
         (set_pieces (gameState room) (<[i := checkFinish moved]> cap.1)))
      roll cap.2.
Proof.
  unfold resolveMove. simpl.
  by destruct (checkCapture _ _) as [ps captured].
Qed.

Lemma players_resolveMove room cp i piece roll :
  players (resolveMove room cp i piece roll).1 = players room.
Proof.
  unfold resolveMove. by destruct (checkCapture _ _) as [ps captured].
Qed.

Lemma captured_resolveMove room cp i piece roll :
  (resolveMove room cp i piece roll).2
  = (checkCapture (executeMove piece roll)
       (<[i := executeMove piece roll]> (pieces (gameState room)))).2.
Proof.
  unfold resolveMove. by destruct (checkCapture _ _) as [ps captured].
Qed.

Lemma pieces_checkWinner cp g : pieces (checkWinner cp g) = pieces g.
Proof. unfold checkWinner. by case_match. Qed.

Lemma pieces_nextTurn room g roll captured :
  pieces (nextTurn room g roll captured) = pieces g.
Proof. unfold nextTurn. by case_match. Qed.

Lemma pieces_resolveMove room cp i piece roll :
  pieces (gameState (resolveMove room cp i piece roll).1)
  = <[i := checkFinish (executeMove piece roll)]>
      (checkCapture (executeMove piece roll)
         (<[i := executeMove piece roll]> (pieces (gameState room)))).1.
Proof.
  by rewrite gameState_resolveMove, pieces_nextTurn, pieces_checkWinner.
Qed.

Lemma pendingRoll_Some g roll :
  pendingRoll g = Some roll →
  waitingForMove g = true ∧ diceValue g = Some roll ∧ roll ≠ 0.
Proof.
  unfold pendingRoll. destruct (waitingForMove g); [|done].
  destruct (diceValue g) as [d|]; [|done].
  case_bool_decide; [done|]. by intros [= <-].
Qed.

Lemma position_executeMove piece roll :
  position (executeMove piece roll)
  = if bool_decide (position piece = -1) then 0 else position piece + roll.
Proof. unfold executeMove. by case_bool_decide. Qed.

Lemma pc_id_executeMove piece roll : pc_id (executeMove piece roll) = pc_id piece.
Proof. unfold executeMove. by case_bool_decide. Qed.

Lemma pc_color_executeMove piece roll :
  pc_color (executeMove piece roll) = pc_color piece.
Proof. unfold executeMove. by case_bool_decide. Qed.

Lemma position_checkFinish p :
  position (checkFinish p) = if bool_decide (position p = 57) then 99 else position p.
Proof. unfold checkFinish. by case_bool_decide. Qed.

Lemma pc_id_checkFinish p : pc_id (checkFinish p) = pc_id p.
Proof. unfold checkFinish. by case_bool_decide. Qed.

Lemma pc_color_checkFinish p : pc_color (checkFinish p) = pc_color p.
Proof. unfold checkFinish. by case_bool_decide. Qed.

Lemma canMovePiece_true piece roll room :
  canMovePiece piece roll room = true ↔
  (position piece = -1 ∧ roll = 6) ∨ (position piece ≠ -1 ∧ position piece + roll ≤ 57).
Proof.
  unfold canMovePiece. repeat case_bool_decide; split; intros Hx; try done; lia.
Qed.

(** The position of the moved piece after a legal move is in the domain. *)
Lemma moved_position piece roll room :
  validPosition (position piece) → 1 ≤ roll ≤ 6 →
  canMovePiece piece roll room = true →
  validPosition (position (checkFinish (executeMove piece roll))).
Proof.
  intros Hv Hr Hcan. apply canMovePiece_true in Hcan.
  rewrite position_checkFinish, position_executeMove.
  unfold validPosition in *.
  repeat case_bool_decide; lia.
Qed.

Lemma startId_initialPieces ps : Forall startId (initialPieces ps).
Proof.
  unfold initialPieces. apply Forall_forall. intros p Hp.
  apply list_elem_of_In, in_flat_map in Hp as (pl & _ & Hin).
  destruct (pl_color pl) as [c|]; [|done].
  apply in_map_iff in Hin as (k & <- & _). by exists k.
Qed.

Lemma position_initialPieces ps :
  Forall (λ p, position p = -1 ∧ isSafe p = true) (initialPieces ps).
Proof.
  unfold initialPieces. apply Forall_forall. intros p Hp.
  apply list_elem_of_In, in_flat_map in Hp as (pl & _ & Hin).
  destruct (pl_color pl) as [c|]; [|done].
  by apply in_map_iff in Hin as (k & <- & _).
Qed.

Lemma game_inv_newRoom c playerId playerName mode now :
  game_inv (newRoom c playerId playerName mode now).
Proof. by split; simpl. Qed.

Lemma validRoll_passTurn_dice room g roll :
  diceValue (passTurn room g roll) = diceValue g.
Proof. done. Qed.

(** The piece list after a move, index by index: the moved piece at [i],
    the captured piece (if any) in base, every other piece as it was. *)
Lemma resolveMove_lookup room cp i piece roll k p' :
  pieces (gameState room) !! i = Some piece →
  pieces (gameState (resolveMove room cp i piece roll).1) !! k = Some p' →
  (k = i ∧ p' = checkFinish (executeMove piece roll))
  ∨ (k ≠ i ∧ pieces (gameState room) !! k = Some p')
  ∨ (k ≠ i ∧ ∃ other, pieces (gameState room) !! k = Some other
               ∧ (resolveMove room cp i piece roll).2 = Some other
               ∧ p' = sentToBase other).
Proof.
  intros Hi. rewrite pieces_resolveMove, captured_resolveMove.
  intros Hk.
  apply list_lookup_insert_Some in Hk as [(-> & <- & Hlt)|[Hne Hk]]; [by left|].
  right.
  destruct (checkCapture_cases (executeMove piece roll)
              (<[i := executeMove piece roll]> (pieces (gameState room))))
    as [Hc|(j & other & Hf & _ & _ & Hc)]; rewrite Hc in Hk |- *; simpl in *.
  - left. split; [done|]. by rewrite list_lookup_insert_ne in Hk.
  - apply list_find_Some in Hf as (Hj & Hcap & _).
    assert (j ≠ i) as Hji.
    { intros ->. rewrite list_lookup_insert_eq in Hj
        by (by eapply lookup_lt_Some).
      injection Hj as <-. by destruct Hcap as [Hid _]. }
    rewrite list_lookup_insert_ne in Hj by done.
    apply list_lookup_insert_Some in Hk as [(-> & <- & Hlt)|[Hnj Hk]].
    + right. split; [done|]. by exists other.
    + left. split; [done|]. by rewrite list_lookup_insert_ne in Hk.
Qed.

Lemma game_inv_step r r' : game_inv r → room_step r r' → game_inv r'.
Proof.
  intros [Hpos Hids Hdice Hlast] Hstep.
  destruct Hstep as [pid name Hlen Hs|pid c Hav Ht|pid|Hcan|cp u Hs Hcp Hw
                     |cp roll i piece Hs Hcp Hroll Hfind Hcol Hcan|pid];
    try (by split).
  - split; simpl; try done.
    + eapply Forall_impl; [apply position_initialPieces|].
      intros p [-> _]. by left.
    + apply startId_initialPieces.
  - pose proof (rollWeightedDice_range r cp u) as Hrange.
    unfold rollState, passTurn.
    split; repeat case_match; simpl; try done;
      by intros d [= <-].
  - apply pendingRoll_Some in Hroll as (_ & Hd & _).
    pose proof (Hdice _ Hd) as Hrange.
    apply list_find_Some in Hfind as (Hi & _ & _).
    assert (validPosition (position piece)) as Hv.
    { eapply Forall_lookup_1 in Hpos; [|exact Hi]. done. }
    assert (startId piece) as Hid.
    { eapply Forall_lookup_1 in Hids; [|exact Hi]. done. }
    pose proof (moved_position piece roll r Hv Hrange Hcan) as Hv'.
    split.
    + apply Forall_lookup. intros k p' Hk.
      apply (resolveMove_lookup _ _ _ _ _ _ _ Hi) in Hk
        as [[-> ->]|[[Hne Hk]|(Hne & other & Hk & _ & ->)]].
      * done.
      * by eapply Forall_lookup_1 in Hpos; [|exact Hk].
      * by left.
    + apply Forall_lookup. intros k p' Hk.
      apply (resolveMove_lookup _ _ _ _ _ _ _ Hi) in Hk
        as [[-> ->]|[[Hne Hk]|(Hne & other & Hk & _ & ->)]].
      * destruct Hid as [n Hn]. exists n.
        by rewrite pc_id_checkFinish, pc_color_checkFinish,
             pc_id_executeMove, pc_color_executeMove.
      * by eapply Forall_lookup_1 in Hids; [|exact Hk].
      * eapply Forall_lookup_1 in Hids; [|exact Hk].
        destruct Hids as [n Hn]. by exists n.
    + rewrite gameState_resolveMove. by intros d.
    + rewrite gameState_resolveMove. cbv zeta.
      unfold nextTurn, passTurn, checkWinner.
      repeat case_match; simpl; try done; by intros d [= <-].
Qed.

(** Every room of a reachable manager satisfies the invariants. *)
Lemma reachable_game_inv m c r :
  reachable m → rooms m !! c = Some r → game_inv r.
Proof.
  intros Hm Hr.
  eapply (reachable_rooms_ind game_inv); eauto using game_inv_newRoom, game_inv_step.
Qed.

(** ** The turn index (C1) *)

Lemma length_update_player ps playerId f :
  length (update_player ps playerId f) = length ps.
Proof.
  unfold update_player. destruct (list_find _ ps) as [[i p]|]; [|done].
  by rewrite length_insert.
Qed.

(** Every transition that does not shorten the player list keeps the turn
    index inside it: only [leaveRoom] can break the invariant. *)
Lemma turn_index_step r r' :
  room_step r r' → turn_index_ok r →
  (length (players r) ≤ length (players r'))%nat →
  turn_index_ok r'.
Proof.
  unfold turn_index_ok. intros Hstep Hok Hlen.
  destruct Hstep as [pid name Hl Hs|pid c Hav Ht|pid|Hcan|cp u Hs Hcp Hw
                     |cp roll i piece Hs Hcp Hroll Hfind Hcol Hcan|pid];
    simpl in Hlen |- *; try lia.
  - unfold rollState, passTurn. repeat case_match; simpl; try lia.
    apply Nat.mod_upper_bound. lia.
  - rewrite players_resolveMove, gameState_resolveMove. cbv zeta.
    unfold nextTurn, passTurn. repeat case_match; simpl;
      rewrite ?pieces_checkWinner; try (apply Nat.mod_upper_bound; lia);
      unfold checkWinner; case_match; simpl; lia.
Qed.

(** Only [leaveRoom] shortens the player list. *)
Lemma room_step_length r r' :
  room_step r r' →
  (length (players r) ≤ length (players r'))%nat
  ∨ ∃ playerId,
      r' = set_players r (filter (λ p, pl_id p ≠ playerId) (players r)).
Proof.
  intros Hstep.
  destruct Hstep as [pid name Hl Hs|pid c Hav Ht|pid|Hcan|cp u Hs Hcp Hw
                     |cp roll i piece Hs Hcp Hroll Hfind Hcol Hcan|pid];
    [left..|right; by exists pid]; simpl;
    rewrite ?length_app, ?length_update_player, ?players_resolveMove; simpl; lia.
Qed.

(** C1 fails on the code: [leaveRoom] removes the player and leaves
    [currentTurnIndex] as it was.  After scenario A, a roll of 1 by red and
    the departure of yellow, the room has one player and turn index 1: no
    player is active, and the next [rollDice] reads [id] of [undefined]. *)
Theorem leaveRoom_keeps_stale_turn_index :
  let m := run emptyManager activePlayerLeaves in
  reachable m
  ∧ ∃ r, rooms m !! "ABC123"%string = Some r
       ∧ started (gameState r) = true
       ∧ length (players r) = 1%nat
       ∧ currentTurnIndex (gameState r) = 1%nat
       ∧ ¬ turn_index_ok r
       ∧ currentPlayer r = None
       ∧ rollDice m "a" 0 = (m, Throw TypeError).
Proof.
  split; [by eexists|].
  eexists. split; [vm_compute; reflexivity|].
  repeat split; try (vm_compute; reflexivity).
  unfold turn_index_ok. simpl. lia.
Qed.

(** ** Turn progression (C4, C6) *)

Lemma hasValidMoves_false room cp roll :
  hasValidMoves room cp roll = false ↔
  ∀ p, p ∈ pieces (gameState room) → Some (pc_color p) = pl_color cp →
       canMovePiece p roll room = false.
Proof.
  unfold hasValidMoves, piecesOf. split.
  - intros H p Hp Hc.
    destruct (canMovePiece p roll room) eqn:Hcan; [|done].
    assert (existsb (λ p, canMovePiece p roll room)
              (filter (λ p, Some (pc_color p) = pl_color cp)
                 (pieces (gameState room))) = true) as Ht; [|congruence].
    apply existsb_exists. exists p. split; [|done].
    apply list_elem_of_In, list_elem_of_filter. done.
  - intros H. apply not_true_is_false. intros Ht.
    apply existsb_exists in Ht as (p & Hp & Hcan).
    apply list_elem_of_In, list_elem_of_filter in Hp as [Hc Hp].
    rewrite (H p Hp Hc) in Hcan. done.
Qed.

(** C6: a successful roll with no legal move for the active colour (no
    piece of that colour can move by the roll).  The pending roll is
    discarded and no move is owed; on a roll other than 6 the roll becomes
    the bias seed of the next player, the first-roll flag is set again and
    the turn index advances cyclically; on a 6 the turn index, and with it
    the active player, stays.  With a legal move the roll is kept and a move
    is owed. *)
Theorem rollDice_no_legal_move m playerId u m' room' roll :
  rollDice m playerId u = (m', Ok (room', roll)) →
  ∃ roomCode room cp,
    findRoom m playerId = Some (roomCode, room)
    ∧ currentPlayer room = Some cp
    ∧ 1 ≤ roll ≤ 6
    ∧ players room' = players room
    ∧ rooms m' !! roomCode = Some room'
    ∧ (hasValidMoves room cp roll = false ↔
       ∀ p, p ∈ pieces (gameState room) → Some (pc_color p) = pl_color cp →
            canMovePiece p roll room = false)
    ∧ (hasValidMoves room cp roll = false →
       diceValue (gameState room') = None
       ∧ waitingForMove (gameState room') = false
       ∧ (roll ≠ 6 →
          lastDiceValue (gameState room') = Some roll
          ∧ isFirstRollOfTurn (gameState room') = true
          ∧ currentTurnIndex (gameState room')
            = ((currentTurnIndex (gameState room) + 1)
                 `mod` length (players room))%nat)
       ∧ (roll = 6 →
          currentTurnIndex (gameState room') = currentTurnIndex (gameState room)
          ∧ currentPlayer room' = Some cp
          ∧ lastDiceValue (gameState room') = lastDiceValue (gameState room)
          ∧ isFirstRollOfTurn (gameState room') = false))
    ∧ (hasValidMoves room cp roll = true →
       diceValue (gameState room') = Some roll
       ∧ waitingForMove (gameState room') = true
       ∧ currentTurnIndex (gameState room') = currentTurnIndex (gameState room)).
Proof.
  intros H.
  apply rollDice_Ok in H
    as (roomCode & room & cp & Hf & Hs & Hcp & Hid & Hw & Hroll & -> & ->).
  exists roomCode, room, cp.
  split; [done|]. split; [done|].
  split; [subst roll; apply rollWeightedDice_range|].
  split; [done|]. split; [simpl; apply lookup_insert_eq|].
  split; [apply hasValidMoves_false|].
  simpl. unfold rollState. split.
  - intros ->. simpl. split; [done|]. split.
    + case_bool_decide; simpl; by rewrite Hw.
    + split.
      * intros Hne. rewrite bool_decide_eq_false_2 by done. done.
      * intros H6. rewrite bool_decide_eq_true_2 by done. simpl.
        split; [done|]. split; [|done].
        unfold currentPlayer in *. simpl. exact Hcp.
  - intros ->. done.
Qed.

Lemma rollDice_no_legal_move_witness :
  ∃ m' room',
    rollDice (run emptyManager scenarioA) "a" 0 = (m', Ok (room', 1))
    ∧ diceValue (gameState room') = None
    ∧ lastDiceValue (gameState room') = Some 1
    ∧ currentTurnIndex (gameState room') = 1%nat.
Proof.
  eexists _, _. split; [vm_compute; reflexivity|].
  destruct (rollDice_no_legal_move (run emptyManager scenarioA) "a" 0 _ _ 1
              ltac:(vm_compute; reflexivity))
    as (roomCode & room & cp & Hf & Hcp & _ & _ & _ & _ & Hnone & _).
  vm_compute in Hf. injection Hf as <- <-.
  vm_compute in Hcp. injection Hcp as <-.
  destruct (Hnone ltac:(vm_compute; reflexivity)) as (Hd & _ & Hne & _).
  destruct (Hne ltac:(lia)) as (Hl & _ & Hi).
  split; [exact Hd|]. split; [exact Hl|]. exact Hi.
Defined.

Lemma winner_checkWinner cp g :
  winner g ≠ None → pl_color cp ≠ None → winner (checkWinner cp g) ≠ None.
Proof. unfold checkWinner. by case_match. Qed.

(** The state after "Next turn rules", field by field. *)
Lemma nextTurn_fields room g roll captured :
  let g' := nextTurn room g roll captured in
  diceValue g' = None
  ∧ waitingForMove g' = false
  ∧ winner g' = winner g
  ∧ if decide (roll ≠ 6 ∧ captured = None ∧ winner g = None)
    then lastDiceValue g' = Some roll
         ∧ isFirstRollOfTurn g' = true
         ∧ currentTurnIndex g'
           = ((currentTurnIndex g + 1) `mod` length (players room))%nat
    else lastDiceValue g' = lastDiceValue g
         ∧ isFirstRollOfTurn g' = isFirstRollOfTurn g
         ∧ currentTurnIndex g' = currentTurnIndex g.
Proof.
  unfold nextTurn. simpl.
  split; [done|].
  split; [by repeat case_match|].
  split; [by repeat case_match|].
  destruct (decide (roll ≠ 6 ∧ captured = None ∧ winner g = None))
    as [(H6 & Hc & Hw)|Hn].
  - rewrite (bool_decide_eq_false_2 (roll = 6)) by done.
    rewrite (bool_decide_eq_false_2 (captured ≠ None)) by (by intros ?).
    rewrite (bool_decide_eq_false_2 (winner g ≠ None)) by (by intros ?).
    done.
  - destruct (bool_decide (roll = 6)) eqn:H6; simpl; [done|].
    destruct (bool_decide (captured ≠ None)) eqn:Hc; simpl; [done|].
    destruct (bool_decide (winner g ≠ None)) eqn:Hw; simpl; [done|].
    apply bool_decide_eq_false in H6, Hc, Hw.
    exfalso. apply Hn. split; [done|].
    split; [destruct captured; [by destruct Hc|done]|].
    destruct (winner g); [by destruct Hw|done].
Qed.

(** C4 (amended): after a successful move by [roll] the pending roll is
    cleared and no move is owed.  If the roll was a 6 or a piece was
    captured, the turn index, the bias seed and the first-roll flag are
    untouched: the mover stays active.  Otherwise, provided no winner is
    recorded after the move, the roll becomes the bias seed, the first-roll
    flag is set and the turn index advances cyclically over the player
    list.  The index after the move equals the index before it exactly when
    the roll was a 6, a piece was captured, a winner is recorded, or the
    mover is the only player of the room.  With a winner recorded, by this
    move or before it, the move leaves the turn index as it was. *)
Theorem movePiece_turn_rule m playerId pieceId m' room' captured :
  movePiece m playerId pieceId = (m', Ok (room', captured)) →
  ∃ roomCode room cp roll,
    findRoom m playerId = Some (roomCode, room)
    ∧ currentPlayer room = Some cp
    ∧ pendingRoll (gameState room) = Some roll
    ∧ players room' = players room
    ∧ rooms m' !! roomCode = Some room'
    ∧ diceValue (gameState room') = None
    ∧ waitingForMove (gameState room') = false
    ∧ (roll = 6 ∨ captured ≠ None →
       currentTurnIndex (gameState room') = currentTurnIndex (gameState room)
       ∧ currentPlayer room' = Some cp
       ∧ lastDiceValue (gameState room') = lastDiceValue (gameState room)
       ∧ isFirstRollOfTurn (gameState room') = isFirstRollOfTurn (gameState room))
    ∧ (roll ≠ 6 → captured = None → winner (gameState room') = None →
       lastDiceValue (gameState room') = Some roll
       ∧ isFirstRollOfTurn (gameState room') = true
       ∧ currentTurnIndex (gameState room')
         = ((currentTurnIndex (gameState room) + 1)
              `mod` length (players room))%nat)
    ∧ (currentTurnIndex (gameState room') = currentTurnIndex (gameState room)
       ↔ roll = 6 ∨ captured ≠ None ∨ winner (gameState room') ≠ None
         ∨ length (players room) = 1%nat)
    ∧ (winner (gameState room) ≠ None → winner (gameState room') ≠ None)
    ∧ (winner (gameState room') ≠ None →
       currentTurnIndex (gameState room') = currentTurnIndex (gameState room)
       ∧ lastDiceValue (gameState room') = lastDiceValue (gameState room)).
Proof.
  intros H.
  apply movePiece_Ok in H
    as (roomCode & room & cp & roll & i & piece & Hf & Hs & Hcp & Hid & Hroll
        & Hfind & Hcol & Hcan & Hres & ->).
  exists roomCode, room, cp, roll.
  assert (room' = (resolveMove room cp i piece roll).1) as -> by (by rewrite Hres).
  assert (captured = (resolveMove room cp i piece roll).2) as -> by (by rewrite Hres).
  clear Hres.
  assert (currentTurnIndex (gameState room) < length (players room))%nat as Hlt.
  { unfold currentPlayer in Hcp. by eapply lookup_lt_Some. }
  split; [done|]. split; [done|]. split; [done|].
  split; [apply players_resolveMove|].
  split; [simpl; apply lookup_insert_eq|].
  assert (currentPlayer (resolveMove room cp i piece roll).1
          = players room
              !! currentTurnIndex (gameState (resolveMove room cp i piece roll).1))
    as -> by (unfold currentPlayer; by rewrite players_resolveMove).
  rewrite gameState_resolveMove, captured_resolveMove. cbv zeta.
  set (moved := executeMove piece roll).
  set (cap := checkCapture moved (<[i := moved]> (pieces (gameState room)))).
  set (g1 := checkWinner cp (set_pieces (gameState room)
                               (<[i := checkFinish moved]> cap.1))).
  assert (currentTurnIndex g1 = currentTurnIndex (gameState room)
          ∧ lastDiceValue g1 = lastDiceValue (gameState room)
          ∧ isFirstRollOfTurn g1 = isFirstRollOfTurn (gameState room))
    as (Hi1 & Hl1 & Hf1).
  { unfold g1, checkWinner. by case_match. }
  assert (winner (gameState room) ≠ None → winner g1 ≠ None) as Hw1.
  { intros Hw. apply winner_checkWinner; [done|]. by rewrite <- Hcol. }
  destruct (nextTurn_fields room g1 roll cap.2) as (Hd & Hwm & Hwin & Hturn).
  rewrite Hd, Hwm, Hwin. split; [done|]. split; [done|].
  destruct (decide (roll ≠ 6 ∧ cap.2 = None ∧ winner g1 = None))
    as [(H6 & Hc & Hw)|Hn];
    destruct Hturn as (Hl & Hfr & Hi); rewrite Hl, Hfr, Hi, ?Hi1, ?Hl1, ?Hf1.
  - split; [intros [?|?]; done|]. split; [done|].
    split; [|split; [done|]; intros ?; done].
    split.
    + intros Heq. right; right; right.
      destruct (length (players room)) as [|[|n]] eqn:Hlen; [lia|done|].
      exfalso. revert Heq Hlt.
      generalize (currentTurnIndex (gameState room)). intros k Heq Hlt.
      destruct (decide (k = S n)) as [->|Hne].
      * replace (S n + 1)%nat with (S (S n)) in Heq by lia.
        rewrite Nat.Div0.mod_same in Heq. lia.
      * rewrite Nat.mod_small in Heq by lia. lia.
    + intros [?|[?|[?|Hone]]]; try done.
      rewrite Hone in Hlt |- *.
      assert (currentTurnIndex (gameState room) = 0%nat) as -> by lia.
      done.
  - split; [done|]. split.
    { intros ? ? ?. exfalso. by apply Hn. }
    split; [|split; [done|]; done].
    split; [|done]. intros _.
    destruct (decide (roll = 6)) as [?|H6]; [by left|].
    destruct (decide (cap.2 = None)) as [Hc|Hc]; [|by right; left].
    destruct (decide (winner g1 = None)) as [Hw|Hw]; [|by right; right; left].
    exfalso. by apply Hn.
Qed.

(** ** The weight vector of the die (C2) *)

(** The roll recorded for the next player is never a 6: both places that
    record it do so on the branch where the roll was not a 6. *)
Lemma lastDiceValue_step r r' :
  lastDiceValue (gameState r) ≠ Some 6 → room_step r r' →
  lastDiceValue (gameState r') ≠ Some 6.
Proof.
  intros Hl Hstep.
  destruct Hstep as [pid name Hlen Hs|pid c Hav Ht|pid|Hcan|cp u Hs Hcp Hw
                     |cp roll i piece Hs Hcp Hroll Hfind Hcol Hcan|pid];
    try done.
  - simpl. unfold rollState.
    destruct (hasValidMoves r cp (rollWeightedDice r cp u)); [done|].
    destruct (bool_decide (rollWeightedDice r cp u = 6)) eqn:H6; simpl;
      [done|].
    apply bool_decide_eq_false in H6. congruence.
  - rewrite gameState_resolveMove. cbv zeta.
    set (moved := executeMove piece roll).
    set (cap := checkCapture moved (<[i := moved]> (pieces (gameState r)))).
    set (g1 := checkWinner cp (set_pieces (gameState r)
                                 (<[i := checkFinish moved]> cap.1))).
    assert (lastDiceValue g1 = lastDiceValue (gameState r)) as Hg.
    { unfold g1, checkWinner. by case_match. }
    destruct (nextTurn_fields r g1 roll cap.2) as (_ & _ & _ & Hturn).
    case_decide as Hd.
    + destruct Hd as (H6 & _). destruct Hturn as (-> & _). congruence.
    + destruct Hturn as (-> & _). by rewrite Hg.
Qed.

Lemma reachable_last_not_six m c r :
  reachable m → rooms m !! c = Some r →
  ∀ lr, lastDiceValue (gameState r) = Some lr → 1 ≤ lr ≤ 5.
Proof.
  intros Hm Hr lr Hlr.
  assert (lastDiceValue (gameState r) ≠ Some 6) as Hne.
  { eapply (reachable_rooms_ind (λ r, lastDiceValue (gameState r) ≠ Some 6));
      eauto using lastDiceValue_step. }
  destruct (reachable_game_inv m c r Hm Hr) as [_ _ _ Hlast].
  pose proof (Hlast lr Hlr). assert (lr ≠ 6) by congruence. lia.
Qed.

(** C2: the weight vector of the die, for a room of a reachable manager and
    the roller [pl].  [rollWeightedDice] samples from the vector
    [biasWeights] gives for three inputs: whether every piece of the
    roller's colour is at -1, the previous player's final roll, and the
    first-roll flag.  With all own pieces in base the vector is
    [10,10,10,10,10,50] whatever the previous roll.  Otherwise, with a
    previous final roll [lr] on the first roll of the turn, [lr] is one of
    1..5 (a 6 is never recorded), the weight of face [lr] is 2 and the
    removed weight [15 - 2] is spread over the other five faces: face 6
    receives 1.5 times the even share [(15 - 2) / 5], each of the remaining
    four faces 0.875 times.  In every other case the vector is the baseline
    [15,15,15,15,15,25].  This holds for the doubles the program computes
    and for the same computation in exact rationals. *)
Theorem biasWeights_as_specified m c room pl :
  reachable m → rooms m !! c = Some room →
  let g := gameState room in
  let inBase := allPiecesInBase room pl in
  let exact := biasWeights inBase (lastDiceValue g) (isFirstRollOfTurn g) in
  let double :=
    Double.biasWeights inBase (lastDiceValue g) (isFirstRollOfTurn g) in
  (∀ u, rollWeightedDice room pl u
        = Double.sampleRoll (Double.normalizeWeights double) (u * 100)%float)
  ∧ (inBase = true ↔
     ∀ p, p ∈ pieces g → Some (pc_color p) = pl_color pl → position p = -1)
  ∧ if inBase
    then exact = [10; 10; 10; 10; 10; 50]%Q
         ∧ double = [10; 10; 10; 10; 10; 50]%float
    else
      match lastDiceValue g with
      | Some lr =>
          if isFirstRollOfTurn g then
            1 ≤ lr ≤ 5
            ∧ redistributedAsStated lr exact
            ∧ double
              = <[Z.to_nat (lr - 1) := 2%float]>
                  (let share := ((15 - 2) / 5)%float in
                   [15 + share * 0.875; 15 + share * 0.875;
                    15 + share * 0.875; 15 + share * 0.875;
                    15 + share * 0.875; 25 + share * 1.5]%float)
          else exact = [15; 15; 15; 15; 15; 25]%Q
               ∧ double = [15; 15; 15; 15; 15; 25]%float
      | None => exact = [15; 15; 15; 15; 15; 25]%Q
                ∧ double = [15; 15; 15; 15; 15; 25]%float
      end.
Proof.
  intros Hm Hr g inBase exact double.
  split; [done|]. split; [apply allPiecesInBase_true|].
  unfold exact, double.
  destruct inBase; [done|].
  destruct (lastDiceValue g) as [lr|] eqn:Hlr; [|done].
  destruct (isFirstRollOfTurn g); [|done].
  pose proof (reachable_last_not_six m c room Hm Hr lr Hlr) as Hrange.
  split; [done|].
  split; [by apply redistributedAsStated_biasWeights|].
  by apply double_biasWeights_redistributed.
Qed.

Lemma biasWeights_as_specified_witness :
  ∃ room me,
    rooms (run emptyManager yellowPassesTurn) !! "ABC123"%string = Some room
    ∧ currentPlayer room = Some me
    ∧ allPiecesInBase room me = false
    ∧ lastDiceValue (gameState room) = Some 1
    ∧ isFirstRollOfTurn (gameState room) = true
    ∧ redistributedAsStated 1 (biasWeights false (Some 1) true)
    ∧ Double.biasWeights false (Some 1) true
      = [2; 15 + (15 - 2) / 5 * 0.875; 15 + (15 - 2) / 5 * 0.875;
         15 + (15 - 2) / 5 * 0.875; 15 + (15 - 2) / 5 * 0.875;
         25 + (15 - 2) / 5 * 1.5]%float.
Proof.
  eexists _, _.
  split; [vm_compute; reflexivity|]. split; [vm_compute; reflexivity|].
  split; [vm_compute; reflexivity|]. split; [vm_compute; reflexivity|].
  split; [vm_compute; reflexivity|].
  pose proof (biasWeights_as_specified (run emptyManager yellowPassesTurn)
                "ABC123" _ (mkPlayer "a" "Ann" (Some red) true)
                ltac:(by eexists) ltac:(vm_compute; reflexivity)) as H.
  cbv zeta in H. destruct H as (_ & _ & H).
  revert H. vm_compute. intros (_ & H1 & H2). split; [exact H1|exact H2].
Defined.

(** ** Move legality (C7) *)

Lemma movePiece_turn_rule_witness :
  ∃ m' room',
    movePiece (run emptyManager redRolledOne) "a" "red-0" = (m', Ok (room', None))
    ∧ diceValue (gameState room') = None
    ∧ lastDiceValue (gameState room') = Some 1
    ∧ currentTurnIndex (gameState room') = 1%nat.
Proof.
  eexists _, _. split; [vm_compute; reflexivity|].
  destruct (movePiece_turn_rule (run emptyManager redRolledOne) "a" "red-0" _ _ None
              ltac:(vm_compute; reflexivity))
    as (roomCode & room & cp & roll & Hf & Hcp & Hroll & _ & _ & Hd & _ & _
        & Hpass & _).
  vm_compute in Hf. injection Hf as <- <-.
  vm_compute in Hroll. injection Hroll as <-.
  destruct (Hpass ltac:(lia) eq_refl ltac:(vm_compute; reflexivity))
    as (Hl & _ & Hi).
  split; [exact Hd|]. split; [exact Hl|]. exact Hi.
Defined.

Lemma movePiece_guards m playerId pieceId roomCode room cp :
  findRoom m playerId = Some (roomCode, room) →
  started (gameState room) = true →
  currentPlayer room = Some cp →
  movePiece m playerId pieceId
  = if negb (bool_decide (pl_id cp = playerId)) then (m, Throw NotYourTurn)
    else match pendingRoll (gameState room) with
         | None => (m, Throw MustRollFirst)
         | Some roll =>
             match list_find (λ p, pc_id p = pieceId) (pieces (gameState room)) with
             | None => (m, Throw InvalidPiece)
             | Some (i, piece) =>
                 if negb (bool_decide (Some (pc_color piece) = pl_color cp))
                 then (m, Throw InvalidPiece)
                 else if negb (canMovePiece piece roll room)
                 then (m, Throw InvalidMove)
                 else
                   let res := resolveMove room cp i piece roll in
                   (store_room m roomCode res.1, Ok res)
             end
         end.
Proof.
  intros Hf Hs Hcp. unfold movePiece. rewrite Hf, Hs, Hcp. simpl.
  repeat case_match; done.
Qed.

(** C7: which moves are legal.  For a participant of a started room with
    an active player [cp], [movePiece] accepts the move of [pieceId]
    exactly when the caller is the active player, a roll is pending, the
    piece exists and has the colour of the active player, and the position
    test of [canMovePiece] passes for the pending roll: a piece in base
    (position -1) moves only on a 6, any other piece only when position +
    roll does not exceed 57.  So no move is legal for a piece of another
    colour or without a pending roll: [canMovePiece] itself reads the
    position and the roll only, and [movePiece] calls it after the tests of
    the turn (NotYourTurn), the pending roll (MustRollFirst) and the colour
    (InvalidPiece).  A piece of the active colour that fails the position
    test, in particular any move with position + roll > 57 and any move out
    of base on a roll other than 6, is rejected with InvalidMove.  A
    rejected call leaves the manager, and so every piece, unchanged. *)
Theorem move_legality m playerId pieceId roomCode room cp :
  findRoom m playerId = Some (roomCode, room) →
  started (gameState room) = true →
  currentPlayer room = Some cp →
  ((∃ m' res, movePiece m playerId pieceId = (m', Ok res))
   ↔ pl_id cp = playerId
     ∧ ∃ roll i piece,
         pendingRoll (gameState room) = Some roll
         ∧ list_find (λ p, pc_id p = pieceId) (pieces (gameState room))
           = Some (i, piece)
         ∧ Some (pc_color piece) = pl_color cp
         ∧ ((position piece = -1 ∧ roll = 6)
            ∨ (position piece ≠ -1 ∧ position piece + roll ≤ 57)))
  ∧ (∀ piece roll,
     canMovePiece piece roll room = true ↔
     (position piece = -1 ∧ roll = 6)
     ∨ (position piece ≠ -1 ∧ position piece + roll ≤ 57))
  ∧ (pl_id cp ≠ playerId → movePiece m playerId pieceId = (m, Throw NotYourTurn))
  ∧ (pl_id cp = playerId →
     (pendingRoll (gameState room) = None →
      movePiece m playerId pieceId = (m, Throw MustRollFirst))
     ∧ ∀ roll, pendingRoll (gameState room) = Some roll →
        (list_find (λ p, pc_id p = pieceId) (pieces (gameState room)) = None →
         movePiece m playerId pieceId = (m, Throw InvalidPiece))
        ∧ ∀ i piece,
            list_find (λ p, pc_id p = pieceId) (pieces (gameState room))
              = Some (i, piece) →
            (Some (pc_color piece) ≠ pl_color cp →
             movePiece m playerId pieceId = (m, Throw InvalidPiece))
            ∧ (Some (pc_color piece) = pl_color cp →
               (canMovePiece piece roll room = false →
                movePiece m playerId pieceId = (m, Throw InvalidMove))
               ∧ (position piece + roll > 57 →
                  movePiece m playerId pieceId = (m, Throw InvalidMove))
               ∧ (position piece = -1 → roll ≠ 6 →
                  movePiece m playerId pieceId = (m, Throw InvalidMove))
               ∧ (canMovePiece piece roll room = true →
                  ∃ m' res, movePiece m playerId pieceId = (m', Ok res)))).
Proof.
  intros Hf Hs Hcp.
  split.
  { split.
    - intros (m' & [room' captured] & Hmove).
      apply movePiece_Ok in Hmove
        as (c' & r' & cp' & roll & i & piece & Hf' & _ & Hcp' & Hid & Hpend
            & Hfind & Hcol & Hcan & _).
      rewrite Hf in Hf'. injection Hf' as <- <-.
      rewrite Hcp in Hcp'. injection Hcp' as <-.
      split; [done|]. exists roll, i, piece.
      split; [done|]. split; [done|]. split; [done|].
      by apply (canMovePiece_true piece roll room).
    - intros (Hid & roll & i & piece & Hpend & Hfind & Hcol & Hpos).
      rewrite (movePiece_guards m playerId pieceId roomCode room cp Hf Hs Hcp).
      rewrite (bool_decide_eq_true_2 _ Hid). simpl.
      rewrite Hpend, Hfind. rewrite (bool_decide_eq_true_2 _ Hcol). simpl.
      apply (canMovePiece_true piece roll room) in Hpos. rewrite Hpos. simpl.
      by eexists _, _. }
  rewrite (movePiece_guards m playerId pieceId roomCode room cp Hf Hs Hcp).
  split; [intros piece roll; apply canMovePiece_true|].
  split.
  { intros Hne. by rewrite bool_decide_eq_false_2. }
  intros Heq. rewrite (bool_decide_eq_true_2 _ Heq). simpl.
  split; [by intros ->|].
  intros roll ->. split; [by intros ->|].
  intros i piece ->. split.
  { intros Hne. by rewrite bool_decide_eq_false_2. }
  intros Hc. rewrite (bool_decide_eq_true_2 _ Hc). simpl.
  assert (∀ b, canMovePiece piece roll room = b →
            (if negb (canMovePiece piece roll room)
             then (m, Throw InvalidMove)
             else (store_room m roomCode (resolveMove room cp i piece roll).1,
                   Ok (resolveMove room cp i piece roll)))
            = if b then (store_room m roomCode (resolveMove room cp i piece roll).1,
                         Ok (resolveMove room cp i piece roll))
              else (m, Throw InvalidMove)) as Hb.
  { intros b ->. by destruct b. }
  split; [intros Hcan; by rewrite (Hb false)|].
  split.
  { intros Hgt. rewrite (Hb false); [done|].
    unfold canMovePiece. repeat case_bool_decide; try done; lia. }
  split.
  { intros Hbase Hroll. rewrite (Hb false); [done|].
    unfold canMovePiece. repeat case_bool_decide; try done; lia. }
  intros Hcan. rewrite (Hb true) by done. by eexists _, _.
Qed.

(** ** Captures (C5) *)

Lemma list_find_pointwise {A} (P Q : A → Prop)
    `{!∀ x, Decision (P x)} `{!∀ x, Decision (Q x)} (l1 l2 : list A) :
  Forall2 (λ x y, (x = y ∧ (P x ↔ Q y)) ∨ (¬ P x ∧ ¬ Q y)) l1 l2 →
  list_find P l1 = list_find Q l2.
Proof.
  induction 1 as [|x y l1 l2 Hxy _ IH]; [done|].
  simpl. rewrite IH.
  destruct Hxy as [[-> Hiff]|[HnP HnQ]].
  - by rewrite (decide_ext (P y) (Q y)).
  - by rewrite !decide_False.
Qed.

(** The identity of a piece determines its colour. *)
Lemma startId_color p q :
  startId p → startId q → pc_id p = pc_id q → pc_color p = pc_color q.
Proof.
  intros [k Hk] [n Hn] Heq. rewrite Hk, Hn in Heq.
  destruct (pc_color p), (pc_color q); try done; simpl in Heq; discriminate Heq.
Qed.

(** On the pieces of a well-formed game the scan of the capture loop finds
    the first piece of another colour on the landing cell. *)
Lemma capture_scan ps i piece roll :
  Forall startId ps → ps !! i = Some piece →
  let moved := executeMove piece roll in
  list_find (capturable moved (getAbsoluteTrackPosition moved)) (<[i := moved]> ps)
  = list_find (otherColorOnCell moved) ps.
Proof.
  intros Hids Hi moved. apply list_find_pointwise.
  apply Forall2_same_length_lookup. split; [by rewrite length_insert|].
  intros k x y Hx Hy.
  assert (pc_id moved = pc_id piece) as Hmid by apply pc_id_executeMove.
  assert (pc_color moved = pc_color piece) as Hmc by apply pc_color_executeMove.
  apply list_lookup_insert_Some in Hx as [(-> & <- & Hlt)|[Hne Hx]].
  - right. rewrite Hi in Hy. injection Hy as <-.
    split; [by intros [Hid _]|]. intros [Hc _]. by rewrite Hmc in Hc.
  - left. rewrite Hx in Hy. injection Hy as <-. split; [done|].
    unfold capturable, otherColorOnCell. split.
    + intros (_ & Hc & Hp & Ha). split; [done|]. split; [lia|done].
    + intros (Hc & Hp & Ha). split.
      * intros Hid. apply Hc. rewrite Hmc.
        apply startId_color.
        -- by eapply Forall_lookup_1 in Hids; [|exact Hx].
        -- by eapply Forall_lookup_1 in Hids; [|exact Hi].
        -- by rewrite Hid.
      * split; [done|]. split; [lia|done].
Qed.

(** C5: a move in a reachable state.  When the moved piece lands on the
    main track (0..50) on an absolute cell that is not a safe cell, the first
    piece of another colour on that cell, in the order of the piece list, is
    the one captured: it is reported, and in the list it is replaced by
    itself at position -1 with the safe flag set; no other piece but the
    moved one changes.  When there is no such piece, or the landing cell is
    safe or off the main track, nothing is captured and only the moved piece
    changes. *)
Theorem capture_rule m playerId pieceId m' room' captured :
  reachable m →
  movePiece m playerId pieceId = (m', Ok (room', captured)) →
  ∃ roomCode room roll i piece,
    findRoom m playerId = Some (roomCode, room)
    ∧ pendingRoll (gameState room) = Some roll
    ∧ list_find (λ p, pc_id p = pieceId) (pieces (gameState room))
        = Some (i, piece)
    ∧ let moved := executeMove piece roll in
      let target := if decide (captureCell moved)
                    then list_find (otherColorOnCell moved)
                           (pieces (gameState room))
                    else None in
      captured = snd <$> target
      ∧ pieces (gameState room')
        = <[i := checkFinish moved]>
            (match target with
             | Some (j, other) => <[j := sentToBase other]> (pieces (gameState room))
             | None => pieces (gameState room)
             end)
      ∧ (∀ j other, target = Some (j, other) →
           j ≠ i
           ∧ sentToBase other
             = mkPiece (pc_id other) (pc_color other) (-1) true)
      ∧ (¬ captureCell moved → captured = None).
Proof.
  intros Hm H.
  apply movePiece_Ok in H
    as (roomCode & room & cp & roll & i & piece & Hf & Hs & Hcp & Hid & Hroll
        & Hfind & Hcol & Hcan & Hres & ->).
  exists roomCode, room, roll, i, piece.
  split; [done|]. split; [done|]. split; [done|].
  assert (room' = (resolveMove room cp i piece roll).1) as -> by (by rewrite Hres).
  assert (captured = (resolveMove room cp i piece roll).2) as -> by (by rewrite Hres).
  clear Hres.
  destruct (findRoom_Some _ _ _ _ Hf) as [_ Hr].
  destruct (reachable_game_inv m roomCode room Hm Hr) as [_ Hids _ _].
  apply list_find_Some in Hfind as (Hi & _ & _).
  rewrite pieces_resolveMove, captured_resolveMove.
  intros moved target.
  fold moved.
  assert (checkCapture moved (<[i := moved]> (pieces (gameState room)))
          = match target with
            | Some (j, other) =>
                (<[j := sentToBase other]> (<[i := moved]> (pieces (gameState room))),
                 Some other)
            | None => (<[i := moved]> (pieces (gameState room)), None)
            end) as Hcc.
  { unfold checkCapture, target.
    destruct (decide (captureCell moved)) as [[Hp Hsafe]|Hn].
    - rewrite !bool_decide_eq_true_2 by lia. simpl.
      rewrite (bool_decide_eq_false_2 _ Hsafe). simpl.
      unfold moved. rewrite (capture_scan _ _ _ _ Hids Hi). fold moved.
      by destruct (list_find _ _) as [[j other]|].
    - assert (bool_decide (position moved >= 0)
              && bool_decide (position moved <= 50)
              && negb (bool_decide (getAbsoluteTrackPosition moved
                                    ∈ SAFE_SPOT_POSITIONS)) = false) as Hb.
      { apply not_true_is_false. intros Ht.
        apply andb_true_iff in Ht as [Ht H3].
        apply andb_true_iff in Ht as [H1 H2].
        apply bool_decide_eq_true in H1, H2.
        apply negb_true_iff, bool_decide_eq_false in H3.
        apply Hn. split; [lia|done]. }
      destruct (bool_decide (position moved >= 0)),
               (bool_decide (position moved <= 50)),
               (bool_decide (getAbsoluteTrackPosition moved ∈ SAFE_SPOT_POSITIONS));
        simpl in *; done. }
  assert (∀ j other, target = Some (j, other) → j ≠ i) as Hji.
  { intros j other Ht. unfold target in Ht.
    destruct (decide (captureCell moved)); [|done].
    apply list_find_Some in Ht as (Hj & (Hc & _) & _).
    intros ->. rewrite Hi in Hj. injection Hj as <-.
    apply Hc. unfold moved. by rewrite pc_color_executeMove. }
  rewrite Hcc. split; [by destruct target as [[j other]|]|].
  split.
  { destruct target as [[j other]|] eqn:Ht; simpl.
    - assert (j ≠ i) as Hne by (by eapply Hji).
      rewrite (list_insert_insert_ne _ j i) by done.
      by rewrite list_insert_insert_eq.
    - by rewrite list_insert_insert_eq. }
  split.
  { intros j other Ht. split; [by eapply Hji|done]. }
  intros Hn. unfold target. by rewrite decide_False.
Qed.

(** ** The player list: one holder per colour *)

Lemma StronglySorted_filter {A} (R : relation A) (P : A → Prop)
    `{!∀ x, Decision (P x)} (l : list A) :
  StronglySorted R l → StronglySorted R (filter P l).
Proof.
  induction 1 as [|x l Hl IH Hx]; [constructor|].
  rewrite filter_cons. case_decide; [|done].
  constructor; [done|].
  apply Forall_forall. intros y Hy.
  apply list_elem_of_filter in Hy as [_ Hy].
  rewrite Forall_forall in Hx. by apply Hx.
Qed.

Lemma color_taken_false ps playerId c :
  color_taken ps playerId c = false →
  ∀ p, p ∈ ps → pl_color p = Some c → pl_id p = playerId.
Proof.
  unfold color_taken. intros Hf p Hp Hc.
  destruct (decide (pl_id p = playerId)) as [|Hne]; [done|].
  assert (existsb (λ p, bool_decide (pl_color p = Some c)
                        && negb (bool_decide (pl_id p = playerId))) ps = true)
    as Ht; [|congruence].
  apply existsb_exists. exists p. split; [by apply list_elem_of_In|].
  rewrite bool_decide_eq_true_2 by done.
  by rewrite bool_decide_eq_false_2.
Qed.

Lemma color_taken_true ps playerId c :
  color_taken ps playerId c = true →
  ∃ p, p ∈ ps ∧ pl_color p = Some c ∧ pl_id p ≠ playerId.
Proof.
  unfold color_taken. intros Ht.
  apply existsb_exists in Ht as (p & Hp & Hb).
  apply andb_true_iff in Hb as [Hc Hid].
  apply bool_decide_eq_true in Hc.
  apply negb_true_iff, bool_decide_eq_false in Hid.
  exists p. split; [by apply list_elem_of_In|done].
Qed.

(** [update_player] replaces the first player with the given id. *)
Lemma update_player_found ps playerId f i p :
  list_find (λ q, pl_id q = playerId) ps = Some (i, p) →
  update_player ps playerId f = take i ps ++ f p :: drop (S i) ps
  ∧ ps = take i ps ++ p :: drop (S i) ps
  ∧ pl_id p = playerId
  ∧ ∀ q, q ∈ take i ps → pl_id q ≠ playerId.
Proof.
  intros Hfind. unfold update_player. rewrite Hfind.
  apply list_find_Some in Hfind as (Hi & Hid & Hfirst).
  split; [apply insert_take_drop; by eapply lookup_lt_Some|].
  split; [by rewrite take_drop_middle|].
  split; [done|].
  intros q Hq. apply list_elem_of_lookup in Hq as [k Hk].
  apply lookup_take_Some in Hk as [Hk Hlt]. by eapply Hfirst.
Qed.

Lemma players_inv_step r r' : players_inv r → room_step r r' → players_inv r'.
Proof.
  unfold players_inv. intros Hinv Hstep.
  destruct Hstep as [pid name Hlen Hs|pid c Hav Ht|pid|Hcan|cp u Hs Hcp Hw
                     |cp roll i piece Hs Hcp Hroll Hfind Hcol Hcan|pid];
    simpl; try done.
  - apply StronglySorted_app_2; [|done|repeat constructor].
    intros p q _ Hq. apply list_elem_of_singleton in Hq as ->. by split.
  - destruct (list_find (λ q, pl_id q = pid) (players r)) as [[i p]|] eqn:Hfind;
      [|by unfold update_player; rewrite Hfind].
    destruct (update_player_found _ _ (λ p, set_pl_color p (Some c)) _ _ Hfind)
      as (-> & Heq & Hid & Hbefore).
    pose proof (color_taken_false _ _ _ Ht) as Hfree.
    rewrite Heq in Hinv.
    apply StronglySorted_app in Hinv as (Hcross & H1 & H2).
    apply StronglySorted_cons in H2 as [Hp H2].
    rewrite Forall_forall in Hp.
    assert (∀ q, q ∈ drop (S i) (players r) → pl_color q ≠ Some c) as Hafter.
    { intros q Hq Hc.
      assert (pl_id q = pid) as Hqid.
      { apply Hfree; [|done]. rewrite Heq.
        apply elem_of_app. right. by apply elem_of_cons; right. }
      destruct (Hp q Hq) as [Hnone _]. rewrite Hnone in Hc; [done|congruence]. }
    apply StronglySorted_app_2; [| done |].
    + intros x1 x2 Hx1 Hx2.
      apply elem_of_cons in Hx2 as [->|Hx2].
      * split; simpl.
        -- intros Hx. exfalso. apply (Hbefore x1 Hx1). congruence.
        -- intros c' Hc' [= <-].
           apply (Hbefore x1 Hx1). apply Hfree; [|done].
           rewrite Heq. apply elem_of_app. by left.
      * apply Hcross; [done|]. by apply elem_of_cons; right.
    + apply StronglySorted_cons. split; [|done].
      apply Forall_forall. intros q Hq. split; simpl.
      * intros Hx. by destruct (Hp q Hq) as [Hnone _]; apply Hnone.
      * intros c' [= <-]. by apply Hafter.
  - destruct (list_find (λ q, pl_id q = pid) (players r)) as [[i p]|] eqn:Hfind;
      [|by unfold update_player; rewrite Hfind].
    destruct (update_player_found _ _ markReady _ _ Hfind)
      as (-> & Heq & Hid & Hbefore).
    rewrite Heq in Hinv.
    assert (pl_id (markReady p) = pl_id p ∧ pl_color (markReady p) = pl_color p)
      as [Hmid Hmc].
    { unfold markReady. by destruct (pl_color p) eqn:E. }
    apply StronglySorted_app in Hinv as (Hcross & H1 & H2).
    apply StronglySorted_cons in H2 as [Hp H2].
    rewrite Forall_forall in Hp.
    apply StronglySorted_app_2; [| done |].
    + intros x1 x2 Hx1 Hx2.
      apply elem_of_cons in Hx2 as [->|Hx2].
      * destruct (Hcross x1 p Hx1 ltac:(by apply elem_of_cons; left))
          as [Ha Hb].
        split; rewrite ?Hmid, ?Hmc; done.
      * apply Hcross; [done|]. by apply elem_of_cons; right.
    + apply StronglySorted_cons. split; [|done].
      apply Forall_forall. intros q Hq.
      destruct (Hp q Hq) as [Ha Hb].
      split; rewrite ?Hmid, ?Hmc; done.
  - by rewrite players_resolveMove.
  - by apply StronglySorted_filter.
Qed.

Lemma players_inv_newRoom c playerId playerName mode now :
  players_inv (newRoom c playerId playerName mode now).
Proof. unfold players_inv. simpl. repeat constructor. Qed.

Lemma reachable_players_inv m c r :
  reachable m → rooms m !! c = Some r → players_inv r.
Proof.
  intros Hm Hr.
  eapply (reachable_rooms_ind players_inv);
    eauto using players_inv_newRoom, players_inv_step.
Qed.

(** At most one player holds a colour. *)
Lemma holders_unique c ps :
  StronglySorted claim_order ps → (length (holders c ps) ≤ 1)%nat.
Proof.
  unfold holders. induction 1 as [|p ps Hps IH Hp]; simpl; [lia|].
  rewrite filter_cons. case_decide as Hc; [|done].
  assert (filter (λ q, pl_color q = Some c) ps = []) as ->; [|simpl; lia].
  rewrite Forall_forall in Hp.
  destruct (filter (λ q, pl_color q = Some c) ps) as [|q l] eqn:Hf; [done|].
  assert (q ∈ filter (λ q, pl_color q = Some c) ps) as Hq
    by (rewrite Hf; by apply elem_of_cons; left).
  apply list_elem_of_filter in Hq as [Hqc Hq].
  by destruct (Hp q Hq) as [_ Hdiff]; destruct (Hdiff c Hc).
Qed.

(** ** Starting a game (C9) *)

Lemma canStartGame_true room :
  canStartGame room = true ↔
  (2 ≤ length (players room) ≤ maxPlayers (gameMode room))%nat
  ∧ Forall (λ p, pl_color p ≠ None ∧ ready p = true) (players room).
Proof.
  unfold canStartGame.
  rewrite !andb_true_iff, !bool_decide_eq_true, forallb_forall, Forall_forall.
  split.
  - intros [[H2 Hmax] Hall]. split; [destruct (gameMode room); lia|].
    intros p Hp. apply list_elem_of_In in Hp. specialize (Hall p Hp).
    apply andb_true_iff in Hall as [Hc Hr].
    by apply bool_decide_eq_true in Hc.
  - intros [[H2 Hmax] Hall]. split; [split; [destruct (gameMode room); lia|done]|].
    intros p Hp. apply list_elem_of_In in Hp. destruct (Hall p Hp) as [Hc Hr].
    apply andb_true_iff. by rewrite bool_decide_eq_true.
Qed.

Lemma piecesOfColor_initialPieces c ps :
  piecesOfColor c (initialPieces ps)
  = flat_map (λ _, map (newPiece c) (seq 0 4)) (holders c ps).
Proof.
  unfold piecesOfColor, holders, initialPieces.
  induction ps as [|p ps IH]; [done|].
  cbn [flat_map]. rewrite filter_app, IH.
  rewrite (filter_cons (λ q, pl_color q = Some c) p ps).
  destruct (pl_color p) as [c'|] eqn:Hc.
  - destruct (decide (c' = c)) as [->|Hne].
    + rewrite decide_True by done. cbn [flat_map]. f_equal.
      simpl. by rewrite !filter_cons, !decide_True.
    + rewrite decide_False by congruence.
      assert (filter (λ q, pc_color q = c) (map (newPiece c') (seq 0 4)) = [])
        as ->; [|done].
      simpl. by rewrite !filter_cons, !decide_False.
  - by rewrite decide_False.
Qed.

Lemma length_initialPieces ps :
  Forall (λ p, pl_color p ≠ None) ps →
  length (initialPieces ps) = (4 * length ps)%nat.
Proof.
  unfold initialPieces. induction 1 as [|p ps Hp _ IH]; [done|].
  cbn [flat_map]. rewrite length_app, IH.
  destruct (pl_color p); [simpl; lia|done].
Qed.

(** C9: [startGame] by a participant who has a room.  It fails with
    NotAllReady exactly when [canStartGame] is false, that is unless the
    room has between 2 and its capacity of players, each with a colour and
    ready.  On success the players are untouched and the game state is
    fresh: turn index 0, no pending roll, no previous roll, no winner,
    started; every piece is at -1 and safe; there are four pieces per
    player, and for each colour held by a player exactly the four pieces
    [<colour>-0 .. <colour>-3], none for any other colour. *)
Theorem startGame_spec m playerId roomCode room :
  reachable m →
  findRoom m playerId = Some (roomCode, room) →
  (canStartGame room = true ↔
     (2 ≤ length (players room) ≤ maxPlayers (gameMode room))%nat
     ∧ Forall (λ p, pl_color p ≠ None ∧ ready p = true) (players room))
  ∧ ((startGame m playerId).2 = Throw NotAllReady ↔ canStartGame room = false)
  ∧ (canStartGame room = false → startGame m playerId = (m, Throw NotAllReady))
  ∧ (canStartGame room = true →
     ∃ room',
       startGame m playerId = (store_room m roomCode room', Ok room')
       ∧ players room' = players room
       ∧ currentTurnIndex (gameState room') = 0%nat
       ∧ diceValue (gameState room') = None
       ∧ lastDiceValue (gameState room') = None
       ∧ isFirstRollOfTurn (gameState room') = true
       ∧ waitingForMove (gameState room') = false
       ∧ winner (gameState room') = None
       ∧ started (gameState room') = true
       ∧ Forall (λ p, position p = -1 ∧ isSafe p = true)
           (pieces (gameState room'))
       ∧ length (pieces (gameState room')) = (4 * length (players room))%nat
       ∧ ∀ c, piecesOfColor c (pieces (gameState room'))
              = if decide (Some c ∈ pl_color <$> players room)
                then map (newPiece c) (seq 0 4)
                else []).
Proof.
  intros Hm Hf.
  split; [apply canStartGame_true|].
  unfold startGame. rewrite Hf.
  destruct (canStartGame room) eqn:Hcan; simpl.
  - split; [done|]. split; [done|]. intros _.
    eexists. split; [done|]. simpl.
    repeat (split; [done|]).
    split; [apply position_initialPieces|].
    apply canStartGame_true in Hcan as [_ Hall].
    split.
    { apply length_initialPieces. eapply Forall_impl; [exact Hall|]. by intros p []. }
    intros c. rewrite piecesOfColor_initialPieces.
    destruct (findRoom_Some _ _ _ _ Hf) as [_ Hr].
    pose proof (holders_unique c _ (reachable_players_inv m roomCode room Hm Hr))
      as Hle.
    case_decide as Hc.
    + apply list_elem_of_fmap in Hc as (p & Hpc & Hp).
      assert (p ∈ holders c (players room)) as Hh
        by (by apply list_elem_of_filter).
      destruct (holders c (players room)) as [|q [|q' l]]; simpl in *;
        [by apply elem_of_nil in Hh|done|lia].
    + destruct (holders c (players room)) as [|q l] eqn:Hh; [done|].
      exfalso. apply Hc.
      assert (q ∈ holders c (players room)) as Hq
        by (rewrite Hh; by apply elem_of_cons; left).
      apply list_elem_of_filter in Hq as [Hqc Hq].
      apply list_elem_of_fmap. by exists q.
  - split; [done|]. split; [done|]. done.
Qed.

Lemma startGame_spec_witness :
  ∃ room',
    (startGame (run emptyManager lobbyReady) "a").2 = Ok room'
    ∧ length (pieces (gameState room')) = 8%nat
    ∧ Forall (λ p, position p = -1 ∧ isSafe p = true) (pieces (gameState room'))
    ∧ currentTurnIndex (gameState room') = 0%nat.
Proof.
  destruct (startGame_spec (run emptyManager lobbyReady) "a" "ABC123" _
              ltac:(by eexists) ltac:(vm_compute; reflexivity))
    as (_ & _ & _ & Hok).
  destruct (Hok ltac:(vm_compute; reflexivity))
    as (room' & Hs & _ & Hi & _ & _ & _ & _ & _ & _ & Hpos & Hlen & _).
  exists room'. rewrite Hs. split; [reflexivity|].
  split; [exact Hlen|]. split; [exact Hpos|exact Hi].
Defined.

(** Scenario A, evaluated: eight pieces, the four red ones before the four
    yellow ones, all at -1, and red to play. *)
Example scenarioA_pieces :
  (λ r, (map (λ p, (pc_id p, position p)) (pieces (gameState r)),
         currentTurnIndex (gameState r)))
    <$> rooms (run emptyManager scenarioA) !! "ABC123"%string
  = Some ([("red-0", -1); ("red-1", -1); ("red-2", -1); ("red-3", -1);
           ("yellow-0", -1); ("yellow-1", -1); ("yellow-2", -1);
           ("yellow-3", -1)]%string, 0%nat).
Proof. vm_compute. reflexivity. Qed.

(** ** Choosing a colour after the start (C10) *)

(** C10: [chooseColor] has no check of [started].  In a started room a
    participant who is in the room's player list and asks for a colour that
    is valid for the mode and held by no other participant gets it: the call
    succeeds, the first entry of that participant carries the new colour,
    every other player and the whole game state (pieces included) stay as
    they are.  [joinRoom] on the same room is refused. *)
Theorem chooseColor_after_start m playerId c roomCode room i p :
  findRoom m playerId = Some (roomCode, room) →
  started (gameState room) = true →
  c ∈ getAvailableColors room →
  (∀ q, q ∈ players room → pl_color q = Some c → pl_id q = playerId) →
  list_find (λ q, pl_id q = playerId) (players room) = Some (i, p) →
  ∃ room',
    chooseColor m playerId c = (store_room m roomCode room', Ok room')
    ∧ players room' = <[i := set_pl_color p (Some c)]> (players room)
    ∧ players room' !! i = Some (mkPlayer (pl_id p) (pl_name p) (Some c) (ready p))
    ∧ gameState room' = gameState room
    ∧ started (gameState room') = true
    ∧ ∀ playerId' playerName,
        (joinRoom m roomCode playerId' playerName).1 = m
        ∧ ((joinRoom m roomCode playerId' playerName).2 = Throw RoomFull
           ∨ (joinRoom m roomCode playerId' playerName).2
             = Throw GameAlreadyStarted).
Proof.
  intros Hf Hs Hav Hfree Hfind.
  unfold chooseColor. rewrite Hf.
  rewrite (bool_decide_eq_true_2 _ Hav). simpl.
  assert (color_taken (players room) playerId c = false) as ->.
  { apply not_true_is_false. intros Ht.
    apply color_taken_true in Ht as (q & Hq & Hc & Hid). by apply Hid, Hfree. }
  eexists. split; [done|]. simpl.
  unfold update_player. rewrite Hfind.
  split; [done|].
  apply list_find_Some in Hfind as (Hi & _ & _).
  split; [apply list_lookup_insert_eq; by eapply lookup_lt_Some|].
  split; [done|]. split; [done|].
  intros playerId' playerName. unfold joinRoom.
  destruct (findRoom_Some _ _ _ _ Hf) as [_ ->].
  case_bool_decide; simpl; [by split; [|left]|].
  rewrite Hs. simpl. by split; [|right].
Qed.

Lemma chooseColor_after_start_witness :
  ∃ room',
    (chooseColor (run emptyManager fourPlayerGame) "b" blue).2 = Ok room'
    ∧ started (gameState room') = true
    ∧ (pl_color <$> players room' !! 1%nat) = Some (Some blue).
Proof.
  edestruct (chooseColor_after_start (run emptyManager fourPlayerGame) "b" blue
               "ABC123") as (room' & Hc & _ & Hp & _ & Hs & _).
  - vm_compute. reflexivity.
  - vm_compute. reflexivity.
  - vm_compute. set_solver.
  - intros q Hq Hcol. vm_compute in Hq.
    apply elem_of_cons in Hq as [->|Hq]; [done|].
    apply list_elem_of_singleton in Hq as ->. done.
  - vm_compute. reflexivity.
  - exists room'. rewrite Hc, Hp.
    split; [reflexivity|]. split; [exact Hs|reflexivity].
Defined.

(** ** Witnesses on concrete games and the scenarios of the specification *)

Lemma capture_rule_witness :
  ∃ m' room' other,
    movePiece (run emptyManager redReachesYellow) "a" "red-0"
      = (m', Ok (room', Some other))
    ∧ pc_id other = "yellow-0"%string
    ∧ (position <$> pieces (gameState room') !! 4%nat) = Some (-1)
    ∧ (position <$> pieces (gameState room') !! 0%nat) = Some 27.
Proof.
  eexists _, _, _. split; [vm_compute; reflexivity|].
  destruct (capture_rule (run emptyManager redReachesYellow) "a" "red-0" _ _ _
              ltac:(by eexists) ltac:(vm_compute; reflexivity))
    as (roomCode & room & roll & i & piece & Hf & Hroll & Hfind & _ & Hpieces & _).
  vm_compute in Hf. injection Hf as <- <-.
  vm_compute in Hroll. injection Hroll as <-.
  vm_compute in Hfind. injection Hfind as <- <-.
  split; [reflexivity|]. rewrite Hpieces. split; vm_compute; reflexivity.
Defined.

Lemma move_legality_witness :
  let m := testManager (testRoom (piecesAt 55 (-1) (-1) (-1) 3) (Some 4) None) in
  movePiece m "a" "red-0" = (m, Throw InvalidMove)
  ∧ movePiece m "a" "red-1" = (m, Throw InvalidMove)
  ∧ movePiece m "a" "yellow-0" = (m, Throw InvalidPiece)
  ∧ movePiece m "b" "yellow-0" = (m, Throw NotYourTurn).
Proof.
  intros m.
  assert (∀ pid pieceId,
            findRoom m pid = Some ("ABC123"%string,
              testRoom (piecesAt 55 (-1) (-1) (-1) 3) (Some 4) None)
            → _) as H
    by (intros pid pieceId Hf;
        exact (move_legality m pid pieceId _ _ _ Hf eq_refl eq_refl)).
  split; [|split; [|split]].
  - destruct (H "a"%string "red-0"%string ltac:(vm_compute; reflexivity))
      as (_ & _ & _ & Hmine).
    destruct (Hmine eq_refl) as [_ Hroll].
    destruct (Hroll 4 eq_refl) as [_ Hpiece].
    destruct (Hpiece 0%nat _ ltac:(vm_compute; reflexivity)) as [_ Hcol].
    destruct (Hcol eq_refl) as (_ & Hover & _).
    apply Hover. simpl. lia.
  - destruct (H "a"%string "red-1"%string ltac:(vm_compute; reflexivity))
      as (_ & _ & _ & Hmine).
    destruct (Hmine eq_refl) as [_ Hroll].
    destruct (Hroll 4 eq_refl) as [_ Hpiece].
    destruct (Hpiece 1%nat _ ltac:(vm_compute; reflexivity)) as [_ Hcol].
    destruct (Hcol eq_refl) as (_ & _ & Hbase & _).
    apply Hbase; [reflexivity|lia].
  - destruct (H "a"%string "yellow-0"%string ltac:(vm_compute; reflexivity))
      as (_ & _ & _ & Hmine).
    destruct (Hmine eq_refl) as [_ Hroll].
    destruct (Hroll 4 eq_refl) as [_ Hpiece].
    destruct (Hpiece 4%nat _ ltac:(vm_compute; reflexivity)) as [Hother _].
    apply Hother. discriminate.
  - destruct (H "b"%string "yellow-0"%string ltac:(vm_compute; reflexivity))
      as (_ & _ & Hnot & _).
    apply Hnot. discriminate.
Defined.

(** Scenario B: a piece at 48 moves by 4 to 52, on the home stretch; the
    capture check is skipped. *)
Example scenarioB :
  let m := testManager (testRoom (piecesAt 48 (-1) (-1) (-1) 26) (Some 4) None) in
  ∃ m' room',
    movePiece m "a" "red-0" = (m', Ok (room', None))
    ∧ pieces (gameState room') !! 0%nat = Some (mkPiece "red-0" red 52 true).
Proof. eexists _, _. split; vm_compute; reflexivity. Qed.

(** Scenario C: red moves from 7 to the star cell 8, where a yellow piece
    stands (yellow position 34 is absolute cell 8): no capture, both pieces
    stay, the red piece is safe, and the turn passes (roll 1, no capture). *)
Example scenarioC :
  let m := testManager (testRoom (piecesAt 7 (-1) (-1) (-1) 34) (Some 1) None) in
  getAbsoluteTrackPosition (mkPiece "yellow-0" yellow 34 false) = 8
  ∧ ∃ m' room',
      movePiece m "a" "red-0" = (m', Ok (room', None))
      ∧ pieces (gameState room') !! 0%nat = Some (mkPiece "red-0" red 8 true)
      ∧ pieces (gameState room') !! 4%nat
        = Some (mkPiece "yellow-0" yellow 34 false)
      ∧ currentTurnIndex (gameState room') = 1%nat.
Proof.
  split; [reflexivity|]. eexists _, _. repeat split; vm_compute; reflexivity.
Qed.

(** Scenario D: red lands on absolute cell 10, not a safe cell, where a
    yellow piece stands (yellow position 36): the yellow piece goes to base,
    safe, it is reported, and red keeps the turn. *)
Example scenarioD :
  let m := testManager (testRoom (piecesAt 7 (-1) (-1) (-1) 36) (Some 3) None) in
  getAbsoluteTrackPosition (mkPiece "yellow-0" yellow 36 false) = 10
  ∧ ∃ m' room',
      movePiece m "a" "red-0"
        = (m', Ok (room', Some (mkPiece "yellow-0" yellow 36 false)))
      ∧ pieces (gameState room') !! 0%nat = Some (mkPiece "red-0" red 10 false)
      ∧ pieces (gameState room') !! 4%nat
        = Some (mkPiece "yellow-0" yellow (-1) true)
      ∧ currentTurnIndex (gameState room') = 0%nat
      ∧ diceValue (gameState room') = None.
Proof.
  split; [reflexivity|]. eexists _, _. repeat split; vm_compute; reflexivity.
Qed.

(** Scenario E: red has three pieces home and one at 55; a 6 gives no legal
    move, the roll is discarded and red stays active. *)
Example scenarioE :
  let m := testManager (testRoom (piecesAt 99 99 99 55 3) None None) in
  ∃ m' room',
    rollDice m "a" 0.984375%float = (m', Ok (room', 6))
    ∧ currentTurnIndex (gameState room') = 0%nat
    ∧ diceValue (gameState room') = None
    ∧ waitingForMove (gameState room') = false
    ∧ lastDiceValue (gameState room') = None.
Proof. eexists _, _. repeat split; vm_compute; reflexivity. Qed.

(** [rollDice] has no check of the winner.  With red recorded as the winner
    and all its pieces home, a roll of 1 by red finds no legal move and
    passes the turn to yellow: outside [movePiece] the turn index can still
    change once a winner is set. *)
Example rollDice_after_winner :
  let m := testManager (testRoom (piecesAt 99 99 99 99 3) None (Some red)) in
  ∃ m' room',
    rollDice m "a" 0 = (m', Ok (room', 1))
    ∧ winner (gameState room') = Some red
    ∧ currentTurnIndex (gameState room') = 1%nat.
Proof. eexists _, _. repeat split; vm_compute; reflexivity. Qed.

(** C4, as stated, fails in two ways.  A sole remaining player keeps the
    turn on a 1 without a capture and without a winner: the index advances
    modulo a player list of length one.  And with red recorded as the winner
    of a game played from the start, a roll of 1 by red finds no legal move
    and takes the turn index from 0 to 1. *)
Lemma turn_rule_not_as_stated :
  (∃ room m' room',
     findRoom (run emptyManager soloRun) "a" = Some ("ABC123"%string, room)
     ∧ pendingRoll (gameState room) = Some 1
     ∧ movePiece (run emptyManager soloRun) "a" "red-0"
       = (m', Ok (room', None))
     ∧ winner (gameState room') = None
     ∧ currentTurnIndex (gameState room') = currentTurnIndex (gameState room)
     ∧ currentPlayer room' = currentPlayer room)
  ∧ (∃ room m' room',
       findRoom (run emptyManager redWins) "a" = Some ("ABC123"%string, room)
       ∧ winner (gameState room) = Some red
       ∧ currentTurnIndex (gameState room) = 0%nat
       ∧ rollDice (run emptyManager redWins) "a" 0 = (m', Ok (room', 1))
       ∧ winner (gameState room') = Some red
       ∧ currentTurnIndex (gameState room') = 1%nat).
Proof.
  split; eexists _, _, _;
    (split; [vm_compute; reflexivity|]); (split; [vm_compute; reflexivity|]);
    (split; [vm_compute; reflexivity|]); (split; [vm_compute; reflexivity|]);
    (split; vm_compute; reflexivity).
Qed.

(** The die follows the doubles, not the rationals.  With all pieces in
    base the first normalised weight is exactly 10, and for the double
    nearest to 0.1 the product with 100 rounds to exactly 10: the remainder
    is 0 and the face is 1.  In exact arithmetic that draw, which lies just
    above 1/10, would give face 2. *)
Example die_rounding :
  let room := testRoom (piecesAt (-1) (-1) (-1) (-1) 5) None None in
  let me := mkPlayer "a" "Ann" (Some red) true in
  rollWeightedDice room me 0x1.999999999999ap-4 = 1
  ∧ rollWeightedDice room me 0x1.999999999999ap-2 = 4
  ∧ sampleRoll (normalizeWeights (biasWeights true None true))
      ((3602879701896397 # 36028797018963968) * 100)%Q = 2.
Proof. repeat split; vm_compute; reflexivity. Qed.

(** The check of the client page does test the turn, the owed move and the
    colour before the position: it accepts a piece exactly when the viewer is
    the active player, a move is owed, the piece has the viewer's colour and
    the server's position test passes for the recorded roll. *)
Lemma client_canMovePiece_true room playerId piece :
  client_canMovePiece room playerId piece = Some true ↔
  ∃ cp i me,
    currentPlayer room = Some cp
    ∧ pl_id cp = playerId
    ∧ waitingForMove (gameState room) = true
    ∧ list_find (λ p, pl_id p = playerId) (players room) = Some (i, me)
    ∧ pl_color me = Some (pc_color piece)
    ∧ canMovePiece piece (default 0 (diceValue (gameState room))) room = true.
Proof.
  unfold client_canMovePiece. split.
  - destruct (currentPlayer room) as [cp|]; [|done].
    intros [= H]. revert H.
    case_bool_decide as Hid; simpl; [|done].
    destruct (waitingForMove (gameState room)); simpl; [|done].
    destruct (list_find _ (players room)) as [[i me]|] eqn:Hfind; simpl; [|done].
    destruct (bool_decide (Some (pc_color piece) = pl_color me)) eqn:Hc;
      simpl; [|done].
    apply bool_decide_eq_true in Hc. intros Hcan.
    by exists cp, i, me.
  - intros (cp & i & me & -> & Hid & -> & -> & Hc & Hcan).
    rewrite (bool_decide_eq_true_2 _ Hid). simpl.
    rewrite bool_decide_eq_true_2 by done. simpl.
    f_equal. exact Hcan.
Qed.

(** * Further properties of the manager *)

(** ** Messages as transitions *)

Lemma msg_effect_room_step clientId msg r r' :
  msg_effect clientId msg r r' → room_step r r'.
Proof.
  destruct msg as [playerName mode draws now|roomCode playerName|col| | |u|pieceId|];
    simpl.
  - done.
  - intros (Hlen & Hs & ->). by apply step_join.
  - intros (Hav & Ht & ->). by apply step_chooseColor.
  - intros ->. apply step_setReady.
  - intros (Hcan & ->). by apply step_startGame.
  - intros (cp & Hs & Hcp & _ & Hw & ->). by apply step_rollDice.
  - intros (cp & roll & i & piece & Hs & Hcp & _ & Hroll & Hfind & Hcol & Hcan & ->).
    apply step_movePiece; try done.
    pose proof Hfind as Hfind'.
    apply list_find_Some in Hfind' as (_ & -> & _). done.
  - intros (-> & _). apply step_leaveRoom.
Qed.

(** [manager_step], with the transition named by the message. *)
Lemma manager_step_msg m clientId msg c r' :
  rooms (handleMessage m clientId msg) !! c = Some r' →
  rooms m !! c = Some r'
  ∨ (∃ r, rooms m !! c = Some r ∧ msg_effect clientId msg r r')
  ∨ (rooms m !! c = None
     ∧ ∃ playerName mode draws now,
         msg = msg_create playerName mode draws now
         ∧ r' = newRoom c clientId playerName mode now).
Proof.
  destruct msg as [playerName mode draws now|roomCode playerName|col| | |u|pieceId|];
    simpl.
  - unfold createRoom.
    destruct (generateRoomCode m draws) as [c0|] eqn:Hg; simpl; [|by left].
    rewrite lookup_insert. case_decide as Hc; [|by left].
    intros [= <-]. subst c0. right; right.
    split; [by eapply generateRoomCode_fresh|]. by eexists _, _, _, _.
  - unfold joinRoom.
    destruct (rooms m !! roomCode) as [room|] eqn:Hr; simpl; [|by left].
    case_bool_decide as Hfull; simpl; [by left|].
    destruct (started (gameState room)) eqn:Hs; simpl; [by left|].
    rewrite lookup_insert. case_decide as Hc; [|by left].
    intros [= <-]. subst c. right; left. exists room. split; [done|].
    split; [lia|done].
  - unfold chooseColor.
    destruct (findRoom m clientId) as [[roomCode room]|] eqn:Hf; simpl; [|by left].
    apply findRoom_Some in Hf as [_ Hr].
    case_bool_decide as Hav; simpl; [|by left].
    destruct (color_taken (players room) clientId col) eqn:Ht; simpl; [by left|].
    rewrite lookup_insert. case_decide as Hc; [|by left].
    intros [= <-]. subst c. right; left. by exists room.
  - unfold setReady.
    destruct (findRoom m clientId) as [[roomCode room]|] eqn:Hf; simpl; [|by left].
    apply findRoom_Some in Hf as [_ Hr].
    rewrite lookup_insert. case_decide as Hc; [|by left].
    intros [= <-]. subst c. right; left. by exists room.
  - unfold startGame.
    destruct (findRoom m clientId) as [[roomCode room]|] eqn:Hf; simpl; [|by left].
    apply findRoom_Some in Hf as [_ Hr].
    destruct (canStartGame room) eqn:Hcan; simpl; [|by left].
    rewrite lookup_insert. case_decide as Hc; [|by left].
    intros [= <-]. subst c. right; left. by exists room.
  - destruct (rollDice m clientId u) as [m' [[room' roll]| |e]] eqn:Hroll; simpl.
    + apply rollDice_Ok in Hroll
        as (roomCode & room & cp & Hf & Hs & Hcp & Hid & Hw & -> & -> & ->).
      apply findRoom_Some in Hf as [_ Hr]. simpl.
      rewrite lookup_insert. case_decide as Hc; [|by left].
      intros [= <-]. subst c. right; left. exists room. split; [done|].
      by exists cp.
    + assert (m' = m) as ->; [|by left].
      revert Hroll. unfold rollDice. repeat case_match; by intros [= <-].
    + assert (m' = m) as ->; [|by left].
      revert Hroll. unfold rollDice. repeat case_match; by intros [= <-].
  - destruct (movePiece m clientId pieceId) as [m' [[room' cap]| |e]] eqn:Hmove;
      simpl.
    + apply movePiece_Ok in Hmove
        as (roomCode & room & cp & roll & i & piece & Hf & Hs & Hcp & Hid & Hroll
            & Hfind & Hcol & Hcan & Hres & ->).
      apply findRoom_Some in Hf as [_ Hr]. simpl.
      rewrite lookup_insert. case_decide as Hc; [|by left].
      intros [= <-]. subst c. right; left. exists room. split; [done|].
      exists cp, roll, i, piece. by rewrite Hres.
    + assert (m' = m) as ->; [|by left].
      revert Hmove. unfold movePiece. repeat case_match; by intros [= <-].
    + assert (m' = m) as ->; [|by left].
      revert Hmove. unfold movePiece. repeat case_match; by intros [= <-].
  - unfold leaveRoom.
    destruct (playerToRoom m !! clientId) as [roomCode|] eqn:Hp; simpl; [|by left].
    destruct (rooms m !! roomCode) as [room|] eqn:Hr; simpl; [|by left].
    case_bool_decide as Hempty; simpl.
    + rewrite lookup_delete. case_decide as Hc; [done|].
      rewrite lookup_insert_ne by done. by left.
    + rewrite lookup_insert. case_decide as Hc; [|by left].
      intros [= <-]. subst c. right; left. exists room. split; [done|].
      split; [done|]. simpl in *. intros Hnil. apply Hempty. by rewrite Hnil.
Qed.

(** Induction over the reachable managers for a property of a room and the
    code it is stored under. *)
Lemma reachable_rooms_ind_code (P : string → GameRoom → Prop) :
  (∀ c playerId playerName mode now, P c (newRoom c playerId playerName mode now)) →
  (∀ clientId msg c r r', P c r → msg_effect clientId msg r r' → P c r') →
  ∀ m, reachable m → ∀ c r, rooms m !! c = Some r → P c r.
Proof.
  intros Hnew Hstep m [msgs ->].
  induction msgs as [|[clientId msg] msgs IH] using rev_ind; intros c r Hr.
  - done.
  - rewrite run_snoc in Hr.
    apply manager_step_msg in Hr
      as [Hr|[(r0 & Hr0 & Hs)|(_ & n & md & dr & now & _ & ->)]].
    + by eapply IH.
    + eapply Hstep; [|done]. by eapply IH.
    + apply Hnew.
Qed.

(** A call that throws or returns [null] leaves the manager as it was. *)
Ltac failed_call op :=
  unfold op; repeat case_match; intros [= <- <-] Hno; try done;
  exfalso; by eapply Hno.

Lemma joinRoom_failed m roomCode playerId playerName m' o :
  joinRoom m roomCode playerId playerName = (m', o) → (∀ a, o ≠ Ok a) → m' = m.
Proof. failed_call joinRoom. Qed.

Lemma chooseColor_failed m playerId c m' o :
  chooseColor m playerId c = (m', o) → (∀ a, o ≠ Ok a) → m' = m.
Proof. failed_call chooseColor. Qed.

Lemma setReady_failed m playerId m' o :
  setReady m playerId = (m', o) → (∀ a, o ≠ Ok a) → m' = m.
Proof. failed_call setReady. Qed.

Lemma startGame_failed m playerId m' o :
  startGame m playerId = (m', o) → (∀ a, o ≠ Ok a) → m' = m.
Proof. failed_call startGame. Qed.

Lemma rollDice_failed m playerId u m' o :
  rollDice m playerId u = (m', o) → (∀ a, o ≠ Ok a) → m' = m.
Proof. failed_call rollDice. Qed.

Lemma movePiece_failed m playerId pieceId m' o :
  movePiece m playerId pieceId = (m', o) → (∀ a, o ≠ Ok a) → m' = m.
Proof. failed_call movePiece. Qed.


(** ** Registry invariants *)

Lemma code_resolveMove room cp i piece roll :
  code (resolveMove room cp i piece roll).1 = code room
  ∧ gameMode (resolveMove room cp i piece roll).1 = gameMode room.
Proof.
  unfold resolveMove. by destruct (checkCapture _ _) as [ps captured].
Qed.

Lemma msg_effect_static clientId msg r r' :
  msg_effect clientId msg r r' →
  code r' = code r ∧ gameMode r' = gameMode r.
Proof.
  destruct msg; simpl; try done.
  - by intros (_ & _ & ->).
  - by intros (_ & _ & ->).
  - by intros ->.
  - by intros (_ & ->).
  - by intros (cp & _ & _ & _ & _ & ->).
  - intros (cp & roll & i & piece & _ & _ & _ & _ & _ & _ & _ & ->).
    apply code_resolveMove.
  - by intros (-> & _).
Qed.

Lemma room_wf_step clientId msg c r r' :
  room_wf c r → msg_effect clientId msg r r' → room_wf c r'.
Proof.
  intros (Hcode & Hne & Hcap) Heff.
  destruct (msg_effect_static _ _ _ _ Heff) as [Hc' Hm'].
  split; [congruence|]. rewrite Hm'.
  assert (length (players r) ≠ 0%nat) as Hlen by (by destruct (players r)).
  destruct msg; simpl in Heff.
  - done.
  - destruct Heff as (Hlt & _ & ->). simpl. split; [by destruct (players r)|].
    rewrite length_app. simpl. lia.
  - destruct Heff as (_ & _ & ->). simpl.
    split; [|by rewrite length_update_player].
    intros Hnil. apply Hlen.
    by rewrite <- (length_update_player _ clientId (λ p, set_pl_color p (Some c0))),
         Hnil.
  - subst r'. simpl. split; [|by rewrite length_update_player].
    intros Hnil. apply Hlen.
    by rewrite <- (length_update_player _ clientId markReady), Hnil.
  - by destruct Heff as (_ & ->).
  - by destruct Heff as (cp & _ & _ & _ & _ & ->).
  - destruct Heff as (cp & roll & i & piece & _ & _ & _ & _ & _ & _ & _ & ->).
    by rewrite players_resolveMove.
  - destruct Heff as (-> & Hne'). split; [done|]. simpl.
    etrans; [apply length_filter|done].
Qed.

Lemma reachable_room_wf m c r :
  reachable m → rooms m !! c = Some r → room_wf c r.
Proof.
  intros Hm Hr.
  eapply (reachable_rooms_ind_code room_wf); [| |exact Hm|exact Hr].
  - intros c0 pid name mode now. split; [done|]. split; [done|].
    destruct mode; simpl; lia.
  - intros cid msg c0 r0 r0'. apply room_wf_step.
Qed.

Lemma Forall_update_player (P : Player → Prop) ps playerId f :
  Forall P ps → (∀ p, p ∈ ps → P p → P (f p)) →
  Forall P (update_player ps playerId f).
Proof.
  intros Hall Hf. unfold update_player.
  destruct (list_find _ ps) as [[i p]|] eqn:Hfind; [|done].
  apply list_find_Some in Hfind as (Hi & _ & _).
  apply Forall_insert; [done|].
  apply Hf; [by eapply list_elem_of_lookup_2|].
  by eapply Forall_lookup_1 in Hall.
Qed.

Lemma fmap_update_player {B} (g : Player → B) ps playerId f :
  (∀ p, g (f p) = g p) →
  g <$> update_player ps playerId f = g <$> ps.
Proof.
  intros Hg. unfold update_player.
  destruct (list_find _ ps) as [[i p]|] eqn:Hfind; [|done].
  apply list_find_Some in Hfind as (Hi & _ & _).
  rewrite list_fmap_insert, Hg. apply list_insert_id.
  by rewrite list_lookup_fmap, Hi.
Qed.

Lemma Forall_filter_keep {A} (P : A → Prop) (Q : A → Prop)
    `{!∀ x, Decision (Q x)} (l : list A) :
  Forall P l → Forall P (filter Q l).
Proof.
  rewrite !Forall_forall. intros Hall x Hx.
  apply list_elem_of_filter in Hx as [_ Hx]. by apply Hall.
Qed.

Lemma lobby_inv_newRoom c playerId playerName mode now :
  lobby_inv (newRoom c playerId playerName mode now).
Proof.
  split; simpl; try done.
  by repeat constructor.
Qed.

Lemma lobby_inv_step r r' : lobby_inv r → room_step r r' → lobby_inv r'.
Proof.
  intros [Hready Hns Hsc Howed] Hstep.
  destruct Hstep as [pid name Hlen Hs|pid c Hav Ht|pid|Hcan|cp u Hs Hcp Hw
                     |cp roll i piece Hs Hcp Hroll Hfind Hcol Hcan|pid].
  - split; simpl; try done.
    + apply Forall_app. split; [done|]. by repeat constructor.
    + intros Hst. congruence.
  - split; simpl; try done.
    + apply Forall_update_player; [done|]. by intros p _ _ _.
    + intros Hst. apply Forall_update_player; [by apply Hsc|]. by intros p _ _.
  - split; simpl; try done.
    + apply Forall_update_player; [done|].
      intros p _ Hp. unfold markReady.
      destruct (pl_color p) eqn:Hc; simpl; [by rewrite Hc|].
      intros Hr. apply Hp in Hr. congruence.
    + intros Hst. apply Forall_update_player; [by apply Hsc|].
      intros p _ Hp. unfold markReady.
      destruct (pl_color p) eqn:Hc; simpl; by rewrite ?Hc.
  - split; simpl; try done.
    intros _. apply canStartGame_true in Hcan as [_ Hall].
    eapply Forall_impl; [exact Hall|]. by intros p [].
  - split; simpl; try done.
    + unfold rollState, passTurn. repeat case_match; simpl; congruence.
    + unfold rollState, passTurn. repeat case_match; simpl; intros _; by apply Hsc.
    + unfold rollState, passTurn. repeat case_match; simpl; rewrite ?Hw; done.
  - split; rewrite ?players_resolveMove, ?gameState_resolveMove; cbv zeta.
    + done.
    + unfold nextTurn, passTurn, checkWinner.
      repeat case_match; simpl; congruence.
    + intros _. by apply Hsc.
    + unfold nextTurn, passTurn, checkWinner.
      repeat case_match; simpl; split; done.
  - split; simpl; try done.
    + by apply Forall_filter_keep.
    + intros Hst. by apply Forall_filter_keep, Hsc.
Qed.

Lemma reachable_lobby_inv m c r :
  reachable m → rooms m !! c = Some r → lobby_inv r.
Proof.
  intros Hm Hr.
  eapply (reachable_rooms_ind lobby_inv);
    eauto using lobby_inv_newRoom, lobby_inv_step.
Qed.

(** ** Invariants of the pieces *)

Lemma isPieceOnSafeSpot_set_isSafe p b :
  isPieceOnSafeSpot (set_isSafe p b) = isPieceOnSafeSpot p.
Proof. done. Qed.

Lemma isSafe_executeMove piece roll :
  isSafe (executeMove piece roll) = isPieceOnSafeSpot (executeMove piece roll).
Proof. unfold executeMove. by case_bool_decide. Qed.

Lemma isSafe_checkFinish p :
  isSafe p = isPieceOnSafeSpot p →
  isSafe (checkFinish p) = isPieceOnSafeSpot (checkFinish p).
Proof. unfold checkFinish. by case_bool_decide. Qed.

(** A move changes positions and safe flags only: the identities and
    colours of the pieces stay, in the same order. *)
Lemma roster_resolveMove room cp i piece roll :
  pieces (gameState room) !! i = Some piece →
  roster (resolveMove room cp i piece roll).1 = roster room.
Proof.
  intros Hi. unfold roster. rewrite pieces_resolveMove.
  set (g := λ p : GamePiece, (pc_id p, pc_color p)).
  assert (g (checkFinish (executeMove piece roll)) = g piece) as Hfin.
  { unfold g. by rewrite pc_id_checkFinish, pc_color_checkFinish,
                      pc_id_executeMove, pc_color_executeMove. }
  assert (g (executeMove piece roll) = g piece) as Hmov.
  { unfold g. by rewrite pc_id_executeMove, pc_color_executeMove. }
  assert (g <$> <[i := executeMove piece roll]> (pieces (gameState room))
          = g <$> pieces (gameState room)) as H1.
  { rewrite list_fmap_insert, Hmov. apply list_insert_id.
    by rewrite list_lookup_fmap, Hi. }
  rewrite list_fmap_insert, Hfin.
  destruct (checkCapture_cases (executeMove piece roll)
              (<[i := executeMove piece roll]> (pieces (gameState room))))
    as [->|(j & other & Hf & _ & _ & ->)]; simpl.
  - rewrite H1. apply list_insert_id. by rewrite list_lookup_fmap, Hi.
  - apply list_find_Some in Hf as (Hj & _ & _).
    rewrite list_fmap_insert.
    assert (g (sentToBase other) = g other) as -> by done.
    rewrite (list_insert_id (g <$> _) j (g other))
      by (by rewrite list_lookup_fmap, Hj).
    rewrite H1. apply list_insert_id. by rewrite list_lookup_fmap, Hi.
Qed.

(** A captured piece was of another colour and on the main track. *)
Lemma captured_on_track room cp i piece roll other :
  (resolveMove room cp i piece roll).2 = Some other →
  0 ≤ position other ≤ 50 ∧ pc_color other ≠ pc_color piece.
Proof.
  rewrite captured_resolveMove.
  destruct (checkCapture_cases (executeMove piece roll)
              (<[i := executeMove piece roll]> (pieces (gameState room))))
    as [->|(j & o & Hf & _ & _ & ->)]; simpl; [done|].
  intros [= ->].
  apply list_find_Some in Hf as (_ & (_ & Hc & Hp & _) & _).
  rewrite pc_color_executeMove in Hc. split; [lia|done].
Qed.

Lemma newPiece_id_inj c k c' k' :
  (k < 4)%nat → (k' < 4)%nat →
  pc_id (newPiece c k) = pc_id (newPiece c' k') → c = c' ∧ k = k'.
Proof.
  intros Hk Hk'.
  assert (k = 0 ∨ k = 1 ∨ k = 2 ∨ k = 3)%nat as Hcases by lia.
  assert (k' = 0 ∨ k' = 1 ∨ k' = 2 ∨ k' = 3)%nat as Hcases' by lia.
  destruct Hcases as [->|[->|[->| ->]]];
    destruct Hcases' as [->|[->|[->| ->]]];
    destruct c, c'; simpl; intros Heq; (done || discriminate Heq).
Qed.

Lemma elem_of_initialPieces q ps :
  q ∈ initialPieces ps ↔
  ∃ p c k, p ∈ ps ∧ pl_color p = Some c ∧ (k < 4)%nat ∧ q = newPiece c k.
Proof.
  unfold initialPieces. rewrite list_elem_of_In, in_flat_map. split.
  - intros (p & Hp & Hq). destruct (pl_color p) as [c|] eqn:Hc; [|done].
    apply in_map_iff in Hq as (k & <- & Hk). apply in_seq in Hk.
    exists p, c, k. split; [by apply list_elem_of_In|]. split; [done|].
    split; [lia|done].
  - intros (p & c & k & Hp & Hc & Hk & ->). exists p.
    split; [by apply list_elem_of_In|]. rewrite Hc.
    apply in_map_iff. exists k. split; [done|]. apply in_seq. lia.
Qed.

(** With one holder per colour the identities given by [startGame] are
    pairwise distinct. *)
Lemma NoDup_initialPieces ps :
  StronglySorted claim_order ps → NoDup (pc_id <$> initialPieces ps).
Proof.
  induction 1 as [|p ps Hps IH Hp]; [constructor|].
  unfold initialPieces. cbn [flat_map]. fold (initialPieces ps).
  rewrite fmap_app. apply NoDup_app. split; [|split; [|done]].
  - destruct (pl_color p) as [c|]; [|constructor].
    destruct c; apply (bool_decide_unpack _); by vm_compute.
  - intros x Hx Hx'.
    destruct (pl_color p) as [c|] eqn:Hc; [|by apply elem_of_nil in Hx].
    apply list_elem_of_fmap in Hx as (q & -> & Hq).
    apply list_elem_of_In, in_map_iff in Hq as (k & <- & Hk). apply in_seq in Hk.
    apply list_elem_of_fmap in Hx' as (q' & Heq & Hq').
    apply elem_of_initialPieces in Hq' as (p' & c' & k' & Hp' & Hc' & Hk' & ->).
    apply newPiece_id_inj in Heq as [-> _]; [|lia|done].
    rewrite Forall_forall in Hp. destruct (Hp p' Hp') as [_ Hdiff].
    by apply (Hdiff c').
Qed.

Lemma pieces_inv_newRoom c playerId playerName mode now :
  pieces_inv (newRoom c playerId playerName mode now).
Proof. split; simpl; try done; constructor. Qed.

Lemma pieces_inv_step r r' :
  players_inv r → game_inv r → pieces_inv r → room_step r r' → pieces_inv r'.
Proof.
  intros Hplayers [Hpos Hids Hdice Hlast] [Hsafe Hnodup Hwin] Hstep.
  destruct Hstep as [pid name Hlen Hs|pid c Hav Ht|pid|Hcan|cp u Hs Hcp Hw
                     |cp roll i piece Hs Hcp Hroll Hfind Hcol Hcan|pid];
    try (by split).
  - split; simpl; try done.
    + eapply Forall_impl; [apply position_initialPieces|].
      intros p [Hp ->]. unfold isPieceOnSafeSpot.
      rewrite Hp. done.
    + by apply NoDup_initialPieces.
  - split; simpl.
    + revert Hsafe. unfold rollState, passTurn. by repeat case_match.
    + revert Hnodup. unfold rollState, passTurn. by repeat case_match.
    + assert (winner (rollState r cp (rollWeightedDice r cp u))
              = winner (gameState r)
              ∧ pieces (rollState r cp (rollWeightedDice r cp u))
                = pieces (gameState r)) as [-> ->]; [|done].
      unfold rollState, passTurn. by repeat case_match.
  - apply pendingRoll_Some in Hroll as (_ & Hd & _).
    pose proof (Hdice _ Hd) as Hrange.
    apply list_find_Some in Hfind as (Hi & _ & _).
    pose proof (roster_resolveMove r cp i piece roll Hi) as Hroster.
    split.
    + apply Forall_lookup. intros k p' Hk.
      apply (resolveMove_lookup _ _ _ _ _ _ _ Hi) in Hk
        as [[-> ->]|[[Hne Hk]|(Hne & other & Hk & _ & ->)]].
      * apply isSafe_checkFinish, isSafe_executeMove.
      * by eapply Forall_lookup_1 in Hsafe; [|exact Hk].
      * done.
    + assert (pc_id <$> pieces (gameState (resolveMove r cp i piece roll).1)
              = pc_id <$> pieces (gameState r)) as ->; [|done].
      unfold roster in Hroster.
      apply (f_equal (fmap fst)) in Hroster.
      by rewrite <- !list_fmap_compose in Hroster.
    + intros c Hc.
      assert (pc_color <$> pieces (gameState (resolveMove r cp i piece roll).1)
              = pc_color <$> pieces (gameState r)) as Hcolors.
      { unfold roster in Hroster.
        apply (f_equal (fmap snd)) in Hroster.
        by rewrite <- !list_fmap_compose in Hroster. }
      rewrite gameState_resolveMove in Hc. cbv zeta in Hc.
      assert (winner (nextTurn r (checkWinner cp (set_pieces (gameState r)
                (pieces (gameState (resolveMove r cp i piece roll).1))))
                roll (resolveMove r cp i piece roll).2) = Some c) as Hc'.
      { rewrite pieces_resolveMove, captured_resolveMove. exact Hc. }
      clear Hc.
      assert (∀ g rl cap, winner (nextTurn r g rl cap) = winner g) as Hnt.
      { intros g rl cap. unfold nextTurn, passTurn. by repeat case_match. }
      rewrite Hnt in Hc'. unfold checkWinner in Hc'. simpl in Hc'.
      destruct (forallb _ _) eqn:Hall; simpl in Hc'.
      * (* the mover has just finished its last piece *)
        split.
        -- exists (checkFinish (executeMove piece roll)). split.
           ++ apply list_elem_of_lookup. exists i.
              rewrite pieces_resolveMove.
              apply list_lookup_insert_eq.
              destruct (checkCapture_cases (executeMove piece roll)
                          (<[i := executeMove piece roll]> (pieces (gameState r))))
                as [->|(j & o & _ & _ & _ & ->)]; simpl;
                rewrite ?length_insert; by eapply lookup_lt_Some.
           ++ rewrite pc_color_checkFinish, pc_color_executeMove. congruence.
        -- intros p Hp Hpc. rewrite forallb_forall in Hall.
           assert (bool_decide (position p = 99) = true) as Hb.
           { apply Hall. unfold piecesOf.
             apply list_elem_of_In, list_elem_of_filter.
             split; [congruence|done]. }
           by apply bool_decide_eq_true in Hb.
      * (* the winner recorded before stays *)
        destruct (Hwin c Hc') as [(p0 & Hp0 & Hp0c) Hhome].
        assert (pc_color piece ≠ c) as Hpiece.
        { intros Heq.
          assert (position piece = 99) as H99
            by (apply Hhome; [by eapply list_elem_of_lookup_2|done]).
          apply canMovePiece_true in Hcan. lia. }
        split.
        -- assert (c ∈ pc_color <$> pieces (gameState r)) as Hin
             by (apply list_elem_of_fmap; by exists p0).
           rewrite <- Hcolors in Hin.
           apply list_elem_of_fmap in Hin as (p' & -> & Hp'). by exists p'.
        -- intros p' Hp' Hp'c.
           apply list_elem_of_lookup in Hp' as [k Hk].
           apply (resolveMove_lookup _ _ _ _ _ _ _ Hi) in Hk
             as [[-> ->]|[[Hne Hk]|(Hne & other & Hk & Hcap & ->)]].
           ++ rewrite pc_color_checkFinish, pc_color_executeMove in Hp'c. done.
           ++ apply Hhome; [by eapply list_elem_of_lookup_2|done].
           ++ apply captured_on_track in Hcap as [Htrack _].
              assert (position other = 99) as H99
                by (apply Hhome; [by eapply list_elem_of_lookup_2|done]).
              lia.
Qed.

Lemma reachable_pieces_inv m c r :
  reachable m → rooms m !! c = Some r → pieces_inv r.
Proof.
  intros Hm Hr.
  assert (players_inv r ∧ game_inv r ∧ pieces_inv r) as (_ & _ & H); [|done].
  eapply (reachable_rooms_ind
            (λ r, players_inv r ∧ game_inv r ∧ pieces_inv r));
    [| |exact Hm|exact Hr].
  - intros. split; [apply players_inv_newRoom|].
    split; [apply game_inv_newRoom|apply pieces_inv_newRoom].
  - intros r0 r0' (Hp & Hg & Hpi) Hstep.
    split; [by eapply players_inv_step|].
    split; [by eapply game_inv_step|by eapply pieces_inv_step].
Qed.

(** ** Positions (C8) *)

Lemma pieces_rollState room cp roll :
  pieces (rollState room cp roll) = pieces (gameState room).
Proof. unfold rollState, passTurn. by repeat case_match. Qed.

(** The positions after a move, piece by piece: with distinct piece ids
    they are the ones the position rule gives. *)
Lemma positions_resolveMove room cp i piece roll :
  NoDup (pc_id <$> pieces (gameState room)) →
  pieces (gameState room) !! i = Some piece →
  position <$> pieces (gameState (resolveMove room cp i piece roll).1)
  = positionAfterMove (pc_id piece) roll (resolveMove room cp i piece roll).2
      <$> pieces (gameState room).
Proof.
  intros Hnd Hi.
  assert (i < length (pieces (gameState room)))%nat as Hlt
    by (by eapply lookup_lt_Some).
  assert (∀ k p, pieces (gameState room) !! k = Some p → k ≠ i →
            pc_id p ≠ pc_id piece) as Hother.
  { intros k p Hk Hne Heq. apply Hne.
    eapply NoDup_lookup; [exact Hnd| |].
    - by rewrite list_lookup_fmap, Hk.
    - rewrite list_lookup_fmap, Hi. simpl. by rewrite Heq. }
  assert (position (checkFinish (executeMove piece roll))
          = positionAfterMove (pc_id piece) roll
              (resolveMove room cp i piece roll).2 piece) as Hmoved.
  { rewrite position_checkFinish, position_executeMove.
    unfold positionAfterMove.
    rewrite (bool_decide_eq_true_2 (pc_id piece = pc_id piece)) by done.
    repeat case_bool_decide; lia. }
  rewrite pieces_resolveMove.
  rewrite captured_resolveMove in Hmoved |- *.
  set (moved := executeMove piece roll) in *.
  apply list_eq. intros k. rewrite !list_lookup_fmap.
  destruct (checkCapture_cases moved (<[i := moved]> (pieces (gameState room))))
    as [Hc|(j & other & Hf & _ & _ & Hc)]; rewrite Hc in Hmoved |- *;
    simpl in *.
  - rewrite list_insert_insert_eq.
    destruct (decide (k = i)) as [->|Hne].
    + rewrite list_lookup_insert_eq by done. rewrite Hi. simpl. by f_equal.
    + rewrite list_lookup_insert_ne by done.
      destruct (pieces (gameState room) !! k) as [p|] eqn:Hk; [|done].
      simpl. f_equal. unfold positionAfterMove.
      rewrite (bool_decide_eq_false_2 (pc_id p = pc_id piece))
        by (by eapply Hother).
      done.
  - apply list_find_Some in Hf as (Hj & (Hid & _) & _).
    assert (j ≠ i) as Hji.
    { intros ->. rewrite list_lookup_insert_eq in Hj by done.
      injection Hj as <-. done. }
    rewrite list_lookup_insert_ne in Hj by done.
    destruct (decide (k = i)) as [->|Hne].
    + rewrite list_lookup_insert_eq
        by (by rewrite !length_insert).
      rewrite Hi. simpl. by f_equal.
    + rewrite list_lookup_insert_ne by done.
      destruct (decide (k = j)) as [->|Hnj].
      * rewrite list_lookup_insert_eq by (rewrite length_insert;
                                           by eapply lookup_lt_Some).
        rewrite Hj. simpl. f_equal. unfold positionAfterMove.
        rewrite (bool_decide_eq_false_2 (pc_id other = pc_id piece))
          by (unfold moved in Hid; by rewrite pc_id_executeMove in Hid).
        simpl. by rewrite bool_decide_eq_true_2.
      * rewrite !list_lookup_insert_ne by done.
        destruct (pieces (gameState room) !! k) as [p|] eqn:Hk; [|done].
        simpl. f_equal. unfold positionAfterMove.
        rewrite (bool_decide_eq_false_2 (pc_id p = pc_id piece))
          by (by eapply Hother).
        simpl. rewrite bool_decide_eq_false_2; [done|].
        intros [= Heq]. apply Hnj.
        eapply NoDup_lookup; [exact Hnd| |].
        -- by rewrite list_lookup_fmap, Hk.
        -- rewrite list_lookup_fmap, Hj. simpl. by rewrite Heq.
Qed.

(** C8: the positions of the pieces.  In every reachable state every piece
    of every room is at a position of [{-1} ∪ [0,56] ∪ {99}].  A successful
    [startGame] creates every piece at -1.  A successful [movePiece] of the
    piece [pieceId] by the pending roll changes the positions as the
    position rule says: the moved piece goes from base to 0 (the roll is
    then a 6) or advances by the roll (to at most 57), a resulting 57
    becoming 99 at once; the captured piece, a piece of the room that stood
    on the main track, returns to -1; every other piece keeps its position.
    So a piece is at 99 after the move only if it was there before or is the
    moved piece with position + roll = 57, and newly in base only if it is
    the captured one.  Nothing else changes a position: after any message,
    the pieces of a room are those it had before unless the message was a
    successful [start_game] or [move_piece] for that room. *)
Theorem piece_positions_valid m :
  reachable m →
  (∀ c r, rooms m !! c = Some r →
     Forall (λ p, validPosition (position p)) (pieces (gameState r)))
  ∧ (∀ playerId m' room',
       startGame m playerId = (m', Ok room') →
       Forall (λ p, position p = -1) (pieces (gameState room')))
  ∧ (∀ playerId pieceId m' room' captured,
       movePiece m playerId pieceId = (m', Ok (room', captured)) →
       ∃ roomCode room roll,
         findRoom m playerId = Some (roomCode, room)
         ∧ pendingRoll (gameState room) = Some roll
         ∧ 1 ≤ roll ≤ 6
         ∧ rooms m' !! roomCode = Some room'
         ∧ position <$> pieces (gameState room')
           = positionAfterMove pieceId roll captured
               <$> pieces (gameState room)
         ∧ (∃ p, p ∈ pieces (gameState room) ∧ pc_id p = pieceId
               ∧ (position p = -1 → roll = 6)
               ∧ (position p ≠ -1 → position p + roll ≤ 57))
         ∧ (∀ q, captured = Some q →
              q ∈ pieces (gameState room) ∧ pc_id q ≠ pieceId
              ∧ 0 ≤ position q ≤ 50)
         ∧ (∀ k p p',
              pieces (gameState room) !! k = Some p →
              pieces (gameState room') !! k = Some p' →
              (position p' = 99 →
               position p = 99 ∨ (pc_id p = pieceId ∧ position p + roll = 57))
              ∧ (position p' = -1 →
                 position p = -1 ∨ pc_id <$> captured = Some (pc_id p))))
  ∧ (∀ clientId msg c r',
       rooms (handleMessage m clientId msg) !! c = Some r' →
       match rooms m !! c with
       | Some r => pieces (gameState r') = pieces (gameState r)
       | None => pieces (gameState r') = []
       end
       ∨ (msg = msg_start_game
          ∧ startGame m clientId = (handleMessage m clientId msg, Ok r'))
       ∨ (∃ pieceId captured,
            msg = msg_move_piece pieceId
            ∧ movePiece m clientId pieceId
              = (handleMessage m clientId msg, Ok (r', captured)))).
Proof.
  intros Hm. split; [|split; [|split]].
  - intros c r Hr. by destruct (reachable_game_inv m c r Hm Hr).
  - intros playerId m' room'. unfold startGame.
    destruct (findRoom m playerId) as [[roomCode room]|]; [|done].
    destruct (canStartGame room); [|done]. simpl. intros [= <- <-]. simpl.
    eapply Forall_impl; [apply position_initialPieces|]. by intros p [? _].
  - intros playerId pieceId m' room' captured Hmove.
    apply movePiece_Ok in Hmove
      as (roomCode & room & cp & roll & i & piece & Hf & Hs & Hcp & Hid & Hroll
          & Hfind & Hcol & Hcan & Hres & ->).
    pose proof (findRoom_Some _ _ _ _ Hf) as [_ Hr].
    destruct (reachable_game_inv m roomCode room Hm Hr) as [Hpos _ Hdice _].
    destruct (reachable_pieces_inv m roomCode room Hm Hr) as [_ Hnd _].
    pose proof Hroll as Hroll'.
    apply pendingRoll_Some in Hroll' as (_ & Hd & _).
    pose proof (Hdice _ Hd) as Hrange.
    apply list_find_Some in Hfind as (Hi & Hpid & _).
    assert (room' = (resolveMove room cp i piece roll).1) as ->
      by (by rewrite Hres).
    assert (captured = (resolveMove room cp i piece roll).2) as Hcap
      by (by rewrite Hres).
    pose proof (positions_resolveMove room cp i piece roll Hnd Hi) as Heq.
    rewrite Hpid, <- Hcap in Heq.
    exists roomCode, room, roll.
    split; [done|]. split; [done|]. split; [done|].
    split; [simpl; apply lookup_insert_eq|]. split; [exact Heq|].
    split.
    { exists piece. split; [by eapply list_elem_of_lookup_2|]. split; [done|].
      apply canMovePiece_true in Hcan. lia. }
    split.
    { intros q ->. symmetry in Hcap.
      pose proof (captured_on_track _ _ _ _ _ _ Hcap) as [Hq _].
      rewrite captured_resolveMove in Hcap.
      destruct (checkCapture_cases (executeMove piece roll)
                  (<[i := executeMove piece roll]> (pieces (gameState room))))
        as [Hc|(j & other & Hfc & _ & _ & Hc)]; rewrite Hc in Hcap;
        simpl in Hcap; [done|].
      injection Hcap as ->.
      apply list_find_Some in Hfc as (Hj & (Hqid & _) & _).
      rewrite pc_id_executeMove, Hpid in Hqid.
      assert (j ≠ i) as Hji.
      { intros ->. rewrite list_lookup_insert_eq in Hj
          by (by eapply lookup_lt_Some).
        injection Hj as <-. by rewrite pc_id_executeMove, Hpid in Hqid. }
      rewrite list_lookup_insert_ne in Hj by done.
      split; [by eapply list_elem_of_lookup_2|]. done. }
    intros k p p' Hk Hk'.
    assert (position p' = positionAfterMove pieceId roll captured p) as Hp'.
    { assert ((position <$> pieces (gameState (resolveMove room cp i piece roll).1))
                !! k = Some (position p')) as H1
        by (by rewrite list_lookup_fmap, Hk').
      rewrite Heq, list_lookup_fmap, Hk in H1. by injection H1. }
    assert (validPosition (position p)) as Hv
      by (by eapply Forall_lookup_1 in Hpos; [|exact Hk]).
    rewrite Hp'. unfold positionAfterMove, validPosition in *.
    split; intros H99; repeat case_bool_decide; try lia; by right.
  - intros clientId msg c r' Hr'.
    destruct msg as [playerName mode draws now|roomCode playerName|col| |
                     |u|pieceId|].
    1, 2, 3, 4, 6, 8: left.
    1, 2, 3, 4, 5, 6:
      apply manager_step_msg in Hr'
        as [Hr|[(r & Hr & Heff)|(Hnone & pn & md & dr & nw & _ & ->)]];
      [by rewrite Hr| |by rewrite Hnone].
    + done.
    + rewrite Hr. by destruct Heff as (_ & _ & ->).
    + rewrite Hr. by destruct Heff as (_ & _ & ->).
    + rewrite Hr. by rewrite Heff.
    + rewrite Hr. destruct Heff as (cp & _ & _ & _ & _ & ->).
      apply pieces_rollState.
    + rewrite Hr. by destruct Heff as (-> & _).
    + simpl in Hr' |- *.
      destruct (startGame m clientId) as [m' [room'| |e]] eqn:Hstart.
      * revert Hstart. unfold startGame.
        destruct (findRoom m clientId) as [[roomCode room]|]; [|done].
        destruct (canStartGame room); [|done]. simpl. intros [= <- <-].
        simpl in Hr'. rewrite lookup_insert in Hr'. case_decide as Hc.
        -- injection Hr' as <-. right; left. done.
        -- left. by rewrite Hr'.
      * assert (m' = m) as -> by (by eapply startGame_failed).
        left. simpl in Hr'. by rewrite Hr'.
      * assert (m' = m) as -> by (by eapply startGame_failed).
        left. simpl in Hr'. by rewrite Hr'.
    + simpl in Hr' |- *.
      destruct (movePiece m clientId pieceId) as [m' [[room' cap]| |e]]
        eqn:Hmove.
      * pose proof Hmove as Hmove'.
        apply movePiece_Ok in Hmove'
          as (roomCode & room & _ & _ & _ & _ & _ & _ & _ & _ & _ & _ & _ & _
              & _ & ->).
        simpl in Hr'. rewrite lookup_insert in Hr'. case_decide as Hc.
        -- injection Hr' as <-. right; right. by exists pieceId, cap.
        -- left. by rewrite Hr'.
      * assert (m' = m) as -> by (by eapply movePiece_failed).
        left. simpl in Hr'. by rewrite Hr'.
      * assert (m' = m) as -> by (by eapply movePiece_failed).
        left. simpl in Hr'. by rewrite Hr'.
Qed.

Lemma piece_positions_valid_witness :
  ∃ m' room' captured,
    movePiece (run emptyManager redReachesYellow) "a" "red-0"
    = (m', Ok (room', captured))
    ∧ position <$> pieces (gameState room') = [27; -1; -1; -1; -1; -1; -1; -1].
Proof.
  eexists _, _, _.
  match goal with |- ?A ∧ _ => assert A as Hmove end.
  { vm_compute. reflexivity. }
  split; [exact Hmove|].
  destruct (piece_positions_valid (run emptyManager redReachesYellow)
              ltac:(by eexists)) as (_ & _ & H & _).
  destruct (H _ _ _ _ _ Hmove) as (roomCode & room & roll & Hf & Hroll & _ & _
                                   & Heq & _).
  vm_compute in Hf. injection Hf as <- <-.
  vm_compute in Hroll. injection Hroll as <-.
  rewrite Heq. vm_compute. reflexivity.
Defined.

(** ** The participant index *)

Lemma store_room_ids m roomCode room room' :
  rooms m !! roomCode = Some room →
  pl_id <$> players room' = pl_id <$> players room →
  ∀ c r, rooms m !! c = Some r →
    ∃ r', rooms (store_room m roomCode room') !! c = Some r'
        ∧ pl_id <$> players r' = pl_id <$> players r.
Proof.
  intros Hroom Hids c r Hr. simpl.
  destruct (decide (roomCode = c)) as [->|Hne].
  - rewrite lookup_insert_eq. exists room'. split; [done|]. congruence.
  - rewrite lookup_insert_ne by done. by exists r.
Qed.

(** The operations of the lobby and of the game other than [createRoom],
    [joinRoom] and [leaveRoom] keep the participant index and, room by room,
    the participant ids of the player list. *)
Lemma handleMessage_keeps_ids m clientId msg :
  (∀ n md dr now, msg ≠ msg_create n md dr now) →
  (∀ rc n, msg ≠ msg_join rc n) →
  msg ≠ msg_leave →
  playerToRoom (handleMessage m clientId msg) = playerToRoom m
  ∧ ∀ c r, rooms m !! c = Some r →
      ∃ r', rooms (handleMessage m clientId msg) !! c = Some r'
          ∧ pl_id <$> players r' = pl_id <$> players r.
Proof.
  intros Hcreate Hjoin Hleave.
  assert (∀ c r, rooms m !! c = Some r →
            ∃ r', rooms m !! c = Some r'
                ∧ pl_id <$> players r' = pl_id <$> players r) as Hsame
    by (intros c r Hr; by exists r).
  destruct msg as [playerName mode draws now|roomCode playerName|col| | |u|pieceId|];
    simpl; try done.
  - by destruct (Hcreate playerName mode draws now).
  - by destruct (Hjoin roomCode playerName).
  - unfold chooseColor.
    destruct (findRoom m clientId) as [[roomCode room]|] eqn:Hf; simpl; [|done].
    apply findRoom_Some in Hf as [_ Hr].
    case_bool_decide; simpl; [|done].
    destruct (color_taken _ _ _); simpl; [done|].
    split; [done|]. eapply store_room_ids; [done|]. simpl.
    by apply fmap_update_player.
  - unfold setReady.
    destruct (findRoom m clientId) as [[roomCode room]|] eqn:Hf; simpl; [|done].
    apply findRoom_Some in Hf as [_ Hr].
    split; [done|]. eapply store_room_ids; [done|]. simpl.
    apply fmap_update_player. intros p. unfold markReady. by destruct (pl_color p).
  - unfold startGame.
    destruct (findRoom m clientId) as [[roomCode room]|] eqn:Hf; simpl; [|done].
    apply findRoom_Some in Hf as [_ Hr].
    destruct (canStartGame room); simpl; [|done].
    split; [done|]. by eapply store_room_ids.
  - destruct (rollDice m clientId u) as [m' [[room' roll]| |e]] eqn:Hroll; simpl.
    + apply rollDice_Ok in Hroll
        as (roomCode & room & cp & Hf & _ & _ & _ & _ & _ & -> & ->).
      apply findRoom_Some in Hf as [_ Hr].
      split; [done|]. by eapply store_room_ids.
    + assert (m' = m) as ->; [|done].
      revert Hroll. unfold rollDice. repeat case_match; by intros [= <-].
    + assert (m' = m) as ->; [|done].
      revert Hroll. unfold rollDice. repeat case_match; by intros [= <-].
  - destruct (movePiece m clientId pieceId) as [m' [[room' cap]| |e]] eqn:Hmove;
      simpl.
    + apply movePiece_Ok in Hmove
        as (roomCode & room & cp & roll & i & piece & Hf & _ & _ & _ & _
            & _ & _ & _ & Hres & ->).
      apply findRoom_Some in Hf as [_ Hr].
      split; [done|]. eapply store_room_ids; [done|].
      replace room' with (resolveMove room cp i piece roll).1 by (by rewrite Hres).
      by rewrite players_resolveMove.
    + assert (m' = m) as ->; [|done].
      revert Hmove. unfold movePiece. repeat case_match; by intros [= <-].
    + assert (m' = m) as ->; [|done].
      revert Hmove. unfold movePiece. repeat case_match; by intros [= <-].
Qed.

Lemma membership_inv_step m clientId msg :
  membership_inv m → membership_inv (handleMessage m clientId msg).
Proof.
  intros Hinv.
  assert (∀ msg',
            (∀ n md dr now, msg' ≠ msg_create n md dr now) →
            (∀ rc n, msg' ≠ msg_join rc n) →
            msg' ≠ msg_leave →
            membership_inv (handleMessage m clientId msg')) as Hother.
  { intros msg' H1 H2 H3.
    destruct (handleMessage_keeps_ids m clientId msg' H1 H2 H3) as [Hp2r Hrooms].
    intros pid c0. rewrite Hp2r. intros Hpid.
    destruct (Hinv pid c0 Hpid) as (r & Hr & Hin).
    destruct (Hrooms c0 r Hr) as (r' & Hr' & Hids).
    exists r'. split; [done|]. by rewrite Hids. }
  destruct msg as [n md dr now|rc n|col| | |u|pieceId|];
    try (by apply Hother).
  { simpl. unfold createRoom.
    destruct (generateRoomCode m dr) as [c|] eqn:Hg; simpl; [|done].
    apply generateRoomCode_fresh in Hg.
    intros pid c0. simpl.
    rewrite lookup_insert_Some. intros [[<- <-]|[Hne Hp]].
    - rewrite lookup_insert_eq. eexists. split; [done|]. simpl.
      by apply list_elem_of_singleton.
    - destruct (Hinv pid c0 Hp) as (r & Hr & Hin).
      assert (c ≠ c0) by congruence.
      rewrite lookup_insert_ne by done. by exists r. }
  { simpl. unfold joinRoom.
    destruct (rooms m !! rc) as [room|] eqn:Hr; simpl; [|done].
    case_bool_decide; simpl; [done|].
    destruct (started (gameState room)); simpl; [done|].
    intros pid c0. simpl.
    rewrite lookup_insert_Some. intros [[<- <-]|[Hne Hp]].
    - rewrite lookup_insert_eq. eexists. split; [done|]. simpl.
      rewrite fmap_app. apply elem_of_app. right. by apply list_elem_of_singleton.
    - destruct (Hinv pid c0 Hp) as (r & Hr0 & Hin).
      destruct (decide (rc = c0)) as [->|Hc].
      + rewrite lookup_insert_eq. eexists. split; [done|]. simpl.
        rewrite fmap_app. rewrite Hr in Hr0. injection Hr0 as <-.
        apply elem_of_app. by left.
      + rewrite lookup_insert_ne by done. by exists r. }
  { simpl. unfold leaveRoom.
    destruct (playerToRoom m !! clientId) as [rc|] eqn:Hp; simpl; [|done].
    destruct (rooms m !! rc) as [room|] eqn:Hr; simpl; [|done].
    assert (∀ pid c0, delete clientId (playerToRoom m) !! pid = Some c0 →
              ∃ r, <[rc := set_players room
                              (filter (λ p, pl_id p ≠ clientId) (players room))]>
                     (rooms m) !! c0 = Some r
                 ∧ pid ∈ pl_id <$> players r) as Hkept.
    { intros pid c0. rewrite lookup_delete_Some. intros [Hne Hpid].
      destruct (Hinv pid c0 Hpid) as (r & Hr0 & Hin).
      destruct (decide (rc = c0)) as [->|Hc].
      - rewrite lookup_insert_eq. eexists. split; [done|]. simpl.
        rewrite Hr in Hr0. injection Hr0 as <-.
        apply list_elem_of_fmap in Hin as (p & -> & Hin).
        apply list_elem_of_fmap. exists p. split; [done|].
        apply list_elem_of_filter. split; [congruence|done].
      - rewrite lookup_insert_ne by done. by exists r. }
    case_bool_decide as Hempty; simpl; [|exact Hkept].
    intros pid c0 Hpid. simpl in *.
    destruct (Hkept pid c0 Hpid) as (r & Hr0 & Hin).
    destruct (decide (rc = c0)) as [->|Hc].
    - rewrite lookup_insert_eq in Hr0. injection Hr0 as <-. simpl in Hin.
      destruct (filter _ (players room)); [by apply elem_of_nil in Hin|done].
    - rewrite lookup_delete_ne by done. by exists r. }
Qed.

Lemma reachable_membership_inv m : reachable m → membership_inv m.
Proof.
  intros [msgs ->].
  induction msgs as [|[clientId msg] msgs IH] using rev_ind.
  - intros pid c. simpl. by rewrite lookup_empty.
  - rewrite run_snoc. by apply membership_inv_step.
Qed.

(** ** Invariants of reachable managers, as properties of the operations *)

(** X1 ([createRoom], [joinRoom], [leaveRoom]): every room of a reachable
    manager is stored under its own code, so [getRoomByCode (code r)] finds
    it; it has at least one player and never more than the capacity of its
    mode. *)
Theorem registry_rooms_wf m c r :
  reachable m → rooms m !! c = Some r →
  code r = c
  ∧ getRoomByCode m (code r) = Some r
  ∧ players r ≠ []
  ∧ (1 ≤ length (players r) ≤ maxPlayers (gameMode r))%nat.
Proof.
  intros Hm Hr. destruct (reachable_room_wf m c r Hm Hr) as (Hc & Hne & Hcap).
  split; [done|]. split; [unfold getRoomByCode; by rewrite Hc|].
  split; [done|]. destruct (players r); [done|simpl in *; lia].
Qed.

Lemma registry_rooms_wf_witness :
  ∃ r, rooms (run emptyManager activePlayerLeaves) !! "ABC123"%string = Some r
     ∧ code r = "ABC123"%string
     ∧ (1 ≤ length (players r) ≤ maxPlayers (gameMode r))%nat.
Proof.
  eexists. split; [vm_compute; reflexivity|].
  destruct (registry_rooms_wf (run emptyManager activePlayerLeaves)
              "ABC123" _ ltac:(by eexists) ltac:(vm_compute; reflexivity))
    as (Hc & _ & _ & Hl).
  split; [exact Hc|exact Hl].
Defined.

(** X2 ([playerToRoom]): in a reachable manager the participant index is
    never stale: a participant recorded for a code has a room under that
    code and is listed among its players, so [getRoom] succeeds. *)
Theorem participant_index_sound m playerId c :
  reachable m → playerToRoom m !! playerId = Some c →
  ∃ r, findRoom m playerId = Some (c, r)
     ∧ getRoom m playerId = Some r
     ∧ playerId ∈ pl_id <$> players r.
Proof.
  intros Hm Hp.
  destruct (reachable_membership_inv m Hm playerId c Hp) as (r & Hr & Hin).
  exists r. unfold getRoom, findRoom. rewrite Hp, Hr. done.
Qed.

Lemma participant_index_sound_witness :
  ∃ r, findRoom (run emptyManager redReachesYellow) "b" = Some ("ABC123"%string, r)
     ∧ "b"%string ∈ pl_id <$> players r.
Proof.
  destruct (participant_index_sound (run emptyManager redReachesYellow) "b" "ABC123"
              ltac:(by eexists) ltac:(vm_compute; reflexivity))
    as (r & Hf & _ & Hin).
  exists r. split; [exact Hf|exact Hin].
Defined.

(** X3 ([setReady], [chooseColor], [joinRoom]): in a reachable room a ready
    player always holds a colour, and as long as the game has not started
    the game state is the initial one: no pieces, turn index 0, nothing
    rolled, no winner. *)
Theorem lobby_ready_has_color m c r :
  reachable m → rooms m !! c = Some r →
  Forall (λ p, ready p = true → ∃ col, pl_color p = Some col) (players r)
  ∧ (started (gameState r) = false → gameState r = initialGameState).
Proof.
  intros Hm Hr. destruct (reachable_lobby_inv m c r Hm Hr) as [Hready Hns _ _].
  split; [|done].
  eapply Forall_impl; [exact Hready|]. intros p Hp Hrd.
  destruct (pl_color p) as [col|] eqn:Hc; [by exists col|].
  exfalso. by apply (Hp Hrd).
Qed.

Lemma lobby_ready_has_color_witness :
  ∃ r, rooms (run emptyManager lobbyReady) !! "ABC123"%string = Some r
     ∧ Forall (λ p, ready p = true → ∃ col, pl_color p = Some col) (players r)
     ∧ gameState r = initialGameState.
Proof.
  eexists. split; [vm_compute; reflexivity|].
  destruct (lobby_ready_has_color (run emptyManager lobbyReady) "ABC123" _
              ltac:(by eexists) ltac:(vm_compute; reflexivity)) as [H1 H2].
  split; [exact H1|]. apply H2. reflexivity.
Defined.

Lemma NoDup_ids_colored ps :
  StronglySorted claim_order ps → Forall (λ p, pl_color p ≠ None) ps →
  NoDup (pl_id <$> ps) ∧ NoDup (pl_color <$> ps).
Proof.
  induction 1 as [|p ps Hps IH Hp]; intros Hall; [split; constructor|].
  apply Forall_cons in Hall as [Hpc Hall].
  destruct (IH Hall) as [IH1 IH2].
  rewrite Forall_forall in Hp, Hall.
  split; simpl; constructor; try done.
  - intros Hin. apply list_elem_of_fmap in Hin as (q & Heq & Hq).
    destruct (Hp q Hq) as [Hnone _]. by apply (Hall q Hq), Hnone.
  - intros Hin. apply list_elem_of_fmap in Hin as (q & Heq & Hq).
    destruct (Hp q Hq) as [_ Hdiff].
    destruct (pl_color p) as [col|] eqn:Hc; [|done].
    by apply (Hdiff col).
Qed.

(** X4 ([startGame], [joinRoom], [chooseColor]): in a started room of a
    reachable manager every player holds a colour, no two players hold the
    same colour, and no participant is listed twice. *)
Theorem started_room_players m c r :
  reachable m → rooms m !! c = Some r → started (gameState r) = true →
  Forall (λ p, ∃ col, pl_color p = Some col) (players r)
  ∧ NoDup (pl_color <$> players r)
  ∧ NoDup (pl_id <$> players r).
Proof.
  intros Hm Hr Hs.
  destruct (reachable_lobby_inv m c r Hm Hr) as [_ _ Hsc _].
  pose proof (reachable_players_inv m c r Hm Hr) as Hord.
  destruct (NoDup_ids_colored _ Hord (Hsc Hs)) as [Hids Hcols].
  split; [|done].
  eapply Forall_impl; [exact (Hsc Hs)|]. intros p Hp.
  destruct (pl_color p) as [col|] eqn:Hc; [by exists col|done].
Qed.

Lemma started_room_players_witness :
  ∃ r, rooms (run emptyManager redReachesYellow) !! "ABC123"%string = Some r
     ∧ NoDup (pl_color <$> players r)
     ∧ NoDup (pl_id <$> players r).
Proof.
  eexists. split; [vm_compute; reflexivity|].
  destruct (started_room_players (run emptyManager redReachesYellow) "ABC123" _
              ltac:(by eexists) ltac:(vm_compute; reflexivity)
              ltac:(vm_compute; reflexivity)) as (_ & H1 & H2).
  split; [exact H1|exact H2].
Defined.

(** X5 ([rollDice], [movePiece]): in a reachable room a move is owed exactly
    when a roll is recorded; a recorded roll is a face 1..6 and is the roll
    [movePiece] will use; the bias seed, when set, is a face 1..6 too. *)
Theorem owed_move_iff_roll m c r :
  reachable m → rooms m !! c = Some r →
  (waitingForMove (gameState r) = true ↔ diceValue (gameState r) ≠ None)
  ∧ (∀ d, diceValue (gameState r) = Some d →
       1 ≤ d ≤ 6 ∧ pendingRoll (gameState r) = Some d)
  ∧ (∀ d, lastDiceValue (gameState r) = Some d → 1 ≤ d ≤ 6).
Proof.
  intros Hm Hr.
  destruct (reachable_lobby_inv m c r Hm Hr) as [_ _ _ Howed].
  destruct (reachable_game_inv m c r Hm Hr) as [_ _ Hdice Hlast].
  split; [done|]. split; [|done].
  intros d Hd. pose proof (Hdice d Hd) as Hrange. split; [done|].
  unfold pendingRoll.
  assert (waitingForMove (gameState r) = true) as ->
    by (apply Howed; by rewrite Hd).
  rewrite Hd. rewrite bool_decide_eq_false_2 by lia. done.
Qed.

Lemma owed_move_iff_roll_witness :
  ∃ r, rooms (run emptyManager redOwesMove) !! "ABC123"%string = Some r
     ∧ waitingForMove (gameState r) = true
     ∧ pendingRoll (gameState r) = Some 6.
Proof.
  eexists. split; [vm_compute; reflexivity|].
  destruct (owed_move_iff_roll (run emptyManager redOwesMove) "ABC123" _
              ltac:(by eexists) ltac:(vm_compute; reflexivity)) as (H1 & H2 & _).
  split; [apply H1; vm_compute; discriminate|].
  apply (H2 6). vm_compute. reflexivity.
Defined.

(** X6 ([movePiece], [startGame], [isPieceOnSafeSpot]): in a reachable room
    the stored [isSafe] flag of every piece equals what [isPieceOnSafeSpot]
    computes from its position and colour. *)
Theorem safe_flag_consistent m c r p :
  reachable m → rooms m !! c = Some r → p ∈ pieces (gameState r) →
  isSafe p = isPieceOnSafeSpot p.
Proof.
  intros Hm Hr Hp.
  destruct (reachable_pieces_inv m c r Hm Hr) as [Hsafe _ _].
  rewrite Forall_forall in Hsafe. by apply Hsafe.
Qed.

Lemma safe_flag_consistent_witness :
  ∃ r p, rooms (run emptyManager redReachesYellow) !! "ABC123"%string = Some r
       ∧ pieces (gameState r) !! 0%nat = Some p
       ∧ position p = 25
       ∧ isSafe p = isPieceOnSafeSpot p.
Proof.
  eexists _, _. split; [vm_compute; reflexivity|].
  split; [vm_compute; reflexivity|]. split; [reflexivity|].
  apply (safe_flag_consistent (run emptyManager redReachesYellow) "ABC123" _ _
           ltac:(by eexists) ltac:(vm_compute; reflexivity)).
  apply list_elem_of_lookup. exists 0%nat. vm_compute. reflexivity.
Defined.

(** X7 ([startGame], [movePiece]): in a reachable room no two pieces share
    an identity, so the lookup of [movePiece] by [pieceId] finds every piece
    by its own id. *)
Theorem piece_ids_unique m c r i p :
  reachable m → rooms m !! c = Some r →
  pieces (gameState r) !! i = Some p →
  NoDup (pc_id <$> pieces (gameState r))
  ∧ list_find (λ q, pc_id q = pc_id p) (pieces (gameState r)) = Some (i, p).
Proof.
  intros Hm Hr Hi.
  destruct (reachable_pieces_inv m c r Hm Hr) as [_ Hnodup _].
  split; [done|].
  apply list_find_Some. split; [done|]. split; [done|].
  intros j q Hj Hlt Heq.
  assert (i = j); [|lia].
  eapply NoDup_lookup; [exact Hnodup| |].
  - by rewrite list_lookup_fmap, Hi.
  - rewrite list_lookup_fmap, Hj. simpl. by rewrite Heq.
Qed.

Lemma piece_ids_unique_witness :
  ∃ r p, rooms (run emptyManager redReachesYellow) !! "ABC123"%string = Some r
       ∧ pieces (gameState r) !! 5%nat = Some p
       ∧ list_find (λ q, pc_id q = pc_id p) (pieces (gameState r))
         = Some (5%nat, p).
Proof.
  eexists _, _. split; [vm_compute; reflexivity|].
  split; [vm_compute; reflexivity|].
  apply (piece_ids_unique (run emptyManager redReachesYellow) "ABC123" _ 5%nat _
           ltac:(by eexists) ltac:(vm_compute; reflexivity)
           ltac:(vm_compute; reflexivity)).
Defined.

(** X8 ([movePiece]): in a reachable room a recorded winner is a colour
    that has pieces on the board, all of them at 99. *)
Theorem winner_has_all_home m c r col :
  reachable m → rooms m !! c = Some r → winner (gameState r) = Some col →
  (∃ p, p ∈ pieces (gameState r) ∧ pc_color p = col)
  ∧ ∀ p, p ∈ pieces (gameState r) → pc_color p = col →
         position p = 99 ∧ isSafe p = true.
Proof.
  intros Hm Hr Hw.
  destruct (reachable_pieces_inv m c r Hm Hr) as [Hsafe _ Hwin].
  destruct (Hwin col Hw) as [Hex Hall].
  split; [done|]. intros p Hp Hc.
  pose proof (Hall p Hp Hc) as H99. split; [done|].
  rewrite Forall_forall in Hsafe. rewrite (Hsafe p Hp).
  unfold isPieceOnSafeSpot. rewrite H99. done.
Qed.

Lemma winner_has_all_home_witness :
  ∃ r, rooms (run emptyManager redWins) !! "ABC123"%string = Some r
     ∧ winner (gameState r) = Some red
     ∧ ∀ p, p ∈ pieces (gameState r) → pc_color p = red →
            position p = 99 ∧ isSafe p = true.
Proof.
  eexists. split; [vm_compute; reflexivity|].
  split; [vm_compute; reflexivity|].
  apply (winner_has_all_home (run emptyManager redWins) "ABC123" _ red
           ltac:(by eexists) ltac:(vm_compute; reflexivity)
           ltac:(vm_compute; reflexivity)).
Defined.

Lemma roster_msg_effect clientId msg r r' :
  msg ≠ msg_start_game → msg_effect clientId msg r r' → roster r' = roster r.
Proof.
  intros Hns.
  destruct msg as [playerName mode draws now|roomCode playerName|col| | |u|pieceId|];
    simpl; try done.
  - by intros (_ & _ & ->).
  - by intros (_ & _ & ->).
  - by intros ->.
  - intros (cp & _ & _ & _ & _ & ->). unfold roster. simpl.
    unfold rollState, passTurn. by repeat case_match.
  - intros (cp & roll & i & piece & _ & _ & _ & _ & Hfind & _ & _ & ->).
    apply list_find_Some in Hfind as (Hi & _ & _).
    by apply roster_resolveMove.
  - by intros (-> & _).
Qed.

(** X9 ([rollDice], [movePiece] and the lobby operations): no message other
    than [start_game] changes the identities or colours of the pieces of a
    room, nor their order or number; rolls and moves change positions and
    safe flags only. *)
Theorem roster_fixed_between_starts m clientId msg c r r' :
  msg ≠ msg_start_game →
  rooms m !! c = Some r →
  rooms (handleMessage m clientId msg) !! c = Some r' →
  roster r' = roster r
  ∧ length (pieces (gameState r')) = length (pieces (gameState r)).
Proof.
  intros Hns Hr Hr'.
  assert (roster r' = roster r) as Hroster.
  { apply manager_step_msg in Hr'
      as [Hr'|[(r0 & Hr0 & Heff)|(Hnone & _)]].
    - congruence.
    - rewrite Hr in Hr0. injection Hr0 as <-. by eapply roster_msg_effect.
    - congruence. }
  split; [done|].
  apply (f_equal length) in Hroster. unfold roster in Hroster.
  by rewrite !length_fmap in Hroster.
Qed.

Lemma roster_fixed_between_starts_witness :
  ∃ r r',
    rooms (run emptyManager redReachesYellow) !! "ABC123"%string = Some r
    ∧ rooms (handleMessage (run emptyManager redReachesYellow) "a"
               (msg_move_piece "red-0")) !! "ABC123"%string = Some r'
    ∧ roster r' = roster r.
Proof.
  eexists _, _. split; [vm_compute; reflexivity|].
  split; [vm_compute; reflexivity|].
  apply (roster_fixed_between_starts (run emptyManager redReachesYellow) "a"
           (msg_move_piece "red-0") "ABC123" _ _
           ltac:(discriminate) ltac:(vm_compute; reflexivity)
           ltac:(vm_compute; reflexivity)).
Defined.

(** X10 ([movePiece], [rollDice]): in a reachable manager a piece at 99
    stays at 99 through every message other than [start_game]: it can
    neither move on nor be captured. *)
Theorem finished_piece_stays m clientId msg c r r' k p :
  reachable m →
  msg ≠ msg_start_game →
  rooms m !! c = Some r →
  rooms (handleMessage m clientId msg) !! c = Some r' →
  pieces (gameState r) !! k = Some p →
  position p = 99 →
  ∃ p', pieces (gameState r') !! k = Some p'
      ∧ pc_id p' = pc_id p
      ∧ position p' = 99.
Proof.
  intros Hm Hns Hr Hr' Hk H99.
  pose proof (reachable_game_inv m c r Hm Hr) as [_ _ Hdice _].
  assert (roster r' = roster r) as Hroster.
  { apply manager_step_msg in Hr' as [Hr'|[(r0 & Hr0 & Heff)|(Hnone & _)]].
    - congruence.
    - rewrite Hr in Hr0. injection Hr0 as <-. by eapply roster_msg_effect.
    - congruence. }
  assert (∃ p', pieces (gameState r') !! k = Some p' ∧ pc_id p' = pc_id p)
    as (p' & Hk' & Hid).
  { assert (roster r' !! k = Some (pc_id p, pc_color p)) as Hl
      by (rewrite Hroster; unfold roster; by rewrite list_lookup_fmap, Hk).
    unfold roster in Hl. rewrite list_lookup_fmap in Hl.
    destruct (pieces (gameState r') !! k) as [p'|]; [|done].
    exists p'. split; [done|]. by injection Hl. }
  exists p'. split; [done|]. split; [done|].
  apply manager_step_msg in Hr' as [Hr'|[(r0 & Hr0 & Heff)|(Hnone & _)]].
  - assert (r' = r) as -> by congruence. congruence.
  - rewrite Hr in Hr0. injection Hr0 as <-.
    destruct msg as [playerName mode draws now|roomCode playerName|col| | |u|pieceId|];
      simpl in Heff; try done.
    + destruct Heff as (_ & _ & ->). simpl in Hk'. congruence.
    + destruct Heff as (_ & _ & ->). simpl in Hk'. congruence.
    + subst r'. simpl in Hk'. congruence.
    + destruct Heff as (cp & _ & _ & _ & _ & ->).
      assert (pieces (gameState (set_gameState r
                (rollState r cp (rollWeightedDice r cp u))))
              = pieces (gameState r)) as Hsame
        by (simpl; unfold rollState, passTurn; by repeat case_match).
      rewrite Hsame in Hk'. congruence.
    + destruct Heff as (cp & roll & i & piece & _ & _ & _ & Hroll & Hfind & _
                        & Hcan & ->).
      apply pendingRoll_Some in Hroll as (_ & Hd & _).
      pose proof (Hdice _ Hd) as Hrange.
      apply list_find_Some in Hfind as (Hi & _ & _).
      apply canMovePiece_true in Hcan.
      apply (resolveMove_lookup _ _ _ _ _ _ _ Hi) in Hk'
        as [[-> ->]|[[Hne Hk']|(Hne & other & Hk' & Hcap & ->)]].
      * assert (piece = p) as -> by congruence. lia.
      * congruence.
      * apply captured_on_track in Hcap as [Htrack _].
        assert (other = p) as -> by congruence. lia.
    + destruct Heff as (-> & _). simpl in Hk'. congruence.
  - congruence.
Qed.

Lemma finished_piece_stays_witness :
  ∃ p', (λ r, pieces (gameState r) !! 0%nat)
          <$> rooms (handleMessage (run emptyManager redWins) "a"
                       (msg_roll_dice 0)) !! "ABC123"%string
        = Some (Some p')
      ∧ position p' = 99.
Proof.
  destruct (finished_piece_stays (run emptyManager redWins) "a" (msg_roll_dice 0)
              "ABC123" _ _ 0%nat _
              ltac:(by eexists) ltac:(discriminate)
              ltac:(vm_compute; reflexivity) ltac:(vm_compute; reflexivity)
              ltac:(vm_compute; reflexivity) ltac:(reflexivity))
    as (p' & Hk & _ & H99).
  exists p'. split; [|exact H99].
  revert Hk. vm_compute. by intros ->.
Defined.

Lemma msg_effect_length clientId msg r r' :
  msg ≠ msg_leave → msg_effect clientId msg r r' →
  (length (players r) ≤ length (players r'))%nat.
Proof.
  intros Hnl.
  destruct msg as [playerName mode draws now|roomCode playerName|col| | |u|pieceId|];
    simpl; try done.
  - intros (_ & _ & ->). simpl. rewrite length_app. lia.
  - intros (_ & _ & ->). simpl. by rewrite length_update_player.
  - intros ->. simpl. by rewrite length_update_player.
  - by intros (_ & ->).
  - by intros (cp & _ & _ & _ & _ & ->).
  - intros (cp & roll & i & piece & _ & _ & _ & _ & _ & _ & _ & ->).
    by rewrite players_resolveMove.
Qed.

(** X11 ([rollDice], [movePiece], [joinRoom]): as long as nobody leaves,
    [currentTurnIndex] indexes a player: after any run of messages without a
    [leave], every room has an active player. *)
Theorem turn_index_valid_without_leave msgs c r :
  leaveFree msgs →
  rooms (run emptyManager msgs) !! c = Some r →
  turn_index_ok r ∧ ∃ cp, currentPlayer r = Some cp.
Proof.
  intros Hfree Hr.
  assert (turn_index_ok r) as Hok.
  { revert c r Hr.
    induction msgs as [|[clientId msg] msgs IH] using rev_ind; intros c r Hr.
    - done.
    - apply Forall_app in Hfree as [Hfree Hlast].
      apply Forall_cons in Hlast as [Hlast _]. simpl in Hlast.
      rewrite run_snoc in Hr.
      apply manager_step_msg in Hr
        as [Hr|[(r0 & Hr0 & Heff)|(_ & n & md & dr & now & _ & ->)]].
      + by eapply IH.
      + eapply turn_index_step.
        * exact (msg_effect_room_step _ _ _ _ Heff).
        * by eapply IH.
        * exact (msg_effect_length _ _ _ _ Hlast Heff).
      + unfold turn_index_ok. simpl. lia. }
  split; [done|].
  unfold currentPlayer. by apply lookup_lt_is_Some_2.
Qed.

Lemma turn_index_valid_without_leave_witness :
  ∃ r cp, rooms (run emptyManager redReachesYellow) !! "ABC123"%string = Some r
        ∧ currentPlayer r = Some cp.
Proof.
  eexists. 
  destruct (turn_index_valid_without_leave redReachesYellow "ABC123" _
              ltac:(unfold leaveFree; vm_compute; repeat constructor; discriminate)
              ltac:(vm_compute; reflexivity)) as [_ [cp Hcp]].
  exists cp. split; [vm_compute; reflexivity|exact Hcp].
Defined.

(** ** The operations of the registry, case by case *)

(** X12 (all operations): a call that does not succeed changes nothing.
    Whenever [joinRoom], [chooseColor], [setReady], [startGame], [rollDice]
    or [movePiece] returns [null] or throws, and whenever [leaveRoom]
    returns [null], the manager after the call is the manager before it. *)
Theorem failed_call_keeps_manager m roomCode playerId playerName c u pieceId :
  ((∃ r, (joinRoom m roomCode playerId playerName).2 = Ok r)
   ∨ (joinRoom m roomCode playerId playerName).1 = m)
  ∧ ((∃ r, (chooseColor m playerId c).2 = Ok r) ∨ (chooseColor m playerId c).1 = m)
  ∧ ((∃ r, (setReady m playerId).2 = Ok r) ∨ (setReady m playerId).1 = m)
  ∧ ((∃ r, (startGame m playerId).2 = Ok r) ∨ (startGame m playerId).1 = m)
  ∧ ((∃ r, (rollDice m playerId u).2 = Ok r) ∨ (rollDice m playerId u).1 = m)
  ∧ ((∃ r, (movePiece m playerId pieceId).2 = Ok r)
     ∨ (movePiece m playerId pieceId).1 = m)
  ∧ ((∃ rc, (leaveRoom m playerId).2 = Some rc) ∨ (leaveRoom m playerId).1 = m).
Proof.
  repeat split.
  - unfold joinRoom. repeat case_match; simpl; eauto.
  - unfold chooseColor. repeat case_match; simpl; eauto.
  - unfold setReady. repeat case_match; simpl; eauto.
  - unfold startGame. repeat case_match; simpl; eauto.
  - unfold rollDice. repeat case_match; simpl; eauto.
  - unfold movePiece. repeat case_match; simpl; eauto.
  - unfold leaveRoom. repeat case_match; simpl; eauto.
Qed.

Lemma generateRoomCode_first m draws c :
  generateRoomCode m draws = Some c →
  ∃ k, draws !! k = Some c
     ∧ ∀ j d, (j < k)%nat → draws !! j = Some d → is_Some (rooms m !! d).
Proof.
  induction draws as [|d draws IH]; simpl; [done|].
  destruct (rooms m !! d) as [r|] eqn:Hd.
  - intros Hg. destruct (IH Hg) as (k & Hk & Hbefore).
    exists (S k). split; [done|].
    intros [|j] d' Hlt Hj; simpl in Hj.
    + injection Hj as <-. by rewrite Hd.
    + apply (Hbefore j); [lia|done].
  - intros [= <-]. exists 0%nat. split; [done|]. intros j d' Hlt. lia.
Qed.

Lemma generateRoomCode_None m draws :
  generateRoomCode m draws = None ↔ Forall (λ d, is_Some (rooms m !! d)) draws.
Proof.
  induction draws as [|d draws IH]; simpl; [by split; [constructor|]|].
  destruct (rooms m !! d) as [r|] eqn:Hd.
  - rewrite IH. split.
    + intros H. constructor; [by rewrite Hd|done].
    + by intros [_ H]%Forall_cons.
  - split; [done|]. intros [[x Hx] _]%Forall_cons. congruence.
Qed.

(** X13 ([createRoom], [generateRoomCode]): the code of a new room is the
    first drawn code that is not in use; the room is stored under it with
    the creator as its only player, uncoloured and not ready, in the initial
    game state; the creator is recorded for it; every other room is
    untouched.  No room is created only if every drawn code is in use. *)
Theorem createRoom_fresh_code m draws now playerId playerName mode :
  match createRoom m draws now playerId playerName mode with
  | Some (m', room) =>
      (∃ k, draws !! k = Some (code room)
          ∧ ∀ j d, (j < k)%nat → draws !! j = Some d → is_Some (rooms m !! d))
      ∧ rooms m !! code room = None
      ∧ room = newRoom (code room) playerId playerName mode now
      ∧ rooms m' !! code room = Some room
      ∧ (∀ c, c ≠ code room → rooms m' !! c = rooms m !! c)
      ∧ findRoom m' playerId = Some (code room, room)
      ∧ (∀ p, p ≠ playerId → playerToRoom m' !! p = playerToRoom m !! p)
  | None => Forall (λ d, is_Some (rooms m !! d)) draws
  end.
Proof.
  unfold createRoom.
  destruct (generateRoomCode m draws) as [c|] eqn:Hg.
  - simpl. split; [by apply generateRoomCode_first|].
    split; [by eapply generateRoomCode_fresh|]. split; [done|].
    split; [apply lookup_insert_eq|].
    split; [intros c' Hne; by rewrite lookup_insert_ne|].
    split.
    + unfold findRoom. simpl. by rewrite !lookup_insert_eq.
    + intros p Hne. by rewrite lookup_insert_ne.
  - by apply generateRoomCode_None.
Qed.

(** X14 ([createRoom], [leaveRoom]): for a participant without a room,
    creating a room and leaving it at once gives back the manager as it
    was: the room is destroyed and the record of the participant removed. *)
Theorem create_then_leave m draws now playerId playerName mode m' room :
  playerToRoom m !! playerId = None →
  createRoom m draws now playerId playerName mode = Some (m', room) →
  leaveRoom m' playerId = (m, Some (code room)).
Proof.
  intros Hnone. unfold createRoom.
  destruct (generateRoomCode m draws) as [c|] eqn:Hg; [|done].
  intros [= <- <-]. apply generateRoomCode_fresh in Hg.
  unfold leaveRoom. simpl. rewrite !lookup_insert_eq. simpl.
  assert (filter (λ p, pl_id p ≠ playerId)
            [mkPlayer playerId playerName None false] = []) as ->.
  { rewrite filter_cons. rewrite decide_False; [done|]. simpl. by intros H. }
  simpl.
  rewrite !delete_insert_eq, !delete_id by done.
  by destruct m.
Qed.

Lemma create_then_leave_witness :
  ∃ m' room,
    createRoom (run emptyManager scenarioA) ["ABC123"; "DEF456"]%string 7
      "c" "Cy" four_player = Some (m', room)
    ∧ leaveRoom m' "c" = (run emptyManager scenarioA, Some (code room)).
Proof.
  eexists _, _. split; [vm_compute; reflexivity|].
  apply (create_then_leave (run emptyManager scenarioA)
           ["ABC123"; "DEF456"]%string 7 "c" "Cy" four_player).
  - vm_compute. reflexivity.
  - vm_compute. reflexivity.
Defined.

(** X15 ([leaveRoom]): a participant without a room gets [null] and nothing
    changes.  Otherwise the code of the room is returned; every entry of the
    participant is removed from the player list of that room, which is
    destroyed exactly when no player remains; the game state of the room,
    the pieces of the leaver included, is left as it is; other rooms are
    untouched; the participant has no room afterwards, so leaving again
    returns [null]. *)
Theorem leaveRoom_spec m playerId :
  match findRoom m playerId with
  | None => leaveRoom m playerId = (m, None)
  | Some (c, room) =>
      let m' := (leaveRoom m playerId).1 in
      let rest := filter (λ p, pl_id p ≠ playerId) (players room) in
      (leaveRoom m playerId).2 = Some c
      ∧ rooms m' !! c
        = (if decide (rest = []) then None else Some (set_players room rest))
      ∧ (playerId ∉ pl_id <$> rest)
      ∧ gameState (set_players room rest) = gameState room
      ∧ (∀ c', c' ≠ c → rooms m' !! c' = rooms m !! c')
      ∧ (∀ p, p ≠ playerId → playerToRoom m' !! p = playerToRoom m !! p)
      ∧ findRoom m' playerId = None
      ∧ leaveRoom m' playerId = (m', None)
  end.
Proof.
  unfold findRoom, leaveRoom.
  destruct (playerToRoom m !! playerId) as [c|] eqn:Hp; [|done].
  destruct (rooms m !! c) as [room|] eqn:Hr; [|done].
  cbv zeta.
  set (rest := filter (λ p, pl_id p ≠ playerId) (players room)).
  assert (playerId ∉ pl_id <$> rest) as Hnot.
  { intros Hin. apply list_elem_of_fmap in Hin as (p & Heq & Hin).
    apply list_elem_of_filter in Hin as [Hne _]. done. }
  case_bool_decide as Hempty; simpl in *.
  - assert (rest = []) as Hnil by (by destruct rest).
    rewrite decide_True by done.
    split; [done|]. split; [by rewrite lookup_delete_eq|].
    split; [done|]. split; [done|].
    split; [intros c' Hne; by rewrite lookup_delete_ne, lookup_insert_ne|].
    split; [intros p Hne; by rewrite lookup_delete_ne|].
    by rewrite !lookup_delete_eq.
  - assert (rest ≠ []) as Hnil by (intros Hnil; by rewrite Hnil in Hempty).
    rewrite decide_False by done.
    split; [done|]. split; [by rewrite lookup_insert_eq|].
    split; [done|]. split; [done|].
    split; [intros c' Hne; by rewrite lookup_insert_ne|].
    split; [intros p Hne; by rewrite lookup_delete_ne|].
    by rewrite !lookup_delete_eq.
Qed.

(** X16 ([joinRoom]): an unknown code gives [null]; a room at capacity
    refuses with RoomFull, started or not; a started room below capacity
    refuses with GameAlreadyStarted; otherwise the participant is appended,
    uncoloured and not ready, and recorded for the room, while every other
    room, the one the participant was in before included, stays as it
    was. *)
Theorem joinRoom_spec m roomCode playerId playerName :
  match rooms m !! roomCode with
  | None => joinRoom m roomCode playerId playerName = (m, Null)
  | Some room =>
      if decide (maxPlayers (gameMode room) ≤ length (players room))%nat
      then joinRoom m roomCode playerId playerName = (m, Throw RoomFull)
      else if started (gameState room)
      then joinRoom m roomCode playerId playerName = (m, Throw GameAlreadyStarted)
      else
        let room' := set_players room
              (players room ++ [mkPlayer playerId playerName None false]) in
        let m' := (joinRoom m roomCode playerId playerName).1 in
        (joinRoom m roomCode playerId playerName).2 = Ok room'
        ∧ rooms m' !! roomCode = Some room'
        ∧ findRoom m' playerId = Some (roomCode, room')
        ∧ (∀ c, c ≠ roomCode → rooms m' !! c = rooms m !! c)
        ∧ (∀ p, p ≠ playerId → playerToRoom m' !! p = playerToRoom m !! p)
  end.
Proof.
  unfold joinRoom.
  destruct (rooms m !! roomCode) as [room|] eqn:Hr; [|done].
  destruct (decide (maxPlayers (gameMode room) ≤ length (players room))%nat)
    as [Hfull|Hfree].
  - by rewrite bool_decide_eq_true_2.
  - rewrite bool_decide_eq_false_2 by done.
    destruct (started (gameState room)); [done|]. simpl.
    split; [done|]. split; [by rewrite lookup_insert_eq|].
    split; [unfold findRoom; simpl; by rewrite !lookup_insert_eq|].
    split; [intros c Hne; by rewrite lookup_insert_ne|].
    intros p Hne. by rewrite lookup_insert_ne.
Qed.





Lemma update_player_idem ps playerId f :
  (∀ p, pl_id (f p) = pl_id p) → (∀ p, f (f p) = f p) →
  update_player (update_player ps playerId f) playerId f
  = update_player ps playerId f.
Proof.
  intros Hid Hidem. unfold update_player at 2 3.
  destruct (list_find _ ps) as [[i p]|] eqn:Hfind.
  - pose proof Hfind as Hfind'.
    apply list_find_Some in Hfind' as (Hi & Hp & Hfirst).
    unfold update_player.
    assert (list_find (λ q, pl_id q = playerId) (<[i := f p]> ps)
            = Some (i, f p)) as ->.
    { apply list_find_Some. split.
      - apply list_lookup_insert_eq. by eapply lookup_lt_Some.
      - split; [by rewrite Hid|].
        intros j q Hj Hlt. rewrite list_lookup_insert_ne in Hj by lia.
        by eapply Hfirst. }
    by rewrite list_insert_insert_eq, Hidem.
  - unfold update_player. by rewrite Hfind.
Qed.

Lemma findRoom_store_room m playerId c room room' :
  findRoom m playerId = Some (c, room) →
  findRoom (store_room m c room') playerId = Some (c, room').
Proof.
  intros Hf. apply findRoom_Some in Hf as [Hp _].
  unfold findRoom. simpl. by rewrite Hp, lookup_insert_eq.
Qed.

(** X18 ([setReady]): a participant without a room gets [null]; otherwise
    the call never fails.  It changes nothing but the ready flag of the
    first entry of the participant, which becomes true when that entry holds
    a colour and stays as it was when it holds none; no flag is ever
    cleared.  Calling it twice is the same as calling it once. *)
Theorem setReady_spec m playerId :
  match findRoom m playerId with
  | None => setReady m playerId = (m, Null)
  | Some (c, room) =>
      ∃ room',
        setReady m playerId = (store_room m c room', Ok room')
        ∧ gameState room' = gameState room
        ∧ (λ p, (pl_id p, pl_name p, pl_color p)) <$> players room'
          = (λ p, (pl_id p, pl_name p, pl_color p)) <$> players room
        ∧ Forall2 (λ p p', ready p = true → ready p' = true)
            (players room) (players room')
        ∧ (∀ i p, list_find (λ q, pl_id q = playerId) (players room) = Some (i, p) →
             players room' = <[i := markReady p]> (players room)
             ∧ ready (markReady p)
               = if pl_color p is Some _ then true else ready p)
        ∧ setReady (store_room m c room') playerId
          = (store_room m c room', Ok room')
  end.
Proof.
  destruct (findRoom m playerId) as [[c room]|] eqn:Hf;
    [|by unfold setReady; rewrite Hf].
  eexists. split; [by unfold setReady; rewrite Hf|]. simpl.
  assert (∀ p, pl_id (markReady p) = pl_id p
               ∧ pl_name (markReady p) = pl_name p
               ∧ pl_color (markReady p) = pl_color p) as Hkeep.
  { intros p. unfold markReady. by destruct (pl_color p) eqn:Hc. }
  split; [done|].
  split.
  { apply fmap_update_player. intros p.
    destruct (Hkeep p) as (-> & -> & ->). done. }
  split.
  { unfold update_player.
    destruct (list_find _ (players room)) as [[i p]|] eqn:Hfind.
    - apply list_find_Some in Hfind as (Hi & _ & _).
      apply Forall2_same_length_lookup. split; [by rewrite length_insert|].
      intros k x y Hx Hy.
      apply list_lookup_insert_Some in Hy as [(-> & <- & _)|[Hne Hy]].
      + assert (x = p) as -> by congruence.
        unfold markReady. by destruct (pl_color p).
      + by assert (x = y) as -> by congruence.
    - apply Forall2_same_length_lookup. split; [done|].
      intros k x y Hx Hy. by assert (x = y) as -> by congruence. }
  split.
  { intros i p Hfind. unfold update_player. rewrite Hfind. split; [done|].
    unfold markReady. by destruct (pl_color p). }
  unfold setReady. erewrite findRoom_store_room by done. simpl.
  rewrite update_player_idem.
  - unfold store_room. simpl. by rewrite insert_insert_eq.
  - intros p. by destruct (Hkeep p).
  - by intros [pid nm [col|] rd].
Qed.

(** X19 ([chooseColor]): a participant without a room gets [null]; a colour
    outside the list of the mode is refused with ColorUnavailable, a colour
    held by an entry of another participant with ColorTaken, in this order.
    Otherwise the first entry of the participant takes the colour and
    nothing else changes: the ready flags stay, so a ready player who
    switches colour stays ready; choosing the colour one already holds
    leaves the room exactly as it was. *)
Theorem chooseColor_spec m playerId col :
  match findRoom m playerId with
  | None => chooseColor m playerId col = (m, Null)
  | Some (c, room) =>
      if decide (col ∈ getAvailableColors room) then
        if decide (Exists (λ q, pl_color q = Some col ∧ pl_id q ≠ playerId)
                     (players room))
        then chooseColor m playerId col = (m, Throw ColorTaken)
        else
          ∃ room',
            chooseColor m playerId col = (store_room m c room', Ok room')
            ∧ gameState room' = gameState room
            ∧ (λ p, (pl_id p, pl_name p, ready p)) <$> players room'
              = (λ p, (pl_id p, pl_name p, ready p)) <$> players room
            ∧ (∀ i p,
                 list_find (λ q, pl_id q = playerId) (players room) = Some (i, p) →
                 players room' = <[i := set_pl_color p (Some col)]> (players room)
                 ∧ (pl_color p = Some col → room' = room))
      else chooseColor m playerId col = (m, Throw ColorUnavailable)
  end.
Proof.
  unfold chooseColor.
  destruct (findRoom m playerId) as [[c room]|] eqn:Hf; [|done].
  destruct (decide (col ∈ getAvailableColors room)) as [Hav|Hav].
  - rewrite (bool_decide_eq_true_2 _ Hav). simpl.
    destruct (decide (Exists _ (players room))) as [Hex|Hnex].
    + assert (color_taken (players room) playerId col = true) as ->; [|done].
      apply Exists_exists in Hex as (q & Hq & Hc & Hid).
      unfold color_taken. apply existsb_exists. exists q.
      split; [by apply list_elem_of_In|].
      rewrite bool_decide_eq_true_2 by done.
      by rewrite bool_decide_eq_false_2.
    + assert (color_taken (players room) playerId col = false) as ->.
      { apply not_true_is_false. intros Ht.
        apply color_taken_true in Ht as (q & Hq & Hc & Hid).
        apply Hnex, Exists_exists. by exists q. }
      eexists. split; [done|]. simpl. split; [done|].
      split; [by apply fmap_update_player|].
      intros i p Hfind. unfold update_player. rewrite Hfind. split; [done|].
      intros Hc. apply list_find_Some in Hfind as (Hi & _ & _).
      destruct room as [cd ps md gs cr]. unfold set_players. simpl in *.
      f_equal. apply list_insert_id. rewrite Hi. f_equal.
      destruct p. simpl in *. by subst.
  - by rewrite (bool_decide_eq_false_2 _ Hav).
Qed.

(** X20 ([startGame]): [startGame] looks neither at [started] nor at who
    calls.  Whenever all players of the room are coloured and ready, any
    participant of the room can start it, also a game in progress: the new
    game state is the fresh one whatever the state before, the room stays
    startable, and starting again gives the same room once more. *)
Theorem startGame_restarts m playerId c room :
  findRoom m playerId = Some (c, room) →
  canStartGame room = true →
  ∃ room',
    startGame m playerId = (store_room m c room', Ok room')
    ∧ gameState room' = startState room
    ∧ Forall (λ p, position p = -1) (pieces (gameState room'))
    ∧ winner (gameState room') = None
    ∧ canStartGame room' = true
    ∧ ∀ playerId',
        findRoom (store_room m c room') playerId' = Some (c, room') →
        startGame (store_room m c room') playerId'
        = (store_room m c room', Ok room').
Proof.
  intros Hf Hcan. unfold startGame at 1. rewrite Hf, Hcan. simpl.
  eexists. split; [done|]. split; [done|].
  split.
  { simpl. eapply Forall_impl; [apply position_initialPieces|]. by intros p []. }
  split; [done|]. split; [done|].
  intros pid' Hf'. unfold startGame. rewrite Hf'. simpl.
  assert (canStartGame (set_gameState room (startState room)) = true) as ->
    by done.
  simpl. unfold store_room. simpl. by rewrite insert_insert_eq.
Qed.

Lemma startGame_restarts_witness :
  ∃ room',
    (startGame (run emptyManager redReachesYellow) "b").2 = Ok room'
    ∧ Forall (λ p, position p = -1) (pieces (gameState room'))
    ∧ currentTurnIndex (gameState room') = 0%nat.
Proof.
  edestruct (startGame_restarts (run emptyManager redReachesYellow) "b" "ABC123")
    as (room' & Hs & Hg & Hpos & _).
  - vm_compute. reflexivity.
  - vm_compute. reflexivity.
  - exists room'. rewrite Hs. split; [reflexivity|]. split; [exact Hpos|].
    by rewrite Hg.
Defined.

(** X21 ([rollDice], [movePiece]): in a reachable manager a roll that leaves
    a move owed can be followed by a move: the roller has a piece for which
    [movePiece] succeeds. *)
Theorem roll_then_move m playerId u m' room' roll :
  reachable m →
  rollDice m playerId u = (m', Ok (room', roll)) →
  waitingForMove (gameState room') = true →
  ∃ pieceId m'' res, movePiece m' playerId pieceId = (m'', Ok res).
Proof.
  intros Hm Hroll Hw.
  apply rollDice_Ok in Hroll
    as (c & room & cp & Hf & Hs & Hcp & Hid & Hw0 & Hr & -> & ->).
  pose proof (rollWeightedDice_range room cp u) as Hrange. rewrite <- Hr in Hrange.
  destruct (findRoom_Some _ _ _ _ Hf) as [_ Hroom].
  simpl in Hw. unfold rollState in Hw |- *.
  destruct (hasValidMoves room cp roll) eqn:Hvalid;
    [|simpl in Hw; case_bool_decide; simpl in Hw; congruence].
  unfold hasValidMoves in Hvalid.
  apply existsb_exists in Hvalid as (piece & Hin & Hcan).
  apply list_elem_of_In, list_elem_of_filter in Hin as [Hcol Hin].
  apply list_elem_of_lookup in Hin as [i Hi].
  destruct (reachable_pieces_inv m c room Hm Hroom) as [_ Hnodup _].
  assert (list_find (λ q, pc_id q = pc_id piece) (pieces (gameState room))
          = Some (i, piece)) as Hfind.
  { apply list_find_Some. split; [done|]. split; [done|].
    intros j q Hj Hlt Heq. assert (i = j); [|lia].
    eapply NoDup_lookup; [exact Hnodup| |].
    - by rewrite list_lookup_fmap, Hi.
    - rewrite list_lookup_fmap, Hj. simpl. by rewrite Heq. }
  exists (pc_id piece).
  erewrite movePiece_guards; [|by eapply findRoom_store_room|done|exact Hcp].
  rewrite (bool_decide_eq_true_2 _ Hid). simpl.
  unfold pendingRoll. simpl.
  rewrite bool_decide_eq_false_2 by lia.
  rewrite Hfind. rewrite (bool_decide_eq_true_2 _ Hcol). simpl.
  assert (canMovePiece piece roll
            (set_gameState room
               (set_waitingForMove
                  (set_isFirstRollOfTurn
                     (set_diceValue (gameState room) (Some roll)) false) true))
          = true) as -> by exact Hcan.
  simpl. by eexists _, _.
Qed.

Lemma roll_then_move_witness :
  ∃ m' room' pieceId m'' res,
    rollDice (run emptyManager scenarioA) "a" 0.9375%float = (m', Ok (room', 6))
    ∧ movePiece m' "a" pieceId = (m'', Ok res).
Proof.
  eexists _, _.
  edestruct (roll_then_move (run emptyManager scenarioA) "a" 0.9375%float)
    as (pieceId & m'' & res & Hmove).
  - by eexists.
  - vm_compute. reflexivity.
  - reflexivity.
  - exists pieceId, m'', res. split; [vm_compute; reflexivity|exact Hmove].
Defined.

(** X22 ([rollDice], [movePiece], [chooseColor]): a room in which a move is
    owed while the active player's colour has no piece is blocked: whoever
    of the room calls, every [rollDice] and every [movePiece] throws and the
    manager stays as it is.  (A colour change during one's turn reaches
    such a state.) *)
Theorem owed_move_without_pieces_blocks m c room cp d :
  rooms m !! c = Some room →
  started (gameState room) = true →
  currentPlayer room = Some cp →
  pendingRoll (gameState room) = Some d →
  piecesOf (pl_color cp) (pieces (gameState room)) = [] →
  ∀ playerId u pieceId,
    findRoom m playerId = Some (c, room) →
    (∃ e, rollDice m playerId u = (m, Throw e))
    ∧ (∃ e, movePiece m playerId pieceId = (m, Throw e)).
Proof.
  intros Hr Hs Hcp Hd Hnone pid u pieceId Hf.
  apply pendingRoll_Some in Hd as Hd'. destruct Hd' as (Hw & _ & _).
  split.
  - unfold rollDice. rewrite Hf, Hs, Hcp. simpl.
    case_bool_decide; simpl; [|by eexists].
    rewrite Hw. by eexists.
  - rewrite (movePiece_guards m pid pieceId c room cp Hf Hs Hcp).
    case_bool_decide; simpl; [|by eexists].
    rewrite Hd.
    destruct (list_find _ _) as [[i piece]|] eqn:Hfind; [|by eexists].
    case_bool_decide as Hcol; simpl; [|by eexists].
    exfalso. apply list_find_Some in Hfind as (Hi & _ & _).
    assert (piece ∈ piecesOf (pl_color cp) (pieces (gameState room))) as Hin.
    { unfold piecesOf. apply list_elem_of_filter.
      split; [done|by eapply list_elem_of_lookup_2]. }
    rewrite Hnone in Hin. by apply elem_of_nil in Hin.
Qed.

Lemma owed_move_without_pieces_blocks_witness :
  let m := run emptyManager redTurnsBlue in
  reachable m
  ∧ (∃ e, rollDice m "a" 0 = (m, Throw e))
  ∧ (∃ e, movePiece m "a" "red-0" = (m, Throw e))
  ∧ (∃ e, rollDice m "b" 0 = (m, Throw e))
  ∧ (∃ e, movePiece m "b" "green-0" = (m, Throw e)).
Proof.
  intros m. split; [by eexists|].
  edestruct (owed_move_without_pieces_blocks m "ABC123") as [Ha1 Ha2].
  - vm_compute. reflexivity.
  - reflexivity.
  - vm_compute. reflexivity.
  - vm_compute. reflexivity.
  - vm_compute. reflexivity.
  - instantiate (1 := "a"%string). vm_compute. reflexivity.
  - split; [exact Ha1|]. split; [exact Ha2|].
    edestruct (owed_move_without_pieces_blocks m "ABC123") as [Hb1 Hb2].
    + vm_compute. reflexivity.
    + reflexivity.
    + vm_compute. reflexivity.
    + vm_compute. reflexivity.
    + vm_compute. reflexivity.
    + instantiate (1 := "b"%string). vm_compute. reflexivity.
    + split; [exact Hb1|exact Hb2].
Defined.

(** ** Cells of the track *)

Lemma on_track_bools (p : GamePiece) :
  bool_decide (position p < 0) || bool_decide (position p > 50) = false
  ↔ 0 ≤ position p ≤ 50.
Proof.
  rewrite orb_false_iff, !bool_decide_eq_false. lia.
Qed.

Lemma getAbsoluteTrackPosition_on p :
  0 ≤ position p ≤ 50 →
  getAbsoluteTrackPosition p
  = (position p + PLAYER_START_OFFSETS (pc_color p)) `mod` 52.
Proof.
  intros H. unfold getAbsoluteTrackPosition.
  by rewrite (proj2 (on_track_bools p) H).
Qed.

Lemma getAbsoluteTrackPosition_off p :
  ¬ 0 ≤ position p ≤ 50 → getAbsoluteTrackPosition p = -1.
Proof.
  intros H. unfold getAbsoluteTrackPosition.
  destruct (_ || _) eqn:Hb; [done|]. apply on_track_bools in Hb. lia.
Qed.

Lemma arePiecesOnSamePosition_true p q :
  arePiecesOnSamePosition p q = true
  ↔ 0 ≤ position p ≤ 50 ∧ 0 ≤ position q ≤ 50
    ∧ getAbsoluteTrackPosition p = getAbsoluteTrackPosition q.
Proof.
  unfold arePiecesOnSamePosition.
  destruct (bool_decide (position p < 0) || bool_decide (position p > 50))
    eqn:Hp.
  { split; [done|]. intros (H & _). apply on_track_bools in H. congruence. }
  destruct (bool_decide (position q < 0) || bool_decide (position q > 50))
    eqn:Hq.
  { split; [done|]. intros (_ & H & _). apply on_track_bools in H. congruence. }
  apply on_track_bools in Hp, Hq. rewrite bool_decide_eq_true. tauto.
Qed.

(** X25 ([getAbsoluteTrackPosition], [arePiecesOnSamePosition]): the
    absolute cell of a piece is -1 off the main track and a cell 0..51 on
    it, from which the position is recovered by subtracting the start
    offset of the colour modulo 52.  The same-cell test is symmetric, holds
    for two pieces of one colour exactly when both are on the track at the
    same position, and the test of the capture loop of [movePiece] is this
    test together with the difference of id and colour. *)
Theorem track_cells p q :
  (0 ≤ position p ≤ 50 →
     0 ≤ getAbsoluteTrackPosition p ≤ 51
     ∧ (getAbsoluteTrackPosition p - PLAYER_START_OFFSETS (pc_color p)) `mod` 52
       = position p)
  ∧ (¬ 0 ≤ position p ≤ 50 → getAbsoluteTrackPosition p = -1)
  ∧ arePiecesOnSamePosition p q = arePiecesOnSamePosition q p
  ∧ (pc_color p = pc_color q →
     (arePiecesOnSamePosition p q = true
      ↔ 0 ≤ position p ≤ 50 ∧ position q = position p))
  ∧ (0 ≤ position p ≤ 50 →
     (capturable p (getAbsoluteTrackPosition p) q
      ↔ pc_id q ≠ pc_id p ∧ pc_color q ≠ pc_color p
        ∧ arePiecesOnSamePosition p q = true)).
Proof.
  split; [|split; [|split; [|split]]].
  - intros Hp. rewrite getAbsoluteTrackPosition_on by done.
    destruct (pc_color p); simpl; split; try (Z.div_mod_to_equations; lia).
  - apply getAbsoluteTrackPosition_off.
  - apply eq_true_iff_eq. rewrite !arePiecesOnSamePosition_true.
    split; intros (? & ? & ?); done.
  - intros Hc. rewrite arePiecesOnSamePosition_true. split.
    + intros (Hp & Hq & Heq). split; [done|].
      rewrite !getAbsoluteTrackPosition_on in Heq by done.
      rewrite Hc in Heq. revert Heq.
      destruct (pc_color q); simpl; Z.div_mod_to_equations; lia.
    + intros (Hp & Heq). split; [done|]. split; [lia|].
      unfold getAbsoluteTrackPosition. by rewrite Heq, Hc.
  - intros Hp. unfold capturable. rewrite arePiecesOnSamePosition_true.
    split.
    + intros (Hid & Hcol & Hq & Heq). split; [done|]. split; [done|].
      split; [done|]. split; [lia|done].
    + intros (Hid & Hcol & _ & Hq & Heq). split; [done|]. split; [done|].
      split; [lia|done].
Qed.

Lemma track_cells_witness :
  getAbsoluteTrackPosition (mkPiece "yellow-0" yellow 31 false) = 5
  ∧ arePiecesOnSamePosition (mkPiece "yellow-0" yellow 31 false)
      (mkPiece "red-0" red 5 false) = true.
Proof.
  destruct (track_cells (mkPiece "yellow-0" yellow 31 false)
              (mkPiece "red-0" red 5 false)) as (H1 & _ & _ & _ & H5).
  split; [reflexivity|].
  apply (proj1 (H5 ltac:(simpl; lia))).
  split; [discriminate|]. split; [discriminate|].
  split; [simpl; lia|reflexivity].
Defined.

Lemma safe_cells_shift (z : Z) (c : PlayerColor) :
  0 ≤ z ≤ 50 →
  (z + PLAYER_START_OFFSETS c) `mod` 52 ∈ SAFE_SPOT_POSITIONS
  ↔ z ∈ SAFE_SPOT_POSITIONS.
Proof.
  intros Hz. unfold SAFE_SPOT_POSITIONS.
  rewrite !elem_of_cons, !elem_of_nil.
  destruct c; simpl; Z.div_mod_to_equations; lia.
Qed.

(** X26 ([isPieceOnSafeSpot]): the safe cells are the same for every
    colour.  Although the test goes through the absolute cell, a piece is
    safe exactly when it is off the main track (in base, on the home
    stretch from 51 on, or finished) or its own position, counted from its
    own start, is one of 0, 8, 13, 21, 26, 34, 39, 47; two pieces at the
    same position are both safe or both not, whatever their colours. *)
Theorem safe_spot_colour_independent p q :
  (isPieceOnSafeSpot p = true
   ↔ position p < 0 ∨ 51 ≤ position p ∨ position p ∈ SAFE_SPOT_POSITIONS)
  ∧ (position p = position q → isPieceOnSafeSpot p = isPieceOnSafeSpot q).
Proof.
  assert (∀ r, isPieceOnSafeSpot r = true
    ↔ position r < 0 ∨ 51 ≤ position r ∨ position r ∈ SAFE_SPOT_POSITIONS)
    as Hspec.
  { intros r. unfold isPieceOnSafeSpot.
    case_bool_decide as H1; [split; [right; left; lia|done]|].
    case_bool_decide as H2; [split; [left; lia|done]|].
    case_bool_decide as H3; [lia|].
    rewrite bool_decide_eq_true.
    rewrite getAbsoluteTrackPosition_on by lia.
    rewrite safe_cells_shift by lia. split; [by right; right|].
    intros [?|[?|?]]; [lia|lia|done]. }
  split; [apply Hspec|].
  intros Heq. apply eq_true_iff_eq. by rewrite !Hspec, Heq.
Qed.

(** ** The client and the server *)

Lemma NoDup_fmap_lookup {A B} (f : A → B) (l : list A) i j x y :
  NoDup (f <$> l) → l !! i = Some x → l !! j = Some y → f x = f y →
  i = j ∧ x = y.
Proof.
  intros Hnd Hi Hj Heq.
  assert (i = j) as ->.
  { eapply NoDup_lookup; [exact Hnd| |].
    - by rewrite list_lookup_fmap, Hi.
    - rewrite list_lookup_fmap, Hj. simpl. by rewrite Heq. }
  split; [done|]. congruence.
Qed.

Lemma list_find_NoDup {A B} `{EqDecision B} (f : A → B) (l : list A) i x :
  NoDup (f <$> l) → l !! i = Some x →
  list_find (λ y, f y = f x) l = Some (i, x).
Proof.
  intros Hnd Hi. apply list_find_Some. split; [done|]. split; [done|].
  intros j y Hj Hlt Heq.
  destruct (NoDup_fmap_lookup f l i j x y Hnd Hi Hj (eq_sym Heq)). lia.
Qed.

(** In a reachable room with a move owed, the game has started and the roll
    is the one [movePiece] will use. *)
Lemma owed_move_started m c r :
  reachable m → rooms m !! c = Some r →
  waitingForMove (gameState r) = true →
  started (gameState r) = true
  ∧ ∃ d, diceValue (gameState r) = Some d ∧ pendingRoll (gameState r) = Some d.
Proof.
  intros Hm Hr Hw.
  destruct (reachable_lobby_inv m c r Hm Hr) as [_ Hns _ Howed].
  destruct (reachable_game_inv m c r Hm Hr) as [_ _ Hdice _].
  split.
  - destruct (started (gameState r)) eqn:Hs; [done|].
    rewrite (Hns eq_refl) in Hw. done.
  - apply Howed in Hw.
    destruct (diceValue (gameState r)) as [d|] eqn:Hd; [|done].
    exists d. split; [done|]. unfold pendingRoll.
    assert (waitingForMove (gameState r) = true) as ->
      by (by apply Howed).
    pose proof (Hdice d eq_refl).
    rewrite Hd. by rewrite bool_decide_eq_false_2 by lia.
Qed.

Lemma started_ids_NoDup m c r :
  reachable m → rooms m !! c = Some r → started (gameState r) = true →
  NoDup (pl_id <$> players r).
Proof.
  intros Hm Hr Hs.
  destruct (reachable_lobby_inv m c r Hm Hr) as [_ _ Hcol _].
  apply NoDup_ids_colored; [|by apply Hcol].
  exact (reachable_players_inv m c r Hm Hr).
Qed.

(** X27 ([canMovePiece] of the game page, [movePiece] of the server): the
    legality check of the client and the guards of the server agree.  For a
    participant of a room of a reachable manager and a piece of that room,
    the page offers the move (its [canMovePiece] is true on the room as
    sent) exactly when [movePiece] for that participant and piece
    succeeds. *)
Theorem client_server_legality m playerId roomCode room i piece :
  reachable m →
  findRoom m playerId = Some (roomCode, room) →
  pieces (gameState room) !! i = Some piece →
  client_canMovePiece room playerId piece = Some true
  ↔ ∃ m' room' captured,
      movePiece m playerId (pc_id piece) = (m', Ok (room', captured)).
Proof.
  intros Hm Hfind Hi.
  pose proof (findRoom_Some _ _ _ _ Hfind) as [_ Hr].
  destruct (reachable_pieces_inv m roomCode room Hm Hr) as [_ Hnd _].
  pose proof (list_find_NoDup pc_id _ i piece Hnd Hi) as Hfp.
  rewrite client_canMovePiece_true. split.
  - intros (cp & j & me & Hcp & Hid & Hw & Hme & Hcol & Hcan).
    destruct (owed_move_started m roomCode room Hm Hr Hw)
      as (Hs & d & Hd & Hpend).
    pose proof (started_ids_NoDup m roomCode room Hm Hr Hs) as Hpl.
    apply list_find_Some in Hme as (Hj & Hjid & _).
    destruct (NoDup_fmap_lookup pl_id _ _ _ cp me Hpl Hcp Hj) as [_ <-];
      [congruence|].
    rewrite Hd in Hcan. simpl in Hcan.
    rewrite (movePiece_guards m playerId (pc_id piece) roomCode room cp
               Hfind Hs Hcp).
    rewrite (bool_decide_eq_true_2 _ Hid). simpl.
    rewrite Hpend, Hfp.
    rewrite bool_decide_eq_true_2 by done. simpl.
    rewrite Hcan. simpl.
    destruct (resolveMove room cp i piece d) as [room' captured].
    by eexists _, _, _.
  - intros (m' & room' & captured & Hmove).
    apply movePiece_Ok in Hmove
      as (c' & r' & cp & roll & i' & piece' & Hf' & Hs & Hcp & Hid & Hpend
          & Hfp' & Hcol & Hcan & _).
    rewrite Hfind in Hf'. injection Hf' as <- <-.
    rewrite Hfp in Hfp'. injection Hfp' as <- <-.
    pose proof (started_ids_NoDup m roomCode room Hm Hr Hs) as Hpl.
    assert (list_find (λ p, pl_id p = playerId) (players room)
            = Some (currentTurnIndex (gameState room), cp)) as Hme.
    { rewrite <- Hid. by apply (list_find_NoDup pl_id). }
    exists cp, (currentTurnIndex (gameState room)), cp.
    split; [done|]. split; [done|].
    unfold pendingRoll in Hpend.
    destruct (waitingForMove (gameState room)); [|done].
    split; [done|]. split; [exact Hme|]. split; [done|].
    destruct (diceValue (gameState room)) as [d|]; [|done].
    case_bool_decide; [done|]. injection Hpend as ->. exact Hcan.
Qed.

Lemma client_server_legality_witness :
  ∃ room piece m' room' captured,
    findRoom (run emptyManager redOwesMove) "a" = Some ("ABC123"%string, room)
    ∧ pieces (gameState room) !! 2%nat = Some piece
    ∧ client_canMovePiece room "a" piece = Some true
    ∧ movePiece (run emptyManager redOwesMove) "a" (pc_id piece)
      = (m', Ok (room', captured)).
Proof.
  eexists _, _.
  edestruct (proj1 (client_server_legality (run emptyManager redOwesMove) "a"
              "ABC123" _ 2%nat _
              ltac:(by eexists) ltac:(vm_compute; reflexivity)
              ltac:(vm_compute; reflexivity)))
    as (m' & room' & captured & Hmove).
  - vm_compute. reflexivity.
  - exists m', room', captured.
    split; [vm_compute; reflexivity|]. split; [vm_compute; reflexivity|].
    split; [vm_compute; reflexivity|]. exact Hmove.
Defined.

(** ** The router *)

Lemma elem_of_send target isOpen message d :
  d ∈ Router.send target isOpen message →
  d = (target, message) ∧ isOpen = true.
Proof.
  unfold Router.send. destruct isOpen; [|by intros ?%elem_of_nil].
  by intros ->%list_elem_of_singleton.
Qed.

Lemma elem_of_broadcastToRoom m clients roomCode message ex t resp :
  (t, resp) ∈ Router.broadcastToRoom m clients roomCode message ex →
  resp = message
  ∧ ∃ room, rooms m !! roomCode = Some room
          ∧ t ∈ pl_id <$> players room
          ∧ clients !! t = Some true
          ∧ Some t ≠ ex.
Proof.
  unfold Router.broadcastToRoom, getRoomByCode.
  destruct (rooms m !! roomCode) as [room|]; [|by intros ?%elem_of_nil].
  intros Hin. apply list_elem_of_In, in_flat_map in Hin as (p & Hp & Hin).
  apply list_elem_of_In in Hp, Hin.
  case_bool_decide as Hex; [|by apply elem_of_nil in Hin].
  destruct (clients !! pl_id p) as [o|] eqn:Hc; [|by apply elem_of_nil in Hin].
  apply elem_of_send in Hin as [[= -> ->] ->].
  split; [done|]. exists room. split; [done|].
  split; [by apply list_elem_of_fmap_2|]. done.
Qed.

(** The first component of the router is the effect on the manager. *)
Lemma router_effect m clients clientId ws message :
  (Router.handleMessage m clients clientId ws message).1
  = handleMessage m clientId message.
Proof.
  destruct message; simpl; unfold Router.guarded;
    repeat case_match; simpl in *; congruence.
Qed.

Lemma elem_of_sendError target isOpen message t s :
  (t, Router.error s) ∈ Router.sendError target isOpen message
  ↔ t = target ∧ isOpen = true ∧ s = message.
Proof.
  unfold Router.sendError. split.
  - by intros [[= -> ->] ->]%elem_of_send.
  - intros (-> & -> & ->). by apply list_elem_of_singleton.
Qed.

(** When the success branch sends no error message, [guarded] sends one
    exactly on a [null] result whose branch sends it and on a thrown error,
    then to the sender and with the message of that error. *)
Lemma guarded_error_iff {A} clientId ws (result : GameManager * Outcome A)
    onOk onNull t s :
  (∀ m' a, (t, Router.error s) ∉ onOk m' a) →
  (t, Router.error s) ∈ (Router.guarded clientId ws result onOk onNull).2
  ↔ (result.2 = Null ∧ (t, Router.error s) ∈ onNull)
    ∨ (t = clientId ∧ ws = true
       ∧ ∃ e, result.2 = Throw e ∧ s = error_message e).
Proof.
  intros Hok. destruct result as [m' [a| |e]]; simpl.
  - split; [by intros ?%Hok|].
    by intros [[? _]|(_ & _ & e & ? & _)].
  - split; [by left|]. by intros [[_ ?]|(_ & _ & e & ? & _)].
  - rewrite elem_of_sendError. split.
    + intros (-> & -> & ->). right. split; [done|]. split; [done|].
      by exists e.
    + intros [[? _]|(-> & -> & e' & [= <-] & ->)]; done.
Qed.

(** An error message among the deliveries of [guarded] is the only
    delivery, and the manager is the one before the call. *)
Lemma guarded_error_alone {A} clientId ws (result : GameManager * Outcome A)
    onOk onNull m t s :
  (∀ o, result.2 = o → (∀ a, o ≠ Ok a) → result.1 = m) →
  (∀ m' a, (t, Router.error s) ∉ onOk m' a) →
  (∀ d, d ∈ onNull → onNull = [d]) →
  (t, Router.error s) ∈ (Router.guarded clientId ws result onOk onNull).2 →
  Router.guarded clientId ws result onOk onNull = (m, [(t, Router.error s)]).
Proof.
  intros Hfail Hok Hnull Hin. destruct result as [m' [a| |e]]; simpl in *.
  - by apply Hok in Hin.
  - assert (m' = m) as -> by (by eapply Hfail).
    by rewrite (Hnull _ Hin).
  - assert (m' = m) as -> by (by eapply Hfail).
    apply elem_of_send in Hin as [[= -> ->] ->]. done.
Qed.

Lemma broadcast_no_error m clients roomCode message ex t s :
  (∀ s', message ≠ Router.error s') →
  (t, Router.error s) ∉ Router.broadcastToRoom m clients roomCode message ex.
Proof.
  intros Hne Hin. apply elem_of_broadcastToRoom in Hin as [<- _].
  by eapply Hne.
Qed.

Ltac no_error_sent :=
  repeat match goal with
  | H : _ ∈ _ ++ _ |- _ => apply elem_of_app in H as [H|H]
  | H : _ ∈ [] |- _ => by apply elem_of_nil in H
  | H : _ ∈ Router.send _ _ _ |- _ =>
      apply elem_of_send in H as [H _]; discriminate H
  | H : _ ∈ Router.broadcastToRoom _ _ _ _ _ |- _ =>
      apply elem_of_broadcastToRoom in H as [H _]; discriminate H
  | H : _ ∈ match ?x with _ => _ end |- _ => destruct x
  end.

(** X28 ([handleMessage], [sendError] of the router): when an error message
    is sent and what it says.  The message [error s] goes to connection [t]
    exactly when [t] is the sender of the request, the sender's socket is
    open, and the call of the manager that the request triggers has thrown
    an error whose message is [s], or, for [join] only, has returned [null]
    and [s] is "Room not found"; [create] and [leave] never produce one.
    When an error message is sent it is the only message that goes out, and
    the manager is left as it was. *)
Theorem error_only_to_sender m clients clientId ws message t s :
  let result := Router.handleMessage m clients clientId ws message in
  let thrown := λ (A : Type) (o : Outcome A),
    ∃ e, o = Throw e ∧ s = error_message e in
  ((t, Router.error s) ∈ result.2
   ↔ t = clientId ∧ ws = true
     ∧ match message with
       | msg_join roomCode playerName =>
           ((joinRoom m roomCode clientId playerName).2 = Null
            ∧ s = "Room not found"%string)
           ∨ thrown _ (joinRoom m roomCode clientId playerName).2
       | msg_choose_color c => thrown _ (chooseColor m clientId c).2
       | msg_ready => thrown _ (setReady m clientId).2
       | msg_start_game => thrown _ (startGame m clientId).2
       | msg_roll_dice u => thrown _ (rollDice m clientId u).2
       | msg_move_piece pieceId => thrown _ (movePiece m clientId pieceId).2
       | msg_create _ _ _ _ | msg_leave => False
       end)
  ∧ ((t, Router.error s) ∈ result.2 →
     result = (m, [(clientId, Router.error s)])
     ∧ handleMessage m clientId message = m).
Proof.
  intros result thrown. subst result thrown.
  assert (∀ (A : Type) (o : Outcome A) (P : Prop),
            (o = Null ∧ False) ∨ (t = clientId ∧ ws = true ∧ P)
            ↔ t = clientId ∧ ws = true ∧ P) as Hnonull by (intros; tauto).
  match goal with |- ?A ∧ _ => assert A as Hiff end.
  { destruct message as [playerName mode draws now|roomCode playerName|col| |
                         |u|pieceId|]; simpl.
    + split; [|by intros (_ & _ & ?)].
      destruct (createRoom _ _ _ _ _ _) as [[m' room]|]; simpl; intros Hin;
        no_error_sent.
    + rewrite guarded_error_iff by (intros m' a H; no_error_sent).
      rewrite elem_of_sendError. tauto.
    + rewrite guarded_error_iff by (intros m' a H; no_error_sent).
      rewrite elem_of_nil. apply Hnonull.
    + rewrite guarded_error_iff by (intros m' a H; no_error_sent).
      rewrite elem_of_nil. apply Hnonull.
    + rewrite guarded_error_iff by (intros m' a H; no_error_sent).
      rewrite elem_of_nil. apply Hnonull.
    + rewrite guarded_error_iff by (intros m' a H; no_error_sent).
      rewrite elem_of_nil. apply Hnonull.
    + rewrite guarded_error_iff by (intros m' a H; no_error_sent).
      rewrite elem_of_nil. apply Hnonull.
    + split; [|by intros (_ & _ & ?)].
      destruct (leaveRoom m clientId) as [m' [rc|]]; simpl; intros Hin;
        no_error_sent. }
  split; [exact Hiff|].
  intros Hin. pose proof (proj1 Hiff Hin) as (Ht & _ & _).
    assert (Router.handleMessage m clients clientId ws message
            = (m, [(t, Router.error s)])) as Heq.
    { destruct message as [playerName mode draws now|roomCode playerName|col| |
                           |u|pieceId|]; simpl in Hin |- *.
      - destruct (createRoom _ _ _ _ _ _) as [[m' room]|]; simpl in Hin;
          no_error_sent.
      - apply guarded_error_alone; [| | |exact Hin].
        + intros o <-. destruct (joinRoom _ _ _ _) eqn:H.
          by eapply joinRoom_failed.
        + intros m' a H. no_error_sent.
        + intros d Hd. by apply elem_of_send in Hd as [-> ->].
      - apply guarded_error_alone; [| | |exact Hin].
        + intros o <-. destruct (chooseColor _ _ _) eqn:H.
          by eapply chooseColor_failed.
        + intros m' a H. no_error_sent.
        + by intros d ?%elem_of_nil.
      - apply guarded_error_alone; [| | |exact Hin].
        + intros o <-. destruct (setReady _ _) eqn:H.
          by eapply setReady_failed.
        + intros m' a H. no_error_sent.
        + by intros d ?%elem_of_nil.
      - apply guarded_error_alone; [| | |exact Hin].
        + intros o <-. destruct (startGame _ _) eqn:H.
          by eapply startGame_failed.
        + intros m' a H. no_error_sent.
        + by intros d ?%elem_of_nil.
      - apply guarded_error_alone; [| | |exact Hin].
        + intros o <-. destruct (rollDice _ _ _) eqn:H.
          by eapply rollDice_failed.
        + intros m' a H. no_error_sent.
        + by intros d ?%elem_of_nil.
      - apply guarded_error_alone; [| | |exact Hin].
        + intros o <-. destruct (movePiece _ _ _) eqn:H.
          by eapply movePiece_failed.
        + intros m' a H. no_error_sent.
        + by intros d ?%elem_of_nil.
      - destruct (leaveRoom m clientId) as [m' [rc|]]; simpl in Hin;
          no_error_sent. }
    subst t.
    split; [done|].
    by rewrite <- (router_effect m clients clientId ws), Heq.
Qed.

(** After the active player has left (the run of C1), the roll of the
    remaining player throws at [currentPlayer.id]; the sender is told so. *)
Lemma error_only_to_sender_witness :
  Router.handleMessage (run emptyManager scenarioA) openClients "b" true
    (msg_roll_dice 0.5%float)
  = (run emptyManager scenarioA, [("b"%string, Router.error "Not your turn")])
  ∧ ("a"%string,
     Router.error "Cannot read properties of undefined (reading 'id')")
    ∈ (Router.handleMessage (run emptyManager activePlayerLeaves) openClients
         "a" true (msg_roll_dice 0.5%float)).2.
Proof.
  split.
  - apply (error_only_to_sender (run emptyManager scenarioA) openClients "b"
             true (msg_roll_dice 0.5%float) "b" "Not your turn").
    vm_compute. apply list_elem_of_singleton. reflexivity.
  - apply (error_only_to_sender (run emptyManager activePlayerLeaves)
             openClients "a" true (msg_roll_dice 0.5%float) "a").
    split; [reflexivity|]. split; [reflexivity|].
    exists TypeError. split; vm_compute; reflexivity.
Defined.

(** X29 ([handleMessage] of the router): requests that get no answer.  A
    participant without a room who sends anything but [create] or [join]
    gets nothing back, not even an error, and nothing changes; the same
    holds for [roll_dice] and [move_piece] of a participant whose room has
    not started its game. *)
Theorem requests_without_answer m clients clientId ws message :
  (findRoom m clientId = None →
   match message with
   | msg_create _ _ _ _ | msg_join _ _ => True
   | _ => Router.handleMessage m clients clientId ws message = (m, [])
   end)
  ∧ (∀ c room, findRoom m clientId = Some (c, room) →
       started (gameState room) = false →
       match message with
       | msg_roll_dice _ | msg_move_piece _ =>
           Router.handleMessage m clients clientId ws message = (m, [])
       | _ => True
       end).
Proof.
  split.
  - intros Hf. destruct message; try done; simpl.
    + unfold chooseColor. by rewrite Hf.
    + unfold setReady. by rewrite Hf.
    + unfold startGame. by rewrite Hf.
    + unfold rollDice. by rewrite Hf.
    + unfold movePiece. by rewrite Hf.
    + unfold findRoom in Hf. unfold leaveRoom.
      destruct (playerToRoom m !! clientId) as [c|]; [|done].
      simpl in Hf. by destruct (rooms m !! c).
  - intros c room Hf Hs. destruct message; try done; simpl.
    + unfold rollDice. by rewrite Hf, Hs.
    + unfold movePiece. by rewrite Hf, Hs.
Qed.

Lemma requests_without_answer_witness :
  Router.handleMessage (run emptyManager lobbyReady) openClients "c" true
    msg_start_game = (run emptyManager lobbyReady, [])
  ∧ Router.handleMessage (run emptyManager lobbyReady) openClients "a" true
      (msg_roll_dice 0.5%float) = (run emptyManager lobbyReady, []).
Proof.
  destruct (requests_without_answer (run emptyManager lobbyReady) openClients
              "c" true msg_start_game) as [H1 _].
  destruct (requests_without_answer (run emptyManager lobbyReady) openClients
              "a" true (msg_roll_dice 0.5%float)) as [_ H2].
  split.
  - apply H1. vm_compute. reflexivity.
  - eapply H2; vm_compute; reflexivity.
Defined.

(** A successful call leaves the room it returns in the registry. *)
Ltac stored_room op :=
  unfold op; repeat case_match; intros [= <- <-]; eexists;
  apply lookup_insert_eq.

Lemma joinRoom_stored m roomCode playerId playerName m' r :
  joinRoom m roomCode playerId playerName = (m', Ok r) →
  ∃ k, rooms m' !! k = Some r.
Proof. stored_room joinRoom. Qed.

Lemma chooseColor_stored m playerId c m' r :
  chooseColor m playerId c = (m', Ok r) → ∃ k, rooms m' !! k = Some r.
Proof. stored_room chooseColor. Qed.

Lemma setReady_stored m playerId m' r :
  setReady m playerId = (m', Ok r) → ∃ k, rooms m' !! k = Some r.
Proof. stored_room setReady. Qed.

Lemma startGame_stored m playerId m' r :
  startGame m playerId = (m', Ok r) → ∃ k, rooms m' !! k = Some r.
Proof. stored_room startGame. Qed.

Lemma rollDice_stored m playerId u m' r roll :
  rollDice m playerId u = (m', Ok (r, roll)) → ∃ k, rooms m' !! k = Some r.
Proof.
  intros (roomCode & room & cp & _ & _ & _ & _ & _ & _ & -> & ->)%rollDice_Ok.
  eexists. apply lookup_insert_eq.
Qed.

Lemma movePiece_stored m playerId pieceId m' r captured :
  movePiece m playerId pieceId = (m', Ok (r, captured)) →
  ∃ k, rooms m' !! k = Some r.
Proof.
  intros (roomCode & room & cp & roll & i & piece & _ & _ & _ & _ & _ & _ & _
          & _ & _ & ->)%movePiece_Ok.
  eexists. apply lookup_insert_eq.
Qed.

(** In a reachable manager a stored room is found under its own code. *)
Lemma stored_under_code m k r :
  reachable m → rooms m !! k = Some r → rooms m !! code r = Some r.
Proof.
  intros Hm Hr. destruct (reachable_room_wf m k r Hm Hr) as (-> & _). done.
Qed.

(** What a broadcast of the room [r] stored in [m] delivers. *)
Lemma broadcast_stored m clients r message ex t resp :
  rooms m !! code r = Some r →
  (t, resp) ∈ Router.broadcastToRoom m clients (code r) message ex →
  resp = message ∧ t ∈ pl_id <$> players r ∧ clients !! t = Some true
  ∧ Some t ≠ ex.
Proof.
  intros Hr (-> & room & Hroom & Ht & Hc & Hex)%elem_of_broadcastToRoom.
  rewrite Hr in Hroom. injection Hroom as <-. done.
Qed.

Ltac delivered Hin :=
  repeat match type of Hin with
  | _ ∈ [] => by apply elem_of_nil in Hin
  | _ ∈ Router.sendError _ _ _ => apply elem_of_send in Hin as [[= -> ->] ->]
  | _ ∈ Router.send _ _ _ => apply elem_of_send in Hin as [[= -> ->] ->]
  end.

(** X30 ([handleMessage], [broadcastToRoom], [send] of the router): in a
    reachable manager every message that goes out in answer to a request is
    addressed to a participant listed in the room it carries, and that room
    is the one the registry holds under its code after the request.
    [room_created] and [room_joined] go to the sender only, with the
    sender's id; the broadcasts go to listed participants whose connection
    is known and open; the update of a [join] does not go to the joiner,
    and the update of a [leave] never goes to the one who left. *)
Theorem deliveries_carry_stored_room m clients clientId ws message t resp :
  reachable m →
  (t, resp) ∈ (Router.handleMessage m clients clientId ws message).2 →
  let m' := handleMessage m clientId message in
  match resp with
  | Router.error _ => t = clientId
  | Router.room_created room playerId | Router.room_joined room playerId =>
      t = clientId ∧ playerId = clientId ∧ ws = true
      ∧ rooms m' !! code room = Some room
      ∧ clientId ∈ pl_id <$> players room
  | Router.room_updated room | Router.game_started room
  | Router.piece_captured _ room =>
      rooms m' !! code room = Some room
      ∧ t ∈ pl_id <$> players room
      ∧ clients !! t = Some true
      ∧ ((message = msg_leave ∨ ∃ roomCode playerName,
            message = msg_join roomCode playerName) → t ≠ clientId)
  end.
Proof.
  intros Hm Hin m'.
  assert (reachable m') as Hm' by (by apply reachable_step).
  assert (∀ P : Prop, (message = msg_leave ∨ (∃ roomCode playerName,
            message = msg_join roomCode playerName) → P)
          ↔ (message = msg_leave ∨ (∃ roomCode playerName,
            message = msg_join roomCode playerName) → P)) as _ by done.
  destruct message as [playerName mode draws now|roomCode playerName|col| |
                       |u|pieceId|]; simpl in Hin; subst m'; simpl in *.
  - destruct (createRoom m draws now clientId playerName mode)
      as [[m1 room]|] eqn:Hop; simpl in *; delivered Hin; try done.
    split; [done|]. split; [done|]. split; [done|].
    unfold createRoom in Hop.
    destruct (generateRoomCode m draws) as [c|]; [|done].
    injection Hop as <- <-. simpl. split; [apply lookup_insert_eq|].
    apply list_elem_of_singleton. done.
  - destruct (joinRoom m roomCode clientId playerName)
      as [m1 [r| |e]] eqn:Hop; simpl in *; delivered Hin; try done.
    pose proof (joinRoom_stored _ _ _ _ _ _ Hop) as [k Hk].
    pose proof (stored_under_code _ _ _ Hm' Hk) as Hr.
    apply elem_of_app in Hin as [Hin|Hin].
    + delivered Hin. split; [done|]. split; [done|]. split; [done|].
      split; [done|].
      revert Hop. unfold joinRoom. repeat case_match; intros [= <- <-].
      simpl. rewrite fmap_app. apply elem_of_app. right.
      by apply list_elem_of_singleton.
    + apply (broadcast_stored _ _ _ _ _ _ _ Hr) in Hin
        as (-> & Ht & Hc & Hex).
      split; [done|]. split; [done|]. split; [done|].
      intros _ ->. done.
  - destruct (chooseColor m clientId col) as [m1 [r| |e]] eqn:Hop;
      simpl in *; delivered Hin; try done.
    pose proof (chooseColor_stored _ _ _ _ _ Hop) as [k Hk].
    pose proof (stored_under_code _ _ _ Hm' Hk) as Hr.
    apply (broadcast_stored _ _ _ _ _ _ _ Hr) in Hin as (-> & Ht & Hc & Hex).
    split; [done|]. split; [done|]. split; [done|].
    by intros [?|(? & ? & ?)].
  - destruct (setReady m clientId) as [m1 [r| |e]] eqn:Hop;
      simpl in *; delivered Hin; try done.
    pose proof (setReady_stored _ _ _ _ Hop) as [k Hk].
    pose proof (stored_under_code _ _ _ Hm' Hk) as Hr.
    apply (broadcast_stored _ _ _ _ _ _ _ Hr) in Hin as (-> & Ht & Hc & Hex).
    split; [done|]. split; [done|]. split; [done|].
    by intros [?|(? & ? & ?)].
  - destruct (startGame m clientId) as [m1 [r| |e]] eqn:Hop;
      simpl in *; delivered Hin; try done.
    pose proof (startGame_stored _ _ _ _ Hop) as [k Hk].
    pose proof (stored_under_code _ _ _ Hm' Hk) as Hr.
    apply (broadcast_stored _ _ _ _ _ _ _ Hr) in Hin as (-> & Ht & Hc & Hex).
    split; [done|]. split; [done|]. split; [done|].
    by intros [?|(? & ? & ?)].
  - destruct (rollDice m clientId u) as [m1 [[r roll]| |e]] eqn:Hop;
      simpl in *; delivered Hin; try done.
    pose proof (rollDice_stored _ _ _ _ _ _ Hop) as [k Hk].
    pose proof (stored_under_code _ _ _ Hm' Hk) as Hr.
    apply (broadcast_stored _ _ _ _ _ _ _ Hr) in Hin as (-> & Ht & Hc & Hex).
    split; [done|]. split; [done|]. split; [done|].
    by intros [?|(? & ? & ?)].
  - destruct (movePiece m clientId pieceId) as [m1 [[r cap]| |e]] eqn:Hop;
      simpl in *; delivered Hin; try done.
    pose proof (movePiece_stored _ _ _ _ _ _ Hop) as [k Hk].
    pose proof (stored_under_code _ _ _ Hm' Hk) as Hr.
    apply elem_of_app in Hin as [Hin|Hin].
    + apply (broadcast_stored _ _ _ _ _ _ _ Hr) in Hin
        as (-> & Ht & Hc & Hex).
      split; [done|]. split; [done|]. split; [done|].
      by intros [?|(? & ? & ?)].
    + destruct cap as [cap|]; [|by apply elem_of_nil in Hin].
      apply (broadcast_stored _ _ _ _ _ _ _ Hr) in Hin
        as (-> & Ht & Hc & Hex).
      split; [done|]. split; [done|]. split; [done|].
      by intros [?|(? & ? & ?)].
  - destruct (leaveRoom m clientId) as [m1 [rc|]] eqn:Hop;
      simpl in *; delivered Hin; try done.
    unfold getRoomByCode in Hin.
    destruct (rooms m1 !! rc) as [r|] eqn:Hk; delivered Hin.
    pose proof (stored_under_code _ _ _ Hm' Hk) as Hr.
    destruct (reachable_room_wf m1 rc r Hm' Hk) as (Hcode & _).
    rewrite <- Hcode in Hin.
    apply (broadcast_stored _ _ _ _ _ _ _ Hr) in Hin as (-> & Ht & Hc & Hex).
    split; [done|]. split; [done|]. split; [done|].
    intros _ ->. revert Hop Hk. unfold leaveRoom.
    destruct (playerToRoom m !! clientId) as [c|]; [|done].
    destruct (rooms m !! c) as [room|]; [|done].
    case_bool_decide; intros [= <- <-]; simpl.
    + by rewrite lookup_delete_eq.
    + rewrite lookup_insert_eq. intros [= <-]. simpl in Ht.
      apply list_elem_of_fmap in Ht as (p & Hp & Hin).
      apply list_elem_of_filter in Hin as [Hne _]. done.
Qed.

Lemma deliveries_carry_stored_room_witness :
  ∃ room,
    ("b"%string, Router.game_started room)
      ∈ (Router.handleMessage (run emptyManager lobbyReady) openClients
           "a" true msg_start_game).2
    ∧ rooms (handleMessage (run emptyManager lobbyReady) "a" msg_start_game)
        !! code room = Some room
    ∧ "b"%string ∈ pl_id <$> players room.
Proof.
  eexists.
  match goal with |- ?A ∧ _ => assert A as Hin end.
  { vm_compute. apply list_elem_of_further, list_elem_of_here. }
  split; [exact Hin|].
  pose proof (deliveries_carry_stored_room _ _ _ _ _ _ _
                ltac:(by eexists) Hin) as H.
  cbv beta zeta iota in H. destruct H as (H1 & H2 & _).
  split; [exact H1|exact H2].
Defined.

(** The handler of [close] does what a [leave] message does, and forgets
    the connection. *)
Lemma onClose_as_leave m clients clientId ws :
  Router.onClose m clients clientId
  = ((Router.handleMessage m clients clientId ws msg_leave).1,
     delete clientId clients,
     (Router.handleMessage m clients clientId ws msg_leave).2).
Proof.
  unfold Router.onClose. simpl.
  by destruct (leaveRoom m clientId) as [m' [rc|]].
Qed.
